(** * Automa LevelDB log extractor: a shallow embedding of [export-logs.js]

    The development follows the source file section by section: character
    classes and the regular expressions the extractor uses, the string carver
    ([extractCleanStrings]), the cleaner and the relevance gate
    ([cleanExtractedString], [isValidLogData]), the structured recoverer
    ([extractStructuredData]), the humanizer ([convertToHumanReadable]), the
    CSV writer ([saveToCSV]) and the driver ([run]).

    JavaScript strings are sequences of UTF-16 code units.  The carver only
    ever produces the code units 9, 10, 13 and 32..126; the model represents
    strings by [string], i.e. code units 0..255, and case mapping follows the
    Unicode tables on that range. *)

From Stdlib Require Import ZArith NArith Lia Bool List Ascii String DecimalString.
From Stdlib Require Strings.Byte.
From stdpp Require Import base option gmap strings sorting.
Import ListNotations.

Local Open Scope string_scope.
Local Open Scope N_scope.

(** String concatenation unfolds on a constructor, as list concatenation
    does. *)
#[local] Arguments String.append !_ _ / : simpl nomatch.

(** ** Character classes *)

Module Chars.

Definition code (c : ascii) : N := N_of_ascii c.

Definition between (lo hi : N) (c : ascii) : bool :=
  (lo <=? code c) && (code c <=? hi).

(** [\d], [a-z], [A-Z], [a-zA-Z], [a-zA-Z0-9], [\w]. *)
Definition is_digit (c : ascii) : bool := between 48 57 c.
Definition is_lower (c : ascii) : bool := between 97 122 c.
Definition is_upper (c : ascii) : bool := between 65 90 c.
Definition is_alpha (c : ascii) : bool := is_lower c || is_upper c.
Definition is_alnum (c : ascii) : bool := is_alpha c || is_digit c.
Definition is_word (c : ascii) : bool := is_alnum c || (code c =? 95).

(** [\s] (and the characters removed by [trim]) below code unit 256:
    TAB, LF, VT, FF, CR, SPACE and NBSP. *)
Definition is_space (c : ascii) : bool :=
  between 9 13 c || (code c =? 32) || (code c =? 160).

(** The characters the regular expression [.] does not match. *)
Definition is_line_terminator (c : ascii) : bool :=
  (code c =? 10) || (code c =? 13).

Definition is_nul (c : ascii) : bool := code c =? 0.

(** The double quote and the line feed. *)
Definition dquote : ascii := "034".
Definition lf : ascii := "010".

(** [/[\x01-\x08\x0B\x0C\x0E-\x1F\x7F-\xFF]/] *)
Definition is_non_printable (c : ascii) : bool :=
  between 1 8 c || (code c =? 11) || (code c =? 12) || between 14 31 c
  || between 127 255 c.

Definition shift_up (c : ascii) : ascii := ascii_of_N (code c + 32).
Definition shift_down (c : ascii) : ascii := ascii_of_N (code c - 32).

(** [String.prototype.toLowerCase] on one code unit. *)
Definition toLowerCase (c : ascii) : ascii :=
  if is_upper c || between 192 214 c || between 216 222 c
  then shift_up c else c.

(** [String.prototype.toUpperCase] on one code unit.  The upper-case forms
    of code units 181 and 255 lie above 255 and are not representable: they
    are left as they are; 223 maps to two code units. *)
Definition toUpperCase (c : ascii) : string :=
  if is_lower c || between 224 246 c || between 248 254 c
  then String (shift_down c) ""
  else if code c =? 223 then "SS"
  else String c "".

(** The [Canonicalize] operation of a case-insensitive regular expression
    without the [u] flag: upper-casing, except that a code unit outside
    ASCII is never folded onto an ASCII one and that a code unit whose
    upper-case form is longer stays as it is.  Code units 181 and 255 are
    folded onto code units above 255 that no other code unit below 256
    shares; leaving them in place compares the same. *)
Definition canon (c : ascii) : ascii :=
  if is_lower c || between 224 246 c || between 248 254 c
  then shift_down c else c.

Definition eqb_ci (a b : ascii) : bool := Ascii.eqb (canon a) (canon b).

End Chars.

(** ** Strings and the regular expressions of the source *)

Module Str.
Import Chars.

Fixpoint map (f : ascii -> ascii) (s : string) : string :=
  match s with
  | "" => ""
  | String c s' => String (f c) (map f s')
  end.

Definition toLowerCase (s : string) : string := map Chars.toLowerCase s.

Definition is_empty (s : string) : bool :=
  match s with "" => true | _ => false end.

(** [s.replace(/[class]/g, '')] *)
Fixpoint remove (p : ascii -> bool) (s : string) : string :=
  match s with
  | "" => ""
  | String c s' => if p c then remove p s' else String c (remove p s')
  end.

(** [s.replace(/[class]+/g, ' ')]: every maximal run of characters of the
    class becomes one space.  [in_run] tells that the previous character
    belonged to a run already replaced. *)
Fixpoint collapse_from (p : ascii -> bool) (in_run : bool) (s : string)
  : string :=
  match s with
  | "" => ""
  | String c s' =>
      if p c
      then if in_run then collapse_from p true s'
           else String " " (collapse_from p true s')
      else String c (collapse_from p false s')
  end.

Definition collapse (p : ascii -> bool) (s : string) : string :=
  collapse_from p false s.

(** [s.replace(/^[class]*/, '')] *)
Fixpoint drop_while (p : ascii -> bool) (s : string) : string :=
  match s with
  | "" => ""
  | String c s' => if p c then drop_while p s' else s
  end.

(** [s.replace(/[class]*$/, '')] *)
Fixpoint drop_while_end (p : ascii -> bool) (s : string) : string :=
  match s with
  | "" => ""
  | String c s' =>
      let r := drop_while_end p s' in
      if is_empty r && p c then "" else String c r
  end.

Definition trim (s : string) : string :=
  drop_while_end is_space (drop_while is_space s).

(** [s.includes(t)] *)
Fixpoint includes (s t : string) : bool :=
  String.prefix t s ||
  match s with
  | "" => false
  | String _ s' => includes s' t
  end.

(** [t] is a prefix of [s] up to case, as a case-insensitive regular
    expression matches a literal. *)
Fixpoint prefix_ci (t s : string) : bool :=
  match t, s with
  | "", _ => true
  | String a t', String b s' => eqb_ci a b && prefix_ci t' s'
  | String _ _, "" => false
  end.

(** The first [n] characters of [s] (all of it when it is shorter). *)
Fixpoint take (n : nat) (s : string) : string :=
  match n, s with
  | S n', String c s' => String c (take n' s')
  | _, _ => ""
  end.

Fixpoint drop (n : nat) (s : string) : string :=
  match n, s with
  | S n', String _ s' => drop n' s'
  | _, _ => s
  end.

Fixpoint take_while (p : ascii -> bool) (s : string) : string :=
  match s with
  | String c s' => if p c then String c (take_while p s') else ""
  | "" => ""
  end.

End Str.

(** ** Pattern matching

    A pattern is given by what it matches at the start of a string; [search]
    is the leftmost match of [String.prototype.match] / [RegExp.test]. *)

Module Re.
Import Chars.

Definition head (s : string) : option ascii :=
  match s with "" => None | String c _ => Some c end.

Fixpoint last_or (d : option ascii) (s : string) : option ascii :=
  match s with "" => d | String c s' => last_or (Some c) s' end.

(** Leftmost match of a pattern that looks at nothing before its start. *)
Fixpoint search (at_start : string -> option string) (s : string)
  : option string :=
  match at_start s with
  | Some m => Some m
  | None =>
      match s with
      | "" => None
      | String _ s' => search at_start s'
      end
  end.

(** Leftmost match of a pattern that also looks at the character before
    its start (for [\b]). *)
Fixpoint search_after (at_start : option ascii -> string -> option string)
  (prev : option ascii) (s : string) : option string :=
  match at_start prev s with
  | Some m => Some m
  | None =>
      match s with
      | "" => None
      | String c s' => search_after at_start (Some c) s'
      end
  end.

Definition test (r : string -> option string) (s : string) : bool :=
  match r s with Some _ => true | None => false end.

(** *** Alternations of literal words, case-insensitive *)

(** [(w1|w2|...)] at the start of [s]: the alternatives are tried in order;
    [ok] is what has to hold after the match (the rest of the pattern). *)
Fixpoint alt_at (ok : string -> string -> bool) (words : list string)
  (s : string) : option string :=
  match words with
  | [] => None
  | w :: ws =>
      let m := Str.take (String.length w) s in
      if Str.prefix_ci w s && ok m (Str.drop (String.length w) s)
      then Some m
      else alt_at ok ws s
  end.

Definition words_at (words : list string) (s : string) : option string :=
  alt_at (fun _ _ => true) words s.

(** [/w1|w2|.../i] *)
Definition words (ws : list string) (s : string) : option string :=
  search (words_at ws) s.

(** [\b]: exactly one of the two neighbours is a word character. *)
Definition wordy (o : option ascii) : bool :=
  match o with Some c => is_word c | None => false end.

Definition boundary (before after : option ascii) : bool :=
  xorb (wordy before) (wordy after).

Definition bounded_words_at (words : list string) (prev : option ascii)
  (s : string) : option string :=
  if boundary prev (head s)
  then alt_at (fun m rest => boundary (last_or prev m) (head rest)) words s
  else None.

(** [/\b(w1|w2|...)\b/i] *)
Definition bounded_words (ws : list string) (s : string) : option string :=
  search_after (bounded_words_at ws) None s.

(** *** [/\d{1,2}:\d{2}:\d{2}/] *)

Fixpoint all_digits (n : nat) (s : string) : bool :=
  match n, s with
  | O, _ => true
  | S n', String c s' => is_digit c && all_digits n' s'
  | S _, "" => false
  end.

Definition colon_at (s : string) : bool :=
  match s with String c _ => Ascii.eqb c ":" | "" => false end.

(** The pattern with exactly [k] digits in its first group. *)
Definition time_with (k : nat) (s : string) : option string :=
  if all_digits k s
     && colon_at (Str.drop k s)
     && all_digits 2 (Str.drop (k + 1) s)
     && colon_at (Str.drop (k + 3) s)
     && all_digits 2 (Str.drop (k + 4) s)
  then Some (Str.take (k + 6) s)
  else None.

(** The quantifier is greedy: two digits first, then one. *)
Definition time_at (s : string) : option string :=
  match time_with 2 s with
  | Some m => Some m
  | None => time_with 1 s
  end.

Definition time (s : string) : option string := search time_at s.

(** *** [/[a-zA-Z]{3,}/] *)

Definition alpha3_at (s : string) : option string :=
  match s with
  | String a (String b (String c rest)) =>
      if is_alpha a && is_alpha b && is_alpha c
      then Some (String a (String b (String c (Str.take_while is_alpha rest))))
      else None
  | _ => None
  end.

Definition alpha3 (s : string) : option string := search alpha3_at s.

(** *** [/typing[_\w]*|workflow[_\w]*/i] *)

Definition word_then_tail (w : string) (s : string) : option string :=
  if Str.prefix_ci w s
  then Some (Str.take (String.length w) s
             ++ Str.take_while is_word (Str.drop (String.length w) s))
  else None.

Definition workflow_at (s : string) : option string :=
  match word_then_tail "typing" s with
  | Some m => Some m
  | None => word_then_tail "workflow" s
  end.

Definition workflow (s : string) : option string := search workflow_at s.

(** *** [/\{[^{}]*\}/g]

    [close s]: the text up to the first brace of [s], when that brace is a
    closing one. *)
Fixpoint close (s : string) : option string :=
  match s with
  | "" => None
  | String c s' =>
      if Ascii.eqb c "}" then Some ""
      else if Ascii.eqb c "{" then None
      else option_map (String c) (close s')
  end.

(** All matches, left to right; after a match the search resumes behind it:
    [skip] counts the characters of the last match still to be passed. *)
Fixpoint braces_from (skip : nat) (s : string) : list string :=
  match s with
  | "" => []
  | String c s' =>
      match skip with
      | S k => braces_from k s'
      | O =>
          if Ascii.eqb c "{"
          then match close s' with
               | Some body =>
                   ("{" ++ body ++ "}") :: braces_from (S (String.length body)) s'
               | None => braces_from 0 s'
               end
          else braces_from 0 s'
      end
  end.

Definition braces (s : string) : list string := braces_from 0 s.

End Re.

(** ** JavaScript values and exceptions *)

Module Js.

(** A number is a double; the code observes it only through [ToBoolean]
    and [ToString]. *)
Record number := { nonzero : bool; decimal : string }.

#[local] Set Warnings "-register-all".

(** The values [JSON.parse] builds inside a fragment matched by
    [/\{[^{}]*\}/]: the fragment holds no inner brace, hence no inner
    object. *)
Inductive value :=
| Null
| Bool (b : bool)
| Num (n : number)
| Text (s : string)
| Arr (l : list value).

(** A parsed object: own properties by name. *)
Abbreviation object := (gmap string value).

(** [ToBoolean] *)
Definition truthy (v : value) : bool :=
  match v with
  | Null => false
  | Bool b => b
  | Num n => nonzero n
  | Text s => negb (Str.is_empty s)
  | Arr _ => true
  end.

(** Reading a property that may be absent ([undefined] is falsy). *)
Definition truthy_prop (o : option value) : bool :=
  match o with Some v => truthy v | None => false end.

Fixpoint join (sep : string) (l : list string) : string :=
  match l with
  | [] => ""
  | [x] => x
  | x :: rest => x ++ sep ++ join sep rest
  end.

(** [ToString]; an array is joined with commas, [null] elements being
    empty. *)
Fixpoint toString (v : value) : string :=
  match v with
  | Null => "null"
  | Bool true => "true"
  | Bool false => "false"
  | Num n => decimal n
  | Text s => s
  | Arr l =>
      join ","
        (List.map (fun x => match x with Null => "" | _ => toString x end) l)
  end.

Inductive exn :=
| TypeError    (** a method called on a value that does not have it *)
| IOError.     (** a rejected file-system operation *)

(** Computations that may throw. *)
Inductive result (A : Type) :=
| Ok (a : A)
| Throw (e : exn).
Arguments Ok {A} a.
Arguments Throw {A} e.

Definition bind {A B} (r : result A) (k : A -> result B) : result B :=
  match r with
  | Ok a => k a
  | Throw e => Throw e
  end.

End Js.

Notation "'do' x <- r ; k" := (Js.bind r (fun x => k))
  (at level 10, x name, r at level 100, k at level 200).

(** ** The platform: file system, clock, and the effects of a run *)

Module Io.

(** What the run can observe of its surroundings.  A [None] is a rejected
    promise; [pathExists] never rejects. *)
Record Env := {
  cwd : string;                                  (** [process.cwd()] *)
  join : list string -> string;                  (** [path.join] *)
  pathExists : string -> bool;
  readdir : string -> option (list string);
  stat : string -> option (bool * N);            (** [isFile()], [size] *)
  readFile : string -> option (list Byte.byte);
  ensureDir : string -> bool;                    (** does it succeed? *)
  writeFile : string -> bool;                    (** does it succeed? *)
  toISOString : nat -> string   (** [new Date().toISOString()], by call *)
}.

(** What the run changes: the number of clock readings taken so far and
    the files written, oldest first. *)
Record State := {
  tick : nat;
  written : list (string * string)
}.

Definition M (A : Type) : Type := State -> Js.result A * State.

Definition ret {A} (a : A) : M A := fun st => (Js.Ok a, st).

Definition throw {A} (e : Js.exn) : M A := fun st => (Js.Throw e, st).

Definition bind {A B} (m : M A) (k : A -> M B) : M B :=
  fun st =>
    match m st with
    | (Js.Ok a, st') => k a st'
    | (Js.Throw e, st') => (Js.Throw e, st')
    end.

Definition lift {A} (r : Js.result A) : M A := fun st => (r, st).

(** [new Date().toISOString()] *)
Definition now (env : Env) : M string :=
  fun st =>
    (Js.Ok (toISOString env (tick st)),
     {| tick := S (tick st); written := written st |}).

(** [await fs.writeFile(path, content, 'utf8')] *)
Definition write (env : Env) (path content : string) : M unit :=
  fun st =>
    if writeFile env path
    then (Js.Ok tt,
          {| tick := tick st;
             written := (written st ++ [(path, content)])%list |})
    else (Js.Throw Js.IOError, st).

(** [await fs.ensureDir(path)] *)
Definition mkdir (env : Env) (path : string) : M unit :=
  fun st =>
    if ensureDir env path then (Js.Ok tt, st) else (Js.Throw Js.IOError, st).

End Io.

Notation "'io' x <- m ; k" := (Io.bind m (fun x => k))
  (at level 10, x name, m at level 100, k at level 200).

(** ** The carver, the cleaner and the relevance gate
       ([ImprovedLevelDBExtractor], first half) *)

Module Improved.
Import Chars.

(** [String.fromCharCode(byte)] *)
Definition fromCharCode (b : Byte.byte) : string :=
  String (ascii_of_byte b) "".

(** The test of the carving loop:
    [(byte >= 32 && byte <= 126) || byte === 9 || byte === 10 || byte === 13] *)
Definition printable (b : Byte.byte) : bool :=
  let n := Byte.to_N b in
  ((32 <=? n) && (n <=? 126)) || (n =? 9) || (n =? 10) || (n =? 13).

(** [cleanExtractedString]; [None] is the [null] result. *)
Definition cleanExtractedString (str : string) : option string :=
  if Str.is_empty str then None
  else
    let cleaned :=
      Str.trim
        (Str.collapse is_space
           (Str.remove is_non_printable
              (Str.collapse is_nul str))) in
    let cleaned :=
      Str.trim
        (Str.drop_while_end (fun c => negb (is_alnum c))
           (Str.drop_while (fun c => negb (is_alnum c)) cleaned)) in
    if (2 <? String.length cleaned)%nat then Some cleaned else None.

Definition automaTerms : list string :=
  [ "trigger"; "click"; "type"; "typing"; "navigate"; "wait"; "scroll";
    "workflow"; "tab"; "element"; "success"; "failed"; "error";
    "started"; "completed"; "new tab"; "close"; "reload";
    "typing_five"; "logId"; "workflowId"; "status"; "message" ].

Definition logLevels : list string :=
  [ "success"; "failed"; "error"; "warning"; "info"; "debug" ].

Definition hasAutomaTerms (str : string) : bool :=
  let lowerStr := Str.toLowerCase str in
  existsb (fun term => Str.includes lowerStr term) automaTerms.

Definition hasTimePattern (str : string) : bool := Re.test Re.time str.

Definition hasLogPattern (str : string) : bool :=
  Re.test (Re.bounded_words logLevels) str.

Definition hasJSONLike (str : string) : bool :=
  Str.includes str "{" || Str.includes str (String dquote "")
  || Str.includes str ":".

Definition hasAlphabetic (str : string) : bool := Re.test Re.alpha3 str.

Definition isValidLogData (str : string) : bool :=
  if Str.is_empty str || (String.length str <? 3)%nat then false
  else
    hasAlphabetic str
    && (hasAutomaTerms str || hasTimePattern str || hasLogPattern str
        || hasJSONLike str).

Definition minStringLength : nat := 3.

(** What the loop does with a finished run: clean it, gate it, push it. *)
Definition flush (strings : list string) (currentString : string)
  : list string :=
  if (minStringLength <=? String.length currentString)%nat
  then match cleanExtractedString currentString with
       | Some cleaned =>
           if isValidLogData cleaned then strings ++ [cleaned] else strings
       | None => strings
       end
  else strings.

(** The [for] loop of [extractCleanStrings], with its two variables. *)
Fixpoint carve_loop (buffer : list Byte.byte) (strings : list string)
  (currentString : string) : list string * string :=
  match buffer with
  | [] => (strings, currentString)
  | byte :: rest =>
      if printable byte
      then carve_loop rest strings (currentString ++ fromCharCode byte)
      else carve_loop rest (flush strings currentString) ""
  end.

Definition extractCleanStrings (buffer : list Byte.byte) : list string :=
  let '(strings, currentString) := carve_loop buffer [] "" in
  flush strings currentString.

(** *** The structured recoverer *)

Record LogFragment := {
  workflow : string;
  action : string;
  status : string;
  time : string;
  raw : string
}.

(** An element of [structuredData]: [type: 'json'] or [type: 'log_entry']. *)
Inductive StructuredEntry :=
| Json (data : Js.object) (raw : string)
| LogEntry (e : LogFragment).

Definition actionWords : list string :=
  [ "trigger"; "click"; "type"; "navigate"; "wait"; "scroll"; "tab";
    "element" ].

Definition statusWords : list string :=
  [ "success"; "failed"; "error"; "completed"; "started" ].

(** Truthiness of a match result ([null] when nothing matched). *)
Definition matched (m : option string) : bool :=
  match m with Some _ => true | None => false end.

(** [m ? m[0] : d] *)
Definition or_default (d : string) (m : option string) : string :=
  match m with Some x => x | None => d end.

(** The second half of the loop body of [extractStructuredData]. *)
Definition logFragment (str : string) : list StructuredEntry :=
  let workflowMatch := Re.workflow str in
  let actionMatch := Re.words actionWords str in
  let statusMatch := Re.words statusWords str in
  let timeMatch := Re.time str in
  if matched workflowMatch || matched actionMatch
     || matched statusMatch || matched timeMatch
  then [ LogEntry {| workflow := or_default "Unknown" workflowMatch;
                     action := or_default "" actionMatch;
                     status := or_default "" statusMatch;
                     time := or_default "" timeMatch;
                     raw := str |} ]
  else [].

Section Json.

(** The platform's [JSON.parse] on the text of a brace fragment ([None]: it
    throws [SyntaxError]) and [JSON.stringify] on what it returned. *)
Variable parse : string -> option Js.object.
Variable stringify : Js.object -> string.

Definition containsWorkflowData (data : Js.object) : bool :=
  let dataStr := Str.toLowerCase (stringify data) in
  Str.includes dataStr "workflow"
  || Str.includes dataStr "trigger"
  || Str.includes dataStr "typing"
  || Str.includes dataStr "logid"
  || Str.includes dataStr "workflowid".

(** The first half of the loop body: the JSON fragments of one string. *)
Definition jsonFragments (str : string) : list StructuredEntry :=
  if Str.includes str "{" && Str.includes str "}"
  then
    flat_map
      (fun m =>
         match parse m with
         | Some parsed =>
             if containsWorkflowData parsed then [Json parsed m] else []
         | None => []
         end)
      (Re.braces str)
  else [].

Definition extractStructuredData (strings : list string)
  : list StructuredEntry :=
  flat_map (fun str => (jsonFragments str ++ logFragment str)%list) strings.

End Json.

(** *** The humanizer *)

Record ReadableRecord := {
  rec_workflow : string;   (** [workflow] *)
  rec_log : string         (** [log] *)
}.

(** The own properties of [actionMap]. *)
Definition actionMap : list (string * string) :=
  [ ("trigger", "Started workflow");
    ("click", "Clicked element");
    ("type", "Typed text");
    ("typing", "Typed text");
    ("navigate", "Navigated to page");
    ("wait", "Waited");
    ("scroll", "Scrolled page");
    ("tab", "Opened tab");
    ("element", "Interacted with element") ].

Fixpoint assoc (k : string) (l : list (string * string)) : option string :=
  match l with
  | [] => None
  | (k', v) :: rest => if String.eqb k k' then Some v else assoc k rest
  end.

(** What [actionMap[key]] is for a [key] the literal does not have.  Of the
    names an object inherits only [constructor] and [__proto__] are in
    lower case: they give the function [Object] and the object
    [Object.prototype], both truthy, which [parts.join(' ')] then renders
    as the texts below.  Any other key gives [undefined]. *)
Definition inheritedAction (key : string) : option string :=
  if String.eqb key "constructor"
  then Some "function Object() { [native code] }"
  else if String.eqb key "__proto__" then Some "[object Object]"
  else None.

(** [actionMap[action.toLowerCase()] || action], as the caller's [join]
    renders it. *)
Definition humanizeAction (action : string) : string :=
  match assoc (Str.toLowerCase action) actionMap with
  | Some phrase => phrase
  | None =>
      match inheritedAction (Str.toLowerCase action) with
      | Some text => text
      | None => action
      end
  end.

(** [name.replace(/\b\w/g, l => l.toUpperCase())]: a word character that
    does not follow a word character is upper-cased. *)
Fixpoint capitalize_words (after_word : bool) (s : string) : string :=
  match s with
  | "" => ""
  | String c s' =>
      if is_word c
      then (if after_word then String c "" else Chars.toUpperCase c)
           ++ capitalize_words true s'
      else String c (capitalize_words false s')
  end.

Definition is_dash (c : ascii) : bool :=
  Ascii.eqb c "_" || Ascii.eqb c "-".

(** [cleanWorkflowName]; its argument is whatever the humanizer stored in
    [workflow], and [replace] only exists on strings. *)
Definition cleanWorkflowName (name : Js.value) : Js.result string :=
  match name with
  | Js.Text s =>
      if Str.is_empty s || String.eqb s "Unknown"
      then Js.Ok "Unknown Workflow"
      else Js.Ok
             (Str.trim
                (capitalize_words false
                   (Str.map (fun c => if is_dash c then " "%char else c) s)))
  | _ => if Js.truthy name then Js.Throw Js.TypeError
         else Js.Ok "Unknown Workflow"
  end.

(** [entry.replace(/^\d+\s*/, '')] *)
Definition strip_leading_number (s : string) : string :=
  match s with
  | String c _ =>
      if is_digit c
      then Str.drop_while is_space (Str.drop_while is_digit s)
      else s
  | "" => s
  end.

(** [entry.replace(/^./, c => c.toUpperCase())] *)
Definition capitalize_first (s : string) : string :=
  match s with
  | String c s' =>
      if is_line_terminator c then s else Chars.toUpperCase c ++ s'
  | "" => s
  end.

Definition cleanLogEntry (entry : Js.value) : Js.result string :=
  match entry with
  | Js.Text s =>
      if Str.is_empty s then Js.Ok ""
      else Js.Ok
             (capitalize_first
                (Str.trim (Str.collapse is_space (strip_leading_number s))))
  | _ => if Js.truthy entry then Js.Throw Js.TypeError else Js.Ok ""
  end.

(** The value a truthy property overwrites a variable with. *)
Definition overwrite (p : option Js.value) (old : Js.value) : Js.value :=
  match p with
  | Some v => if Js.truthy v then v else old
  | None => old
  end.

(** [workflow] after the two assignments of the JSON branch. *)
Definition jsonWorkflow (data : Js.object) : Js.value :=
  overwrite (data !! "workflowId")
    (overwrite (data !! "name") (Js.Text "Unknown")).

(** [readable] after the two assignments of the JSON branch. *)
Definition jsonReadable (data : Js.object) : Js.value :=
  let readable := overwrite (data !! "message") (Js.Text "") in
  match data !! "status" with
  | Some st =>
      if Js.truthy st
      then Js.Text (Js.toString readable ++ " (" ++ Js.toString st ++ ")")
      else readable
  | None => readable
  end.

(** [readable] of the log-entry branch: [parts.join(' ') || entry.raw]. *)
Definition logReadable (e : LogFragment) : string :=
  let parts :=
    List.app (if Str.is_empty (time e) then [] else ["at " ++ time e])
      (List.app
         (if Str.is_empty (action e) then []
          else [humanizeAction (action e)])
         (if Str.is_empty (status e) then [] else ["- " ++ status e])) in
  let joined := Js.join " " parts in
  if Str.is_empty joined then raw e else joined.

(** [readable && readable.length > 0] *)
Definition has_length (v : Js.value) : bool :=
  match v with
  | Js.Text s => negb (Str.is_empty s)
  | Js.Arr l => match l with [] => false | _ => true end
  | _ => false
  end.

(** One iteration of the loop of [convertToHumanReadable]: the records it
    pushes (none or one), or the exception it raises. *)
Definition humanize (entry : StructuredEntry)
  : Js.result (list ReadableRecord) :=
  let '(workflow, readable) :=
    match entry with
    | Json data _ => (jsonWorkflow data, jsonReadable data)
    | LogEntry e =>
        (Js.Text (if Str.is_empty (workflow e) then "Unknown" else workflow e),
         Js.Text (logReadable e))
    end in
  if has_length readable
  then do w <- cleanWorkflowName workflow;
       do l <- cleanLogEntry readable;
       Js.Ok [ {| rec_workflow := w; rec_log := l |} ]
  else Js.Ok [].

Fixpoint convertToHumanReadable (structuredData : list StructuredEntry)
  : Js.result (list ReadableRecord) :=
  match structuredData with
  | [] => Js.Ok []
  | entry :: rest =>
      do here <- humanize entry;
      do later <- convertToHumanReadable rest;
      Js.Ok (here ++ later)%list
  end.

(** *** The CSV writer *)

Definition outputDir : string := "/workspace/automa-exports".

(** [escapedLog]: every double quote doubled. *)
Fixpoint escapeQuotes (s : string) : string :=
  match s with
  | "" => ""
  | String c s' =>
      if Ascii.eqb c dquote
      then String dquote (String dquote (escapeQuotes s'))
      else String c (escapeQuotes s')
  end.

Definition needsQuotes (log : string) : bool :=
  Str.includes log "," || Str.includes log (String lf "")
  || Str.includes log (String dquote "").

(** A string between two double quotes. *)
Definition quoted (s : string) : string :=
  String dquote (s ++ String dquote "").

Definition logValue (log : string) : string :=
  if needsQuotes log then quoted (escapeQuotes log) else escapeQuotes log.

(** The word list of the action column. *)
Definition csvActionWords : list string :=
  [ "clicked"; "typed"; "navigated"; "waited"; "scrolled"; "started";
    "opened" ].

Definition csvStatus (log : string) : string :=
  or_default "info" (Re.bounded_words statusWords log).

Definition csvAction (log : string) : string :=
  or_default "action" (Re.bounded_words csvActionWords log).

Definition newline : string := String lf "".

(** A row of a per-workflow file. *)
Definition workflowRow (timestamp workflowName log : string) : string :=
  quoted timestamp ++ "," ++ quoted workflowName ++ ","
  ++ quoted (csvAction log) ++ "," ++ quoted (csvStatus log) ++ newline.

(** A row of the combined file. *)
Definition combinedRow (timestamp : string) (item : ReadableRecord)
  : string :=
  quoted timestamp ++ "," ++ quoted (rec_workflow item) ++ ","
  ++ logValue (rec_log item) ++ ","
  ++ quoted (csvAction (rec_log item)) ++ ","
  ++ quoted (csvStatus (rec_log item)) ++ newline.

(** A [forEach] that appends one row per element to [content], reading the
    clock for each. *)
Fixpoint appendRows {A} (env : Io.Env) (row : string -> A -> string)
  (items : list A) (content : string) : Io.M string :=
  match items with
  | [] => Io.ret content
  | item :: rest =>
      io timestamp <- Io.now env;
      appendRows env row rest (content ++ row timestamp item)
  end.

(** The property names every object inherits from [Object.prototype]. *)
Definition inherited : list string :=
  [ "constructor"; "__defineGetter__"; "__defineSetter__"; "hasOwnProperty";
    "__lookupGetter__"; "__lookupSetter__"; "isPrototypeOf";
    "propertyIsEnumerable"; "toString"; "valueOf"; "__proto__";
    "toLocaleString" ].

(** The object [workflows], as its own properties in insertion order. *)
Abbreviation groups := (list (string * list string)).

Fixpoint pushLog (workflowName log : string) (workflows : groups) : groups :=
  match workflows with
  | [] => [(workflowName, [log])]
  | (k, logs) :: rest =>
      if String.eqb k workflowName
      then (k, (logs ++ [log])%list) :: rest
      else (k, logs) :: pushLog workflowName log rest
  end.

(** The grouping loop.  An inherited property is truthy and has no [push]. *)
Fixpoint groupByWorkflow (readableData : list ReadableRecord)
  (workflows : groups) : Js.result groups :=
  match readableData with
  | [] => Js.Ok workflows
  | item :: rest =>
      let workflowName :=
        if Str.is_empty (rec_workflow item) then "Unknown Workflow"
        else rec_workflow item in
      if existsb (String.eqb workflowName) inherited
      then Js.Throw Js.TypeError
      else groupByWorkflow rest (pushLog workflowName (rec_log item) workflows)
  end.

(** [Object.entries] lists the properties whose name is an array index (a
    canonical decimal numeral below 2^32 - 1) first, in increasing order,
    and the others after them in insertion order. *)
Fixpoint decimalValue (acc : N) (s : string) : N :=
  match s with
  | "" => acc
  | String c s' => decimalValue (10 * acc + (code c - 48)) s'
  end.

Definition arrayIndex (s : string) : option N :=
  match s with
  | "" => None
  | String c s' =>
      if Str.is_empty (Str.drop_while is_digit s)
         && (negb (Ascii.eqb c "0") || Str.is_empty s')
         && (decimalValue 0 s <? 4294967295)
      then Some (decimalValue 0 s)
      else None
  end.

Definition isArrayIndex (s : string) : bool :=
  match arrayIndex s with Some _ => true | None => false end.

Fixpoint insertIndexed (i : N) (g : string * list string)
  (sorted : list (N * (string * list string)))
  : list (N * (string * list string)) :=
  match sorted with
  | [] => [(i, g)]
  | (j, h) :: rest =>
      if i <? j then (i, g) :: sorted else (j, h) :: insertIndexed i g rest
  end.

Fixpoint indexed (workflows : groups) : list (N * (string * list string)) :=
  match workflows with
  | [] => []
  | g :: rest =>
      match arrayIndex (fst g) with
      | Some i => insertIndexed i g (indexed rest)
      | None => indexed rest
      end
  end.

Definition entries (workflows : groups) : groups :=
  (List.map snd (indexed workflows)
   ++ List.filter (fun g => negb (isArrayIndex (fst g))) workflows)%list.

Definition workflowHeader : string :=
  "timestamp,workflow_name,action,status" ++ newline.

Definition combinedHeader : string :=
  "timestamp,workflow_name,log_entry,action,status" ++ newline.

(** [workflowName.replace(/[^a-zA-Z0-9_\s-]/g, '_').substring(0, 30)] *)
Definition cleanName (workflowName : string) : string :=
  Str.take 30
    (Str.map
       (fun c =>
          if is_word c || is_space c || Ascii.eqb c "-" then c else "_"%char)
       workflowName).

(** [new Date().toISOString().split('T')[0]] applied to a clock reading. *)
Definition datePart (iso : string) : string :=
  Str.take_while (fun c => negb (Ascii.eqb c "T")) iso.

(** The loop over [Object.entries(workflows)]: one file per group. *)
Fixpoint saveWorkflowFiles (env : Io.Env) (timestamp : string)
  (workflows : groups) (savedFiles : list string) : Io.M (list string) :=
  match workflows with
  | [] => Io.ret savedFiles
  | (workflowName, logs) :: rest =>
      let filename := cleanName workflowName ++ "_" ++ timestamp ++ ".csv" in
      let filepath := Io.join env [outputDir; filename] in
      io csvContent <-
        appendRows env (fun ts log => workflowRow ts workflowName log)
          logs workflowHeader;
      io _ <- Io.write env filepath csvContent;
      saveWorkflowFiles env timestamp rest (savedFiles ++ [filepath])%list
  end.

(** [saveToCSV]; [None] is its [null] result. *)
Definition saveToCSV (env : Io.Env) (workflowData : list StructuredEntry)
  : Io.M (option (list string)) :=
  match workflowData with
  | [] => Io.ret None
  | _ =>
      io _ <- Io.mkdir env outputDir;
      io readableData <- Io.lift (convertToHumanReadable workflowData);
      match readableData with
      | [] => Io.ret None
      | _ =>
          io workflows <- Io.lift (groupByWorkflow readableData []);
          io iso <- Io.now env;
          let timestamp := datePart iso in
          io savedFiles <-
            saveWorkflowFiles env timestamp (entries workflows) [];
          let combinedFilename := "all_workflows_" ++ timestamp ++ ".csv" in
          let combinedFilepath := Io.join env [outputDir; combinedFilename] in
          io combinedContent <-
            appendRows env combinedRow readableData combinedHeader;
          io _ <- Io.write env combinedFilepath combinedContent;
          Io.ret (Some (savedFiles ++ [combinedFilepath])%list)
      end
  end.

(** *** Discovery and the driver *)

Definition possiblePaths (env : Io.Env) : list string :=
  [ "/workspaces/test2/chrome_profile";
    "/workspace/chrome_profile";
    Io.cwd env ++ "/chrome_profile";
    "./chrome_profile" ].

Definition findChromeProfiles (env : Io.Env) : list string :=
  match List.find (Io.pathExists env) (possiblePaths env) with
  | Some profilePath => [profilePath]
  | None => []
  end.

Definition findIndexedDBDirs (env : Io.Env) (profilePaths : list string)
  : list string :=
  List.filter (Io.pathExists env)
    (List.map (fun profilePath =>
                 Io.join env [profilePath; "Default"; "IndexedDB"])
       profilePaths).

(** [item.endsWith(suffix)] *)
Definition endsWith (item suffix : string) : bool :=
  String.eqb
    (Str.drop (String.length item - String.length suffix) item) suffix.

Definition isExtensionDir (item : string) : bool :=
  String.prefix "chrome-extension_" item
  && endsWith item ".indexeddb.leveldb".

(** A directory that cannot be read is reported and skipped. *)
Definition findAutomaExtensions (env : Io.Env) (indexedDBDirs : list string)
  : list string :=
  flat_map
    (fun idbDir =>
       match Io.readdir env idbDir with
       | Some contents =>
           List.map (fun item => Io.join env [idbDir; item])
             (List.filter isExtensionDir contents)
       | None => []
       end)
    indexedDBDirs.

Definition isTableFile (file : string) : bool :=
  endsWith file ".log" || endsWith file ".ldb"
  || String.eqb file "CURRENT" || String.eqb file "MANIFEST-000001".

Section Driver.

Variable parse : string -> option Js.object.
Variable stringify : Js.object -> string.
Variable env : Io.Env.

(** The loop over the files of one directory.  A failing [stat] leaves the
    loop (it is caught around the whole directory); a failing [readFile] is
    caught around the file. *)
Fixpoint extractFiles (automaDir : string) (files : list string)
  (allStructuredData : list StructuredEntry) : list StructuredEntry :=
  match files with
  | [] => allStructuredData
  | file :: rest =>
      let filePath := Io.join env [automaDir; file] in
      match Io.stat env filePath with
      | None => allStructuredData
      | Some (isFile, _) =>
          let found :=
            if isFile && isTableFile file
            then match Io.readFile env filePath with
                 | Some buffer =>
                     let strings := extractCleanStrings buffer in
                     extractStructuredData parse stringify strings
                 | None => []
                 end
            else [] in
          extractFiles automaDir rest (allStructuredData ++ found)%list
      end
  end.

Fixpoint extractWorkflowData (automaDirs : list string)
  (allStructuredData : list StructuredEntry) : list StructuredEntry :=
  match automaDirs with
  | [] => allStructuredData
  | automaDir :: rest =>
      let here :=
        if Io.pathExists env automaDir
        then match Io.readdir env automaDir with
             | Some files => extractFiles automaDir files allStructuredData
             | None => allStructuredData
             end
        else allStructuredData in
      extractWorkflowData rest here
  end.

(** What [run] resolves to: [undefined] on an early return, else what
    [saveToCSV] returned. *)
Inductive Outcome :=
| Undefined
| Saved (savedFiles : option (list string)).

Definition run : Io.M Outcome :=
  match findChromeProfiles env with
  | [] => Io.ret Undefined
  | profilePaths =>
      match findIndexedDBDirs env profilePaths with
      | [] => Io.ret Undefined
      | indexedDBDirs =>
          match findAutomaExtensions env indexedDBDirs with
          | [] => Io.ret Undefined
          | automaDirs =>
              match extractWorkflowData automaDirs [] with
              | [] => Io.ret Undefined
              | structuredData =>
                  io savedFiles <- saveToCSV env structuredData;
                  Io.ret (Saved savedFiles)
              end
          end
      end
  end.

(** The process: [extractAutomaLogs().catch(... process.exit(1))]. *)
Definition exitCode (r : Js.result Outcome) : N :=
  match r with
  | Js.Ok _ => 0
  | Js.Throw _ => 1
  end.

End Driver.

End Improved.

(** ** The carver of [SimpleAutomaExtractor] *)

Module Simple.

(** [byte >= 32 && byte <= 126] *)
Definition printable (b : Byte.byte) : bool :=
  let n := Byte.to_N b in (32 <=? n) && (n <=? 126).

(** [if (currentString.length > 3) strings.push(currentString)] *)
Definition push (strings : list string) (currentString : string)
  : list string :=
  if (3 <? String.length currentString)%nat
  then (strings ++ [currentString])%list
  else strings.

Fixpoint carve_loop (buffer : list Byte.byte) (strings : list string)
  (currentString : string) : list string * string :=
  match buffer with
  | [] => (strings, currentString)
  | byte :: rest =>
      if printable byte
      then carve_loop rest strings
             (currentString ++ Improved.fromCharCode byte)
      else carve_loop rest (push strings currentString) ""
  end.

Definition mentionsWorkflow (s : string) : bool :=
  Str.includes s "workflow" || Str.includes s "typing"
  || Str.includes s "trigger" || Str.includes s "click".

Definition extractStringsFromBuffer (buffer : list Byte.byte)
  : list string :=
  let '(strings, currentString) := carve_loop buffer [] "" in
  List.filter mentionsWorkflow (push strings currentString).

(** *** Records from carved strings and from text *)

(** [filename.replace(/\.[^/.]+$/, "")]: the last extension is dropped,
    when it is not empty and holds no slash. *)
Definition extensionChar (c : ascii) : bool :=
  negb (Ascii.eqb c "/" || Ascii.eqb c ".").

Fixpoint all_chars (p : ascii -> bool) (s : string) : bool :=
  match s with
  | "" => true
  | String c s' => p c && all_chars p s'
  end.

Fixpoint stripExtension (filename : string) : string :=
  match filename with
  | "" => ""
  | String c rest =>
      if Ascii.eqb c "." && negb (Str.is_empty rest)
         && all_chars extensionChar rest
      then ""
      else String c (stripExtension rest)
  end.

(** The test that makes a string or a line a log entry. *)
Definition isLogLine (str : string) : bool :=
  Str.includes str "Trigger" || Str.includes str "Click"
  || Str.includes str "typing" || Str.includes str "New tab".

(** The loop of [extractFromStrings], with its variable
    [currentWorkflow]. *)
Fixpoint stringsLoop (strings : list string) (currentWorkflow : string)
  : list Improved.ReadableRecord :=
  match strings with
  | [] => []
  | str :: rest =>
      let currentWorkflow :=
        if Str.includes (Str.toLowerCase str) "workflow"
           && Str.includes str "_"
        then str else currentWorkflow in
      ((if isLogLine str
        then [ {| Improved.rec_workflow := currentWorkflow;
                  Improved.rec_log := str |} ]
        else [])
       ++ stringsLoop rest currentWorkflow)%list
  end.

Definition extractFromStrings (strings : list string) (filename : string)
  : list Improved.ReadableRecord :=
  stringsLoop strings (stripExtension filename).

(** [s.split(sep)] for a separator of one character. *)
Fixpoint splitOn (sep : ascii) (s : string) : list string :=
  match s with
  | "" => [""]
  | String c rest =>
      if Ascii.eqb c sep then "" :: splitOn sep rest
      else match splitOn sep rest with
           | first :: more => String c first :: more
           | [] => [String c ""]
           end
  end.

(** [parts[1].trim()] of [trimmedLine.split(':')], when there is one. *)
Definition secondPart (trimmedLine : string) : option string :=
  match splitOn ":" trimmedLine with
  | _ :: part :: _ => Some (Str.trim part)
  | _ => None
  end.

(** The loop of [extractFromText]. *)
Fixpoint linesLoop (lines : list string) (currentWorkflow : string)
  : list Improved.ReadableRecord :=
  match lines with
  | [] => []
  | line :: rest =>
      let trimmedLine := Str.trim line in
      if Str.is_empty trimmedLine then linesLoop rest currentWorkflow
      else
        let currentWorkflow :=
          if Str.includes (Str.toLowerCase trimmedLine) "workflow"
             && Str.includes trimmedLine ":"
          then match secondPart trimmedLine with
               | Some name => name
               | None => currentWorkflow
               end
          else currentWorkflow in
        ((if isLogLine trimmedLine
          then [ {| Improved.rec_workflow := currentWorkflow;
                    Improved.rec_log := trimmedLine |} ]
          else [])
         ++ linesLoop rest currentWorkflow)%list
  end.

Definition extractFromText (content filename : string)
  : list Improved.ReadableRecord :=
  linesLoop (splitOn Chars.lf content) (stripExtension filename).

(** *** The CSV writer of the simple extractor *)

Definition csvHeader : string := "workflow_name,log_entry" ++ Improved.newline.

Definition csvRow (workflowName log : string) : string :=
  Improved.quoted workflowName ++ "," ++ Improved.logValue log
  ++ Improved.newline.

(** [workflowName.replace(/[^a-zA-Z0-9_-]/g, '_').substring(0, 50)] *)
Definition cleanName (workflowName : string) : string :=
  Str.take 50
    (Str.map
       (fun c => if Chars.is_word c || Ascii.eqb c "-" then c else "_"%char)
       workflowName).

(** The grouping loop; the default name is [Unknown], and the names come
    as they were recovered. *)
Fixpoint groupByWorkflow (workflowData : list Improved.ReadableRecord)
  (workflows : list (string * list string))
  : Js.result (list (string * list string)) :=
  match workflowData with
  | [] => Js.Ok workflows
  | item :: rest =>
      let workflowName :=
        if Str.is_empty (Improved.rec_workflow item) then "Unknown"
        else Improved.rec_workflow item in
      if existsb (String.eqb workflowName) Improved.inherited
      then Js.Throw Js.TypeError
      else groupByWorkflow rest
             (Improved.pushLog workflowName (Improved.rec_log item)
                workflows)
  end.

Definition csvContent (workflowName : string) (logs : list string)
  : string :=
  fold_left (fun content log => content ++ csvRow workflowName log)
    logs csvHeader.

Fixpoint saveFiles (env : Io.Env) (workflows : list (string * list string))
  (savedFiles : list string) : Io.M (list string) :=
  match workflows with
  | [] => Io.ret savedFiles
  | (workflowName, logs) :: rest =>
      let filename := cleanName workflowName ++ ".csv" in
      let filepath := Io.join env [Improved.outputDir; filename] in
      io _ <- Io.write env filepath (csvContent workflowName logs);
      saveFiles env rest (savedFiles ++ [filepath])%list
  end.

Definition saveToCSV (env : Io.Env)
  (workflowData : list Improved.ReadableRecord)
  : Io.M (option (list string)) :=
  match workflowData with
  | [] => Io.ret None
  | _ =>
      io _ <- Io.mkdir env Improved.outputDir;
      io workflows <- Io.lift (groupByWorkflow workflowData []);
      io savedFiles <- saveFiles env (Improved.entries workflows) [];
      Io.ret (Some savedFiles)
  end.

(** *** Discovery in the simple extractor *)

Definition automaId : string := "infppggnoaenmfagbfknfkancpbljcca".

Definition isExtension (item : string) : bool :=
  String.prefix "chrome-extension_" item.

(** The test of the first loop over the entries of a directory. *)
Definition looksLikeAutoma (contents : list string) (item : string) : bool :=
  isExtension item
  && (Str.includes item automaId
      || Str.includes (Str.toLowerCase item) "automa"
      || (List.length contents <=? 5)%nat).

(** One iteration of the loop over the IndexedDB directories: the second
    loop runs when [automaDirs] is still empty after the first. *)
Definition extensionsOf (env : Io.Env) (idbDir : string)
  (automaDirs : list string) : list string :=
  match Io.readdir env idbDir with
  | Some contents =>
      let automaDirs :=
        (automaDirs
         ++ List.map (fun item => Io.join env [idbDir; item])
              (List.filter (looksLikeAutoma contents) contents))%list in
      match automaDirs with
      | [] =>
          List.map (fun item => Io.join env [idbDir; item])
            (List.filter isExtension contents)
      | _ => automaDirs
      end
  | None => automaDirs
  end.

Definition findAutomaExtensions (env : Io.Env) (indexedDBDirs : list string)
  : list string :=
  fold_left (fun automaDirs idbDir => extensionsOf env idbDir automaDirs)
    indexedDBDirs [].


(** *** Records from parsed JSON *)

(** What [JSON.parse] returns; the properties of an object come in the
    order of [Object.keys], each with the value [obj[key]]. *)
#[local] Set Warnings "-register-all".

Inductive json :=
| JNull
| JBool (b : bool)
| JNumber (n : Js.number)
| JString (s : string)
| JArray (items : list json)
| JObject (props : list (string * json)).

Section JsonInduction.

Variable P : json -> Prop.
Hypothesis Hnull : P JNull.
Hypothesis Hbool : forall b, P (JBool b).
Hypothesis Hnumber : forall n, P (JNumber n).
Hypothesis Hstring : forall s, P (JString s).
Hypothesis Harray : forall items, Forall P items -> P (JArray items).
Hypothesis Hobject :
  forall props, Forall (fun prop => P (snd prop)) props -> P (JObject props).

Fixpoint json_induction (j : json) : P j :=
  match j with
  | JNull => Hnull
  | JBool b => Hbool b
  | JNumber n => Hnumber n
  | JString s => Hstring s
  | JArray items =>
      Harray items
        ((fix each (l : list json) : Forall P l :=
            match l with
            | [] => List.Forall_nil P
            | item :: rest =>
                @List.Forall_cons _ P item rest (json_induction item)
                  (each rest)
            end) items)
  | JObject props =>
      Hobject props
        ((fix each (l : list (string * json))
            : Forall (fun prop => P (snd prop)) l :=
            match l with
            | [] => List.Forall_nil _
            | prop :: rest =>
                @List.Forall_cons _ (fun prop => P (snd prop)) prop rest
                  (json_induction (snd prop)) (each rest)
            end) props)
  end.

End JsonInduction.

(** An array index inside a template literal. *)
Definition showIndex (index : nat) : string :=
  NilZero.string_of_uint (Nat.to_uint index).

(** The test on a key of an object. *)
Definition mentionsName (key : string) : bool :=
  Str.includes (Str.toLowerCase key) "workflow"
  || Str.includes (Str.toLowerCase key) "log"
  || Str.includes (Str.toLowerCase key) "name".

(** What one key of an object pushes before the recursive call. *)
Definition pushed (parentKey key : string) (value : json)
  : list Improved.ReadableRecord :=
  if mentionsName key
  then match value with
       | JString s =>
           if negb (Str.is_empty s)
           then [ {| Improved.rec_workflow :=
                       if Str.includes key "name" then s
                       else if Str.is_empty parentKey then "Unknown"
                            else parentKey;
                     Improved.rec_log := s |} ]
           else []
       | _ => []
       end
  else [].

(** [obj.forEach((item, index) => findWorkflows(item, ...))] *)
Definition eachItem
  (findWorkflows : json -> string -> list Improved.ReadableRecord)
  (parentKey : string)
  : list json -> nat -> list Improved.ReadableRecord :=
  fix each items index :=
    match items with
    | [] => []
    | item :: rest =>
        List.app
          (findWorkflows item (parentKey ++ "[" ++ showIndex index ++ "]"))
          (each rest (S index))
    end.

(** [Object.keys(obj).forEach(key => ...)] *)
Definition eachKey
  (findWorkflows : json -> string -> list Improved.ReadableRecord)
  (parentKey : string)
  : list (string * json) -> list Improved.ReadableRecord :=
  fix each props :=
    match props with
    | [] => []
    | prop :: rest =>
        (pushed parentKey (fst prop) (snd prop)
         ++ findWorkflows (snd prop) (fst prop)
         ++ each rest)%list
    end.

Fixpoint findWorkflows (obj : json) (parentKey : string)
  : list Improved.ReadableRecord :=
  match obj with
  | JArray items => eachItem findWorkflows parentKey items 0
  | JObject props => eachKey findWorkflows parentKey props
  | _ => []
  end.

Definition extractFromJSON (data : json) : list Improved.ReadableRecord :=
  findWorkflows data "".

End Simple.

(** * Specification vocabulary *)

Module Spec.
Import Chars.

(** [t] occurs in [s]. *)
Definition occurs (t s : string) : Prop :=
  exists pre post, s = pre ++ t ++ post.

(** The text of a run of bytes. *)
Definition text (r : list Byte.byte) : string := string_of_list_byte r.

(** [Runs p buffer rs]: [buffer] is the runs [rs] of [p]-bytes, in order,
    with one byte outside [p] between two neighbours.  Every run is then
    bounded by such bytes or by an edge of the buffer, i.e. maximal. *)
Inductive Runs (p : Byte.byte -> bool)
  : list Byte.byte -> list (list Byte.byte) -> Prop :=
| Runs_last r :
    forallb p r = true -> Runs p r [r]
| Runs_more r sep rest rs :
    forallb p r = true -> p sep = false -> Runs p rest rs ->
    Runs p (r ++ sep :: rest) (r :: rs).

(** The runs of a buffer, computed. *)
Fixpoint runs (p : Byte.byte -> bool) (buffer : list Byte.byte)
  : list (list Byte.byte) :=
  match buffer with
  | [] => [[]]
  | b :: rest =>
      if p b
      then match runs p rest with
           | r :: rs => (b :: r) :: rs
           | [] => [[b]]
           end
      else [] :: runs p rest
  end.

(** What the improved carver keeps of a run's text: its cleaned form, when
    there is one and it passes the relevance gate. *)
Definition kept (s : string) : option string :=
  match Improved.cleanExtractedString s with
  | Some cleaned =>
      if Improved.isValidLogData cleaned then Some cleaned else None
  | None => None
  end.

Definition atLeast (n : nat) (s : string) : bool :=
  (n <=? String.length s)%nat.

(** *** The relevance gate, declaratively *)

Fixpoint all (p : ascii -> bool) (s : string) : bool :=
  match s with
  | "" => true
  | String c s' => p c && all p s'
  end.

(** [n] decimal digits. *)
Definition Digits (n : nat) (s : string) : Prop :=
  String.length s = n /\ all is_digit s = true.

(** [H:MM:SS] or [HH:MM:SS]. *)
Definition TimeToken (m : string) : Prop :=
  exists h mm ss,
    m = h ++ ":" ++ mm ++ ":" ++ ss
    /\ (Digits 1 h \/ Digits 2 h) /\ Digits 2 mm /\ Digits 2 ss.

Definition HasTime (s : string) : Prop :=
  exists pre m post, s = pre ++ m ++ post /\ TimeToken m.

(** An alphabetic run of length at least 3. *)
Definition HasAlphaRun (s : string) : Prop :=
  exists pre r post,
    s = pre ++ r ++ post /\ (3 <= String.length r)%nat
    /\ all is_alpha r = true.

(** Equal up to the case of the letters. *)
Fixpoint sameLetters (w m : string) : bool :=
  match w, m with
  | "", "" => true
  | String a w', String b m' => eqb_ci a b && sameLetters w' m'
  | _, _ => false
  end.

Definition last (s : string) : option ascii := Re.last_or None s.

(** [m], standing between [pre] and [post], is one of the words, in any
    letter case, and is a whole word: no word character touches it. *)
Definition WholeWord (words : list string) (pre m post : string) : Prop :=
  (exists w, In w words /\ sameLetters w m = true)
  /\ Re.wordy (last pre) = false /\ Re.wordy (Re.head post) = false.

Definition HasWholeWord (words : list string) (s : string) : Prop :=
  exists pre m post, s = pre ++ m ++ post /\ WholeWord words pre m post.

(** A keyword of the vocabulary occurs in the lower-cased string. *)
Definition HasKeyword (vocabulary : list string) (s : string) : Prop :=
  exists w, In w vocabulary /\ occurs w (Str.toLowerCase s).

Definition JsonLike (s : string) : Prop :=
  occurs "{" s \/ occurs (String dquote "") s \/ occurs ":" s.

Definition Gate (vocabulary : list string) (s : string) : Prop :=
  HasAlphaRun s
  /\ (HasKeyword vocabulary s \/ HasTime s
      \/ HasWholeWord Improved.logLevels s \/ JsonLike s).

(** The vocabulary as the specification lists it. *)
Definition listedVocabulary : list string :=
  [ "trigger"; "click"; "type"; "typing"; "navigate"; "wait"; "scroll";
    "tab"; "element"; "success"; "failed"; "error"; "started"; "completed";
    "logid"; "workflowid"; "status"; "message" ].

(** The listed vocabulary and the further terms of [automaTerms]. *)
Definition vocabulary : list string :=
  (listedVocabulary
   ++ [ "workflow"; "new tab"; "close"; "reload"; "typing_five" ])%list.

(** A word of a pattern: not empty, with word characters at both ends. *)
Definition wordOk (w : string) : bool :=
  Re.wordy (Re.head w) && Re.wordy (last w).

(** *** Fields derived from a log text *)

(** [m] is the leftmost whole-word occurrence of one of the words. *)
Definition FirstWholeWord (words : list string) (s m : string) : Prop :=
  exists pre post,
    s = pre ++ m ++ post /\ WholeWord words pre m post
    /\ forall pre' m' post',
         s = pre' ++ m' ++ post' -> WholeWord words pre' m' post' ->
         (String.length pre <= String.length pre')%nat.

(** A column derived from the log text: the leftmost whole-word
    occurrence, or the default when there is none. *)
Definition Derived (words : list string) (default s field : string)
  : Prop :=
  (~ HasWholeWord words s /\ field = default)
  \/ FirstWholeWord words s field.

(** *** Null bytes *)

Definition startsWithNul (s : string) : bool :=
  match s with String d _ => is_nul d | "" => false end.

(** Every run of null bytes shortened to one null byte: a null byte that
    another one follows is dropped. *)
Fixpoint squeezeNuls (s : string) : string :=
  match s with
  | "" => ""
  | String c s' =>
      if is_nul c && startsWithNul s'
      then squeezeNuls s'
      else String c (squeezeNuls s')
  end.

(** Every null byte removed. *)
Definition withoutNuls (s : string) : string := Str.remove is_nul s.

Definition nulToSpace (c : ascii) : ascii :=
  if is_nul c then " "%char else c.

(** *** Time-stamped rows *)

(** Rows whose first column is the quoted clock reading number [first],
    [first + 1], ... and whose other columns are [rests]. *)
Fixpoint stamped (env : Io.Env) (first : nat) (rests : list string)
  : string :=
  match rests with
  | [] => ""
  | rest :: more =>
      Improved.quoted (Io.toISOString env first) ++ "," ++ rest
      ++ stamped env (S first) more
  end.




(** The state after [n] more clock readings. *)
Definition advance (n : nat) (st : Io.State) : Io.State :=
  {| Io.tick := Io.tick st + n; Io.written := Io.written st |}.


(** *** Reading a CSV record back

    One record under the usual quoting rules: fields are separated by
    commas, the record ends with its line feed; a field that starts with a
    double quote runs to the next double quote that is not doubled, a
    doubled one standing for a double quote; a double quote elsewhere is
    malformed. *)

Inductive Mode := FieldStart | Unquoted | Quoted | QuoteSeen.

Definition append1 (field : string) (c : ascii) : string :=
  field ++ String c "".

Definition endRecord (field : string) (fields : list string)
  (rest : string) : option (list string) :=
  if Str.is_empty rest then Some (fields ++ [field])%list else None.

Fixpoint parseRecord (mode : Mode) (field : string) (fields : list string)
  (s : string) : option (list string) :=
  match s with
  | "" => None
  | String c s' =>
      match mode with
      | FieldStart =>
          if Ascii.eqb c dquote then parseRecord Quoted "" fields s'
          else if Ascii.eqb c "," then
            parseRecord FieldStart "" (fields ++ [field])%list s'
          else if Ascii.eqb c lf then endRecord field fields s'
          else parseRecord Unquoted (append1 field c) fields s'
      | Unquoted =>
          if Ascii.eqb c dquote then None
          else if Ascii.eqb c "," then
            parseRecord FieldStart "" (fields ++ [field])%list s'
          else if Ascii.eqb c lf then endRecord field fields s'
          else parseRecord Unquoted (append1 field c) fields s'
      | Quoted =>
          if Ascii.eqb c dquote then parseRecord QuoteSeen field fields s'
          else parseRecord Quoted (append1 field c) fields s'
      | QuoteSeen =>
          if Ascii.eqb c dquote then
            parseRecord Quoted (append1 field dquote) fields s'
          else if Ascii.eqb c "," then
            parseRecord FieldStart "" (fields ++ [field])%list s'
          else if Ascii.eqb c lf then endRecord field fields s'
          else None
      end
  end.

Definition parseRow (row : string) : option (list string) :=
  parseRecord FieldStart "" [] row.

(** A whole file under the same rules: every line feed outside a quoted
    field ends a record, and the file ends behind the line feed of its
    last record. *)
Fixpoint parseRecords (mode : Mode) (field : string) (fields : list string)
  (s : string) : option (list (list string)) :=
  match s with
  | "" =>
      match mode, fields with
      | FieldStart, [] => if Str.is_empty field then Some [] else None
      | _, _ => None
      end
  | String c s' =>
      match mode with
      | FieldStart =>
          if Ascii.eqb c dquote then parseRecords Quoted "" fields s'
          else if Ascii.eqb c "," then
            parseRecords FieldStart "" (fields ++ [field])%list s'
          else if Ascii.eqb c lf then
            option_map (cons (fields ++ [field])%list)
              (parseRecords FieldStart "" [] s')
          else parseRecords Unquoted (append1 field c) fields s'
      | Unquoted =>
          if Ascii.eqb c dquote then None
          else if Ascii.eqb c "," then
            parseRecords FieldStart "" (fields ++ [field])%list s'
          else if Ascii.eqb c lf then
            option_map (cons (fields ++ [field])%list)
              (parseRecords FieldStart "" [] s')
          else parseRecords Unquoted (append1 field c) fields s'
      | Quoted =>
          if Ascii.eqb c dquote then parseRecords QuoteSeen field fields s'
          else parseRecords Quoted (append1 field c) fields s'
      | QuoteSeen =>
          if Ascii.eqb c dquote then
            parseRecords Quoted (append1 field dquote) fields s'
          else if Ascii.eqb c "," then
            parseRecords FieldStart "" (fields ++ [field])%list s'
          else if Ascii.eqb c lf then
            option_map (cons (fields ++ [field])%list)
              (parseRecords FieldStart "" [] s')
          else None
      end
  end.

Definition readRecords (content : string) : option (list (list string)) :=
  parseRecords FieldStart "" [] content.




(** No double quote in [s]. *)
Definition noQuote (s : string) : bool :=
  all (fun c => negb (Ascii.eqb c dquote)) s.

(** No comma, line feed or double quote in [s]. *)
Definition plain (s : string) : bool :=
  all (fun c => negb (Ascii.eqb c "," || Ascii.eqb c lf
                      || Ascii.eqb c dquote)) s.

(** *** What a cleaned string looks like *)

(** A printable ASCII character, the space included. *)
Definition visible (c : ascii) : bool := between 32 126 c.

Definition isBlank (c : ascii) : bool := Ascii.eqb c " ".

Definition startsWithBlank (s : string) : bool :=
  match s with String c _ => isBlank c | "" => false end.

(** No two spaces in a row. *)
Fixpoint singleSpaced (s : string) : bool :=
  match s with
  | "" => true
  | String c s' => negb (isBlank c && startsWithBlank s') && singleSpaced s'
  end.

Definition alnumAt (o : option ascii) : bool :=
  match o with Some c => is_alnum c | None => false end.

(** At least three printable ASCII characters, single-spaced, with an
    alphanumeric character at both ends. *)
Definition Cleaned (s : string) : Prop :=
  (3 <= String.length s)%nat
  /\ all visible s = true /\ singleSpaced s = true
  /\ alnumAt (Re.head s) = true /\ alnumAt (last s) = true.

(** *** Tokens of a recovered entry *)

Definition notBrace (c : ascii) : bool :=
  negb (Ascii.eqb c "{" || Ascii.eqb c "}").

(** A token of a log fragment: absent, or a piece of the raw string that
    is one of the words in some letter case. *)
Definition WordToken (words : list string) (str token : string) : Prop :=
  token = ""
  \/ (occurs token str /\ exists w, In w words /\ sameLetters w token = true).

(** The workflow token: absent (then [Unknown]), or a piece of the raw
    string made of [typing] or [workflow] in some letter case and of the
    word characters that follow. *)
Definition WorkflowToken (str token : string) : Prop :=
  token = "Unknown"
  \/ (occurs token str
      /\ exists w m tail,
           token = m ++ tail /\ In w ["typing"; "workflow"]
           /\ sameLetters w m = true /\ all is_word tail = true).

Definition TimeTokenOf (str token : string) : Prop :=
  token = "" \/ (occurs token str /\ TimeToken token).

(** *** Workflow names and groups *)

(** The upper-case form of a word character. *)
Definition upper1 (c : ascii) : ascii :=
  if is_lower c then shift_down c else c.

(** No character that starts a word (it follows no word character) is a
    lower-case letter. *)
Fixpoint capsOk (after_word : bool) (s : string) : bool :=
  match s with
  | "" => true
  | String c s' =>
      (after_word || negb (is_lower c)) && capsOk (is_word c) s'
  end.

Definition notUnderscore (c : ascii) : bool := negb (Ascii.eqb c "_").

(** The property name a record is filed under. *)
Definition groupKey (item : Improved.ReadableRecord) : string :=
  if Str.is_empty (Improved.rec_workflow item) then "Unknown Workflow"
  else Improved.rec_workflow item.

Definition notInherited (name : string) : bool :=
  negb (existsb (String.eqb name) Improved.inherited).

(** The log texts of the records filed under [name], in order. *)
Definition logsOf (name : string) (items : list Improved.ReadableRecord)
  : list string :=
  List.map Improved.rec_log
    (List.filter (fun item => String.eqb (groupKey item) name) items).

(** The value of the property [name] of the groups object. *)
Fixpoint logsIn (name : string) (workflows : list (string * list string))
  : list string :=
  match workflows with
  | [] => []
  | (k, logs) :: rest =>
      if String.eqb k name then logs else logsIn name rest
  end.

(** The number an array-index name denotes. *)
Definition indexOf (g : string * list string) : N :=
  Improved.decimalValue 0 (fst g).

(** *** File names *)

(** A character [cleanName] lets through. *)
Definition fileNameChar (c : ascii) : bool :=
  is_word c || is_space c || Ascii.eqb c "-".

(** The path of the file of a group. *)
Definition workflowPath (env : Io.Env) (date : string)
  (g : string * list string) : string :=
  Io.join env
    [Improved.outputDir; Improved.cleanName (fst g) ++ "_" ++ date ++ ".csv"].

Definition combinedPath (env : Io.Env) (date : string) : string :=
  Io.join env [Improved.outputDir; "all_workflows_" ++ date ++ ".csv"].

(** *** Where a recovered entry comes from *)

(** [entry] was recovered from a table file of one of the directories: a
    regular file named [*.log], [*.ldb], [CURRENT] or [MANIFEST-000001]
    that could be listed, examined and read. *)
Definition FromTableFile (parse : string -> option Js.object)
  (stringify : Js.object -> string) (env : Io.Env)
  (automaDirs : list string) (entry : Improved.StructuredEntry) : Prop :=
  exists automaDir files file size buffer,
    In automaDir automaDirs
    /\ Io.pathExists env automaDir = true
    /\ Io.readdir env automaDir = Some files
    /\ In file files
    /\ Improved.isTableFile file = true
    /\ Io.stat env (Io.join env [automaDir; file]) = Some (true, size)
    /\ Io.readFile env (Io.join env [automaDir; file]) = Some buffer
    /\ In entry
         (Improved.extractStructuredData parse stringify
            (Improved.extractCleanStrings buffer)).


(** [StringAt data key s]: somewhere inside [data] an object has the
    string [s] as the value of its key [key]. *)
Inductive StringAt : Simple.json -> string -> string -> Prop :=
| string_here props key s :
    In (key, Simple.JString s) props ->
    StringAt (Simple.JObject props) key s
| string_in_value props k value key s :
    In (k, value) props -> StringAt value key s ->
    StringAt (Simple.JObject props) key s
| string_in_item items item key s :
    In item items -> StringAt item key s ->
    StringAt (Simple.JArray items) key s.


(** A record that stands for a non-empty string stored under a key which
    mentions [workflow], [log] or [name]: the log entry is that string,
    and so is the workflow name when the key holds [name]. *)
Definition FromNamedString (data : Simple.json)
  (r : Improved.ReadableRecord) : Prop :=
  Improved.rec_log r <> ""
  /\ Improved.rec_workflow r <> ""
  /\ exists key,
       StringAt data key (Improved.rec_log r)
       /\ Simple.mentionsName key = true
       /\ (Str.includes key "name" = true ->
           Improved.rec_workflow r = Improved.rec_log r).

End Spec.

(** * Sample inputs *)

Module Sample.
Import Improved.

Definition buffer : list Byte.byte :=
  (list_byte_of_string "ab" ++ [Byte.x00]
   ++ list_byte_of_string "  click at 9:05:07 ;" ++ [Byte.xff; Byte.x09]
   ++ list_byte_of_string "workflowId")%list.

Definition startedLine : string := "Workflow started at 10:15:42 - success".

Definition startedEntry : StructuredEntry :=
  LogEntry {| workflow := "Workflow"; action := ""; status := "started";
              time := "10:15:42"; raw := startedLine |}.

Definition startedRecord : ReadableRecord :=
  {| rec_workflow := "Workflow"; rec_log := "At 10:15:42 - started" |}.

(** The object of the fragment with a [name] and a [status]. *)
Definition typingFive : Js.object :=
  <["name" := Js.Text "Typing Five"]>
    (<["status" := Js.Text "done"]> ∅).

Definition typingFiveRaw : string :=
  "{" ++ quoted "name" ++ ":" ++ quoted "Typing Five" ++ ","
  ++ quoted "status" ++ ":" ++ quoted "done" ++ "}".

(** Objects with a [name], a [workflowId], both or neither. *)
Definition bothNamed : Js.object :=
  <["name" := Js.Text "Typing Five"]>
    (<["workflowId" := Js.Text "wf_42"]> ∅).

Definition emptyId : Js.object :=
  <["name" := Js.Text "Typing Five"]>
    (<["workflowId" := Js.Text ""]> ∅).

Definition onlyNamed : Js.object :=
  <["name" := Js.Text "Typing Five"]>
    (<["message" := Js.Text "typing done"]> ∅).

Definition unnamed : Js.object :=
  <["message" := Js.Text "typing done"]> ∅.

Definition nul : string := String "000" "".

Definition timestamp : string := "2025-08-16T15:30:00.000Z".

(** A platform on which nothing is found, every write succeeds, and the
    clock advances by a second per reading. *)
Definition env : Io.Env :=
  {| Io.cwd := "/workspace";
     Io.join := Js.join "/";
     Io.pathExists := fun _ => false;
     Io.readdir := fun _ => None;
     Io.stat := fun _ => None;
     Io.readFile := fun _ => None;
     Io.ensureDir := fun _ => true;
     Io.writeFile := fun _ => true;
     Io.toISOString := fun n =>
       "2025-08-16T15:30:0"
       ++ String (ascii_of_nat (48 + n mod 10)) ".000Z" |}.

Definition start : Io.State := {| Io.tick := 0; Io.written := [] |}.

Definition noParse : string -> option Js.object := fun _ => None.
Definition noStringify : Js.object -> string := fun _ => "".

(** A fragment whose [workflowId] holds a double quote. *)
Definition quoteName : string := "a" ++ String Chars.dquote "b".

Definition quoteEntry : StructuredEntry :=
  Json (<["workflowId" := Js.Text quoteName]>
          (<["message" := Js.Text "typing, twice"]> ∅))
       "".

Definition quoteRecord : ReadableRecord :=
  {| rec_workflow := "A" ++ String Chars.dquote "B";
     rec_log := "Typing, twice" |}.

(** A fragment whose [workflowId] holds a double quote, a line feed and
    the text of a row. *)
Definition forgedName : string :=
  "a" ++ String Chars.dquote (String Chars.lf (String Chars.dquote "10:15:42"))
  ++ String Chars.dquote ("," ++ String Chars.dquote "b").

Definition forgedEntry : StructuredEntry :=
  Json (<["workflowId" := Js.Text forgedName]>
          (<["message" := Js.Text "typing"]> ∅))
       "".

Definition forgedRecord : ReadableRecord :=
  {| rec_workflow :=
       "A"
       ++ String Chars.dquote
            (String Chars.lf (String Chars.dquote "10:15:42"))
       ++ String Chars.dquote ("," ++ String Chars.dquote "B");
     rec_log := "Typing" |}.

(** A fragment whose [workflowId] is a number. *)
Definition numericId : Js.object :=
  <["workflowId" := Js.Num {| Js.nonzero := true; Js.decimal := "42" |}]>
    (<["message" := Js.Text "typing done"]> ∅).

(** A fragment named after an inherited property. *)
Definition constructorEntry : StructuredEntry :=
  Json (<["name" := Js.Text "constructor"]>
          (<["message" := Js.Text "typing"]> ∅))
       "".

Definition constructorRecord : ReadableRecord :=
  {| rec_workflow := "Constructor"; rec_log := "Typing" |}.

Definition threeRecords : list ReadableRecord :=
  [ {| rec_workflow := "Workflow"; rec_log := "At 10:15:42 - started" |};
    {| rec_workflow := "Typing Five"; rec_log := "Typed text" |};
    {| rec_workflow := "Workflow"; rec_log := "Clicked element" |} ].

(** A platform with one profile, one extension database and one log file
    holding the sample line. *)
Definition profileEnv : Io.Env :=
  {| Io.cwd := "/workspace";
     Io.join := Js.join "/";
     Io.pathExists := fun p =>
       String.prefix "/workspace/chrome_profile" p;
     Io.readdir := fun p =>
       if String.eqb p "/workspace/chrome_profile/Default/IndexedDB"
       then Some [ "https_example.org_0.indexeddb.leveldb";
                   "chrome-extension_abc_0.indexeddb.leveldb" ]
       else Some [ "LOCK"; "000003.log" ];
     Io.stat := fun _ => Some (true, 38);
     Io.readFile := fun _ => Some (list_byte_of_string startedLine);
     Io.ensureDir := fun _ => true;
     Io.writeFile := fun _ => true;
     Io.toISOString := Io.toISOString env |}.

Definition extensionDir : string :=
  "/workspace/chrome_profile/Default/IndexedDB/"
  ++ "chrome-extension_abc_0.indexeddb.leveldb".

(** A text whose workflow is named after an inherited property. *)
Definition toStringText : string :=
  "workflow: toString" ++ String Chars.lf "Click the button".


(** A parsed file with a named workflow and a log inside an array. *)
Definition parsedFile : Simple.json :=
  Simple.JArray
    [ Simple.JObject
        [ ("name", Simple.JString "Nightly");
          ("history",
            Simple.JArray
              [ Simple.JObject
                  [ ("logText", Simple.JString "Click element") ] ]) ] ].

End Sample.

(** * Properties *)

Import Chars.

(** A fact about one code unit, checked on each of the 256. *)
Ltac by_cases_on c :=
  destruct c as [[] [] [] [] [] [] [] []]; vm_compute;
  (reflexivity || tauto || discriminate).

(** The same for a fact with hypotheses. *)
Ltac by_char c :=
  destruct c as [[] [] [] [] [] [] [] []]; vm_compute; intros;
  (reflexivity || congruence || tauto).

(** ** Strings *)

Lemma append_nil_r (s : string) : s ++ "" = s.
Proof. induction s; simpl; congruence. Qed.

Lemma append_assoc (a b c : string) : (a ++ b) ++ c = a ++ (b ++ c).
Proof. induction a; simpl; congruence. Qed.

Lemma length_append (a b : string) :
  String.length (a ++ b) = (String.length a + String.length b)%nat.
Proof. induction a as [|c a IH]; simpl; [done | by rewrite IH]. Qed.

Lemma text_app (a b : list Byte.byte) :
  Spec.text (a ++ b) = Spec.text a ++ Spec.text b.
Proof.
  unfold Spec.text, string_of_list_byte.
  induction a; simpl; congruence.
Qed.

Lemma length_text (r : list Byte.byte) :
  String.length (Spec.text r) = List.length r.
Proof.
  unfold Spec.text, string_of_list_byte.
  induction r as [|b r IH]; simpl; [done | by rewrite IH].
Qed.

(** ** The carver *)

Lemma runs_sound p buffer : Spec.Runs p buffer (Spec.runs p buffer).
Proof.
  induction buffer as [|b rest IH]; simpl.
  - by constructor.
  - destruct (p b) eqn:Hb.
    + inversion IH as [r Hr Heq1 Heq2|r sep rest' rs Hr Hsep Hrest Heq1 Heq2];
        subst.
      * apply (Spec.Runs_last p (b :: rest)). simpl. by rewrite Hb.
      * apply (Spec.Runs_more p (b :: r)); try done.
        simpl. by rewrite Hb.
    + apply (Spec.Runs_more p [] b rest); done.
Qed.

Lemma improved_loop_run r rest strings cur :
  forallb Improved.printable r = true ->
  Improved.carve_loop (r ++ rest) strings cur
  = Improved.carve_loop rest strings (cur ++ Spec.text r).
Proof.
  revert cur. induction r as [|b r IH]; intros cur Hr; simpl in *.
  - by rewrite append_nil_r.
  - apply andb_prop in Hr as [Hb Hr]. rewrite Hb, IH by done.
    unfold Improved.fromCharCode. rewrite append_assoc. done.
Qed.

Lemma improved_flush strings cur :
  Improved.flush strings cur
  = (strings
     ++ omap Spec.kept (List.filter (Spec.atLeast 3) [cur]))%list.
Proof.
  unfold Improved.flush, Spec.atLeast, Improved.minStringLength.
  cbn [List.filter].
  destruct (3 <=? String.length cur)%nat; cbn [omap list_omap].
  - unfold Spec.kept. destruct (Improved.cleanExtractedString cur) as [c|].
    + destruct (Improved.isValidLogData c); by rewrite ?app_nil_r.
    + by rewrite app_nil_r.
  - by rewrite app_nil_r.
Qed.

Lemma improved_carve buffer rs :
  Spec.Runs Improved.printable buffer rs ->
  forall strings,
    (let '(out, cur) := Improved.carve_loop buffer strings "" in
     Improved.flush out cur)
    = (strings
       ++ omap Spec.kept
            (List.filter (Spec.atLeast 3) (List.map Spec.text rs)))%list.
Proof.
  induction 1 as [r Hr|r sep rest rs Hr Hsep Hrest IH]; intros strings.
  - rewrite <- (app_nil_r r) at 1. rewrite improved_loop_run by done.
    simpl. apply improved_flush.
  - rewrite improved_loop_run by done. simpl. rewrite Hsep.
    rewrite IH, improved_flush. simpl.
    destruct (Spec.atLeast 3 (Spec.text r)); simpl.
    + destruct (Spec.kept (Spec.text r)); simpl; by rewrite <- ?app_assoc.
    + by rewrite app_nil_r.
Qed.

Lemma simple_loop_run r rest strings cur :
  forallb Simple.printable r = true ->
  Simple.carve_loop (r ++ rest) strings cur
  = Simple.carve_loop rest strings (cur ++ Spec.text r).
Proof.
  revert cur. induction r as [|b r IH]; intros cur Hr; simpl in *.
  - by rewrite append_nil_r.
  - apply andb_prop in Hr as [Hb Hr]. rewrite Hb, IH by done.
    unfold Improved.fromCharCode. rewrite append_assoc. done.
Qed.

Lemma simple_push strings cur :
  Simple.push strings cur
  = (strings ++ List.filter (Spec.atLeast 4) [cur])%list.
Proof.
  unfold Simple.push, Spec.atLeast. cbn [List.filter].
  change (3 <? String.length cur)%nat with (4 <=? String.length cur)%nat.
  destruct (4 <=? String.length cur)%nat; by rewrite ?app_nil_r.
Qed.

Lemma simple_carve buffer rs :
  Spec.Runs Simple.printable buffer rs ->
  forall strings,
    (let '(out, cur) := Simple.carve_loop buffer strings "" in
     Simple.push out cur)
    = (strings ++ List.filter (Spec.atLeast 4) (List.map Spec.text rs))%list.
Proof.
  induction 1 as [r Hr|r sep rest rs Hr Hsep Hrest IH]; intros strings.
  - rewrite <- (app_nil_r r) at 1. rewrite simple_loop_run by done.
    simpl. apply simple_push.
  - rewrite simple_loop_run by done. simpl. rewrite Hsep.
    rewrite IH, simple_push. simpl.
    destruct (Spec.atLeast 4 (Spec.text r)); simpl;
      by rewrite <- ?app_assoc, ?app_nil_r.
Qed.

Lemma runs_of_run p r : forallb p r = true -> Spec.runs p r = [r].
Proof.
  induction r as [|b r IH]; simpl; [done|].
  intros [Hb Hr]%andb_prop. by rewrite Hb, IH.
Qed.

(** The decomposition into runs is unique: [Spec.runs] computes it. *)
Lemma runs_unique p buffer rs :
  Spec.Runs p buffer rs -> rs = Spec.runs p buffer.
Proof.
  induction 1 as [r Hr|r sep rest rs Hr Hsep Hrest IH].
  - by rewrite runs_of_run.
  - subst rs. clear Hrest. induction r as [|b r IHr]; simpl in *.
    + by rewrite Hsep.
    + apply andb_prop in Hr as [Hb Hr]. by rewrite Hb, <- IHr.
Qed.

(** C3, as stated, fails: the buffer [abcd] is one printable run of four
    bytes, bounded by the two edges of the buffer, and the carver's output
    does not contain it. *)
Lemma carver_drops_irrelevant_run :
  Spec.Runs Improved.printable (list_byte_of_string "abcd")
    [list_byte_of_string "abcd"]
  /\ (3 <= List.length (list_byte_of_string "abcd"))%nat
  /\ ~ In "abcd" (Improved.extractCleanStrings (list_byte_of_string "abcd")).
Proof.
  split; [by constructor|]. split; [simpl; lia|].
  vm_compute. tauto.
Qed.

(** C3, amended: the carver handles every maximal printable run exactly
    once and in order, the run that ends with the buffer included.  The
    improved carver emits, for each run of at least 3 bytes, its cleaned
    text when that passes the relevance gate (and nothing otherwise); the
    simple carver, whose printable bytes are 32..126 only, emits verbatim
    the runs of at least 4 bytes that mention a workflow keyword. *)
Theorem carver_output_by_runs (buffer : list Byte.byte)
  (rs rs' : list (list Byte.byte)) :
  Spec.Runs Improved.printable buffer rs ->
  Spec.Runs Simple.printable buffer rs' ->
  Improved.extractCleanStrings buffer
  = omap Spec.kept (List.filter (Spec.atLeast 3) (List.map Spec.text rs))
  /\ Simple.extractStringsFromBuffer buffer
     = List.filter Simple.mentionsWorkflow
         (List.filter (Spec.atLeast 4) (List.map Spec.text rs')).
Proof.
  intros Hrs Hrs'. split.
  - unfold Improved.extractCleanStrings.
    apply (improved_carve _ _ Hrs []).
  - unfold Simple.extractStringsFromBuffer.
    pose proof (simple_carve _ _ Hrs' []) as H.
    destruct (Simple.carve_loop buffer [] "") as [out cur].
    by rewrite H.
Qed.

Lemma carver_output_by_runs_witness :
  Improved.extractCleanStrings Sample.buffer
  = ["click at 9:05:07"; "workflowId"]
  /\ Simple.extractStringsFromBuffer Sample.buffer
     = ["  click at 9:05:07 ;"; "workflowId"].
Proof.
  refine (carver_output_by_runs Sample.buffer
            [list_byte_of_string "ab";
             list_byte_of_string "  click at 9:05:07 ;";
             Byte.x09 :: list_byte_of_string "workflowId"]
            [list_byte_of_string "ab";
             list_byte_of_string "  click at 9:05:07 ;";
             [];
             list_byte_of_string "workflowId"] _ _).
  - apply (Spec.Runs_more _ (list_byte_of_string "ab") Byte.x00);
      [reflexivity | reflexivity |].
    apply (Spec.Runs_more _ (list_byte_of_string "  click at 9:05:07 ;")
             Byte.xff); [reflexivity | reflexivity |].
    apply Spec.Runs_last. reflexivity.
  - apply (Spec.Runs_more _ (list_byte_of_string "ab") Byte.x00);
      [reflexivity | reflexivity |].
    apply (Spec.Runs_more _ (list_byte_of_string "  click at 9:05:07 ;")
             Byte.xff); [reflexivity | reflexivity |].
    apply (Spec.Runs_more _ [] Byte.x09); [reflexivity | reflexivity |].
    apply Spec.Runs_last. reflexivity.
Defined.

(** ** The worked examples *)

(** C1, as stated, fails: on the line [Workflow started at 10:15:42 -
    success] the status pattern matches [started], which stands to the left
    of [success]; no entry with status [success] is recovered and the status
    column of the row is not [success]. *)
Lemma started_line_status_not_success :
  ~ ((exists e, In (Improved.LogEntry e)
                  (Improved.logFragment Sample.startedLine)
                /\ Improved.status e = "success"
                /\ Improved.time e = "10:15:42")
     /\ (forall r,
           Improved.convertToHumanReadable
             (Improved.logFragment Sample.startedLine) = Js.Ok [r] ->
           Improved.csvStatus (Improved.rec_log r) = "success")).
Proof.
  intros [[e [Hin [Hstatus _]]] _].
  vm_compute in Hin. destruct Hin as [Heq|[]].
  injection Heq as <-. vm_compute in Hstatus. discriminate.
Qed.

(** C1, amended: the line survives carving, cleaning and the gate unchanged;
    the recoverer captures the time token [10:15:42] and, as status token,
    the leftmost status word [started]; the record reads [At 10:15:42 -
    started] and its row in the combined file has status [started], also
    in the file a run on the sample platform writes. *)
Theorem started_line_pipeline
  (parse : string -> option Js.object) (stringify : Js.object -> string)
  (timestamp : string) :
  Improved.extractCleanStrings (list_byte_of_string Sample.startedLine)
  = [Sample.startedLine]
  /\ Improved.extractStructuredData parse stringify [Sample.startedLine]
     = [Sample.startedEntry]
  /\ Improved.convertToHumanReadable [Sample.startedEntry]
     = Js.Ok [Sample.startedRecord]
  /\ Improved.csvStatus (Improved.rec_log Sample.startedRecord) = "started"
  /\ Improved.combinedRow timestamp Sample.startedRecord
     = Improved.quoted timestamp ++ "," ++ Improved.quoted "Workflow"
       ++ ",At 10:15:42 - started," ++ Improved.quoted "started" ++ ","
       ++ Improved.quoted "started" ++ Improved.newline
  /\ Io.written
       (snd (Improved.saveToCSV Sample.env [Sample.startedEntry]
               Sample.start))
     = [ ("/workspace/automa-exports/Workflow_2025-08-16.csv",
          Improved.workflowHeader
          ++ Improved.workflowRow "2025-08-16T15:30:01.000Z" "Workflow"
               "At 10:15:42 - started");
         ("/workspace/automa-exports/all_workflows_2025-08-16.csv",
          Improved.combinedHeader
          ++ Improved.combinedRow "2025-08-16T15:30:02.000Z"
               Sample.startedRecord) ].
Proof.
  repeat split; vm_compute; reflexivity.
Qed.

(** C6, as stated, fails: the record of the fragment with [name] and
    [status] does not carry the log text [ (done)] with its leading
    space. *)
Lemma typing_five_log_not_padded :
  ~ (exists r,
       Improved.convertToHumanReadable
         [Improved.Json Sample.typingFive Sample.typingFiveRaw] = Js.Ok [r]
       /\ Improved.rec_workflow r = "Typing Five"
       /\ Improved.rec_log r = " (done)").
Proof.
  intros [r [Hr [_ Hlog]]]. vm_compute in Hr.
  injection Hr as <-. vm_compute in Hlog. discriminate.
Qed.

(** C6, amended: the fragment is emitted, not dropped; its workflow name is
    [Typing Five]; the append-status rule yields [ (done)], and the log-text
    cleaning trims it, so the log text of the record is [(done)]. *)
Theorem typing_five_record (raw : string) :
  Improved.jsonReadable Sample.typingFive = Js.Text " (done)"
  /\ Improved.convertToHumanReadable [Improved.Json Sample.typingFive raw]
     = Js.Ok [ {| Improved.rec_workflow := "Typing Five";
                  Improved.rec_log := "(done)" |} ].
Proof. split; vm_compute; reflexivity. Qed.

(** ** The workflow name of a JSON fragment *)

Lemma overwrite_truthy p old v :
  p = Some v -> Js.truthy v = true -> Improved.overwrite p old = v.
Proof. intros -> Hv. unfold Improved.overwrite. by rewrite Hv. Qed.

Lemma overwrite_falsy p old :
  Js.truthy_prop p = false -> Improved.overwrite p old = old.
Proof.
  unfold Improved.overwrite, Js.truthy_prop.
  destruct p as [v|]; [|done]. by intros ->.
Qed.

(** C8, as stated, fails: an object with both a [name] and a [workflowId]
    field whose [workflowId] is the empty string keeps the name. *)
Lemma empty_workflowId_keeps_name :
  Sample.emptyId !! "name" = Some (Js.Text "Typing Five")
  /\ Sample.emptyId !! "workflowId" = Some (Js.Text "")
  /\ Improved.jsonWorkflow Sample.emptyId <> Js.Text "".
Proof. repeat split; vm_compute; discriminate. Qed.

(** C8, amended: a field counts when its value is truthy (a non-empty
    string, a non-zero number, [true], an array).  A truthy [workflowId] is
    the workflow name, whatever [name] holds; otherwise a truthy [name] is;
    otherwise the name is [Unknown].  The emitted record carries the
    normalised form of that name. *)
Theorem jsonWorkflow_precedence (data : Js.object) :
  (forall id,
     data !! "workflowId" = Some id -> Js.truthy id = true ->
     Improved.jsonWorkflow data = id)
  /\ (forall name,
        Js.truthy_prop (data !! "workflowId") = false ->
        data !! "name" = Some name -> Js.truthy name = true ->
        Improved.jsonWorkflow data = name)
  /\ (Js.truthy_prop (data !! "workflowId") = false ->
      Js.truthy_prop (data !! "name") = false ->
      Improved.jsonWorkflow data = Js.Text "Unknown")
  /\ (forall raw r,
        Improved.humanize (Improved.Json data raw) = Js.Ok [r] ->
        Improved.cleanWorkflowName (Improved.jsonWorkflow data)
        = Js.Ok (Improved.rec_workflow r)).
Proof.
  unfold Improved.jsonWorkflow. repeat split.
  - intros id Hid Ht. by apply overwrite_truthy.
  - intros name Hid Hname Ht. rewrite overwrite_falsy by done.
    by apply overwrite_truthy.
  - intros Hid Hname. by rewrite !overwrite_falsy.
  - intros raw r. unfold Improved.humanize.
    fold (Improved.jsonWorkflow data).
    destruct (Improved.has_length (Improved.jsonReadable data)); [|done].
    destruct (Improved.cleanWorkflowName (Improved.jsonWorkflow data))
      as [w|]; simpl; [|done].
    destruct (Improved.cleanLogEntry (Improved.jsonReadable data))
      as [l|]; simpl; [|done].
    by intros [= <-].
Qed.

Lemma jsonWorkflow_precedence_witness :
  Improved.jsonWorkflow Sample.bothNamed = Js.Text "wf_42"
  /\ Improved.jsonWorkflow Sample.onlyNamed = Js.Text "Typing Five"
  /\ Improved.jsonWorkflow Sample.unnamed = Js.Text "Unknown"
  /\ Improved.cleanWorkflowName (Improved.jsonWorkflow Sample.onlyNamed)
     = Js.Ok "Typing Five".
Proof.
  split; [|split; [|split]].
  - apply (proj1 (jsonWorkflow_precedence Sample.bothNamed));
      vm_compute; reflexivity.
  - apply (proj1 (proj2 (jsonWorkflow_precedence Sample.onlyNamed)));
      vm_compute; reflexivity.
  - apply (proj1 (proj2 (proj2 (jsonWorkflow_precedence Sample.unnamed))));
      vm_compute; reflexivity.
  - apply (proj2 (proj2 (proj2 (jsonWorkflow_precedence Sample.onlyNamed)))
             ""
             {| Improved.rec_workflow := "Typing Five";
                Improved.rec_log := "Typing done" |}).
    vm_compute; reflexivity.
Defined.

(** ** Leftmost matches *)

Lemma length_zero_empty (s : string) : String.length s = 0%nat -> s = "".
Proof. by destruct s. Qed.

(** [search] finds a match exactly when the pattern matches at the start
    of some suffix, and the match it returns is the leftmost one. *)
Lemma search_Some at_start s m :
  Re.search at_start s = Some m ->
  exists pre rest,
    s = pre ++ rest /\ at_start rest = Some m
    /\ forall pre' rest',
         s = pre' ++ rest' ->
         (String.length pre' < String.length pre)%nat ->
         at_start rest' = None.
Proof.
  induction s as [|c s IH]; simpl.
  - destruct (at_start "") eqn:E; [|done]. intros [= ->].
    exists "", "". repeat split; try done. simpl. lia.
  - destruct (at_start (String c s)) eqn:E.
    + intros [= ->]. exists "", (String c s).
      repeat split; try done. simpl. lia.
    + intros (pre & rest & -> & Hat & Hleft)%IH.
      exists (String c pre), rest. repeat split; try done.
      intros [|c' pre'] rest' Heq Hlen; simpl in *.
      * by subst rest'.
      * injection Heq as -> Heq. apply (Hleft pre'); [done | lia].
Qed.

Lemma search_None at_start s :
  Re.search at_start s = None ->
  forall pre rest, s = pre ++ rest -> at_start rest = None.
Proof.
  induction s as [|c s IH]; simpl.
  - destruct (at_start "") eqn:E; [done|].
    intros _ [|? ?] rest Heq; simpl in Heq; [by subst | done].
  - destruct (at_start (String c s)) eqn:E; [done|].
    intros Hs [|c' pre] rest Heq; simpl in Heq.
    + by subst.
    + injection Heq as -> Heq. by apply (IH Hs pre).
Qed.

Lemma test_search at_start s :
  Re.test (Re.search at_start) s = true
  <-> exists pre rest m, s = pre ++ rest /\ at_start rest = Some m.
Proof.
  unfold Re.test. split.
  - destruct (Re.search at_start s) as [m|] eqn:E; [|done].
    intros _. apply search_Some in E as (pre & rest & Hs & Hat & _).
    by exists pre, rest, m.
  - intros (pre & rest & m & Hs & Hat).
    destruct (Re.search at_start s) eqn:E; [done|].
    by rewrite (search_None _ _ E pre rest Hs) in Hat.
Qed.

Lemma last_or_app d a b :
  Re.last_or d (a ++ b) = Re.last_or (Re.last_or d a) b.
Proof. revert d. induction a as [|c a IH]; intros d; simpl; [done | apply IH]. Qed.

Lemma search_after_Some at_start prev s m :
  Re.search_after at_start prev s = Some m ->
  exists pre rest,
    s = pre ++ rest /\ at_start (Re.last_or prev pre) rest = Some m
    /\ forall pre' rest',
         s = pre' ++ rest' ->
         (String.length pre' < String.length pre)%nat ->
         at_start (Re.last_or prev pre') rest' = None.
Proof.
  revert prev. induction s as [|c s IH]; intros prev; simpl.
  - destruct (at_start prev "") eqn:E; [|done]. intros [= ->].
    exists "", "". repeat split; try done. simpl. lia.
  - destruct (at_start prev (String c s)) eqn:E.
    + intros [= ->]. exists "", (String c s).
      repeat split; try done. simpl. lia.
    + intros (pre & rest & -> & Hat & Hleft)%IH.
      exists (String c pre), rest. repeat split; try done.
      intros [|c' pre'] rest' Heq Hlen; simpl in *.
      * by subst rest'.
      * injection Heq as -> Heq. apply (Hleft pre'); [done | lia].
Qed.

Lemma search_after_None at_start prev s :
  Re.search_after at_start prev s = None ->
  forall pre rest,
    s = pre ++ rest -> at_start (Re.last_or prev pre) rest = None.
Proof.
  revert prev. induction s as [|c s IH]; intros prev; simpl.
  - destruct (at_start prev "") eqn:E; [done|].
    intros _ [|? ?] rest Heq; simpl in Heq; [by subst | done].
  - destruct (at_start prev (String c s)) eqn:E; [done|].
    intros Hs [|c' pre] rest Heq; simpl in Heq.
    + by subst.
    + injection Heq as -> Heq. by apply (IH _ Hs pre).
Qed.

(** ** Substrings *)

Lemma prefix_spec t s :
  String.prefix t s = true <-> exists post, s = t ++ post.
Proof.
  revert s. induction t as [|a t IH]; intros s; simpl.
  - split; [|by destruct s]. intros _. by exists s.
  - destruct s as [|b s]; simpl.
    + split; [done | by intros [? ?]].
    + destruct (ascii_dec a b) as [->|Hab].
      * rewrite IH. split; intros [post Hp]; exists post; congruence.
      * split; [done|]. intros [post [= ? ?]]. done.
Qed.

Lemma includes_cons c s t :
  Str.includes (String c s) t = String.prefix t (String c s) || Str.includes s t.
Proof. reflexivity. Qed.

Lemma includes_spec s t : Str.includes s t = true <-> Spec.occurs t s.
Proof.
  unfold Spec.occurs. induction s as [|c s IH].
  - change (Str.includes "" t) with (String.prefix t "" || false).
    rewrite orb_false_r, prefix_spec. split.
    + intros [post Hp]. by exists "", post.
    + intros ([|? ?] & post & Hp); simpl in Hp; [by exists post | done].
  - rewrite includes_cons, orb_true_iff, prefix_spec, IH. split.
    + intros [[post Hp]|(pre & post & Hp)].
      * by exists "", post.
      * exists (String c pre), post. simpl. by rewrite Hp.
    + intros ([|c' pre] & post & Hp); simpl in Hp.
      * left. by exists post.
      * right. injection Hp as -> Hp. by exists pre, post.
Qed.

Lemma includes_false s t : Str.includes s t = false <-> ~ Spec.occurs t s.
Proof. rewrite <- includes_spec. by destruct (Str.includes s t). Qed.

(** ** Characters *)

Lemma lower_not_upper c : is_upper (Chars.toLowerCase c) = false.
Proof. by_cases_on c. Qed.

Lemma canon_word c : is_word (canon c) = is_word c.
Proof. by_cases_on c. Qed.

Lemma eqb_ci_word a b : eqb_ci a b = true -> is_word a = is_word b.
Proof.
  unfold eqb_ci. intros H%Ascii.eqb_eq.
  by rewrite <- (canon_word a), <- (canon_word b), H.
Qed.

(** ** Words up to case *)

Lemma take_drop n s : Str.take n s ++ Str.drop n s = s.
Proof.
  revert s. induction n as [|n IH]; intros [|c s]; simpl; try done.
  by rewrite IH.
Qed.

Lemma prefix_ci_same w s :
  Str.prefix_ci w s = true ->
  Spec.sameLetters w (Str.take (String.length w) s) = true.
Proof.
  revert s. induction w as [|a w IH]; intros [|b s]; simpl; try done.
  intros [Hab Hw]%andb_prop. by rewrite Hab, IH.
Qed.

Lemma same_prefix_ci w m post :
  Spec.sameLetters w m = true ->
  Str.prefix_ci w (m ++ post) = true
  /\ Str.take (String.length w) (m ++ post) = m
  /\ Str.drop (String.length w) (m ++ post) = post.
Proof.
  revert m. induction w as [|a w IH]; intros [|b m]; simpl; try done.
  intros [Hab Hw]%andb_prop. destruct (IH m Hw) as (Hp & Ht & Hd).
  by rewrite Hab, Hp, Ht, Hd.
Qed.

Lemma same_last w m d :
  Spec.sameLetters w m = true ->
  Re.wordy (Re.last_or d m) = Re.wordy (Re.last_or d w).
Proof.
  revert m d. induction w as [|a w IH]; intros [|b m] d; simpl; try done.
  intros [Hab Hw]%andb_prop. rewrite (IH m (Some b) Hw).
  clear IH Hw. revert m. destruct w as [|a' w]; simpl.
  - intros _. by rewrite (eqb_ci_word a b).
  - done.
Qed.

Lemma same_head w m post :
  Spec.sameLetters w m = true -> Re.wordy (Re.head w) = true ->
  Re.wordy (Re.head (m ++ post)) = true.
Proof.
  destruct w as [|a w], m as [|b m]; simpl; try done.
  intros [Hab _]%andb_prop. by rewrite (eqb_ci_word a b).
Qed.

Lemma alt_at_Some ok words s m :
  Re.alt_at ok words s = Some m ->
  exists w,
    In w words /\ Str.prefix_ci w s = true
    /\ m = Str.take (String.length w) s
    /\ ok m (Str.drop (String.length w) s) = true.
Proof.
  induction words as [|w ws IH]; simpl; [done|].
  destruct (Str.prefix_ci w s && _) eqn:E.
  - intros [= <-]. apply andb_prop in E as [Hp Hok].
    exists w. auto.
  - intros (w' & Hin & H)%IH. exists w'. auto.
Qed.

Lemma alt_at_None ok words s :
  Re.alt_at ok words s = None ->
  forall w, In w words ->
    Str.prefix_ci w s
    && ok (Str.take (String.length w) s) (Str.drop (String.length w) s)
    = false.
Proof.
  induction words as [|w ws IH]; simpl; [done|].
  destruct (Str.prefix_ci w s && _) eqn:E; [done|].
  intros Hn w' [<-|Hin]; [done | by apply IH].
Qed.

(** ** Whole-word matches *)

Lemma last_or_nonempty d w :
  w <> "" -> Re.last_or d w = Re.last_or None w.
Proof. destruct w as [|a w]; [done|]. reflexivity. Qed.

Lemma wordOk_spec w :
  Spec.wordOk w = true ->
  w <> "" /\ Re.wordy (Re.head w) = true
  /\ forall d, Re.wordy (Re.last_or d w) = true.
Proof.
  unfold Spec.wordOk, Spec.last. intros [Hh Hl]%andb_prop.
  assert (w <> "") as Hne by (by destruct w).
  repeat split; try done. intros d. by rewrite last_or_nonempty.
Qed.

Lemma bounded_at_sound words prev rest m :
  forallb Spec.wordOk words = true ->
  Re.bounded_words_at words prev rest = Some m ->
  exists post,
    rest = m ++ post
    /\ (exists w, In w words /\ Spec.sameLetters w m = true)
    /\ Re.wordy prev = false /\ Re.wordy (Re.head post) = false.
Proof.
  intros Hok. unfold Re.bounded_words_at, Re.boundary.
  destruct (xorb _ _) eqn:Hb; [|done].
  intros (w & Hin & Hp & -> & Hafter)%alt_at_Some.
  rewrite forallb_forall in Hok.
  destruct (wordOk_spec w (Hok w Hin)) as (Hne & Hhead & Hlast).
  pose proof (prefix_ci_same w rest Hp) as Hsame.
  exists (Str.drop (String.length w) rest).
  rewrite take_drop. repeat split; try done.
  - by exists w.
  - rewrite <- (take_drop (String.length w) rest) in Hb.
    rewrite (same_head w _ _ Hsame Hhead) in Hb.
    by destruct (Re.wordy prev).
  - rewrite (same_last w _ prev Hsame), Hlast in Hafter.
    by destruct (Re.wordy (Re.head (Str.drop (String.length w) rest))).
Qed.

Lemma bounded_at_complete words prev m post :
  forallb Spec.wordOk words = true ->
  (exists w, In w words /\ Spec.sameLetters w m = true) ->
  Re.wordy prev = false -> Re.wordy (Re.head post) = false ->
  Re.bounded_words_at words prev (m ++ post) <> None.
Proof.
  intros Hok (w & Hin & Hsame) Hprev Hpost.
  rewrite forallb_forall in Hok.
  destruct (wordOk_spec w (Hok w Hin)) as (Hne & Hhead & Hlast).
  unfold Re.bounded_words_at, Re.boundary.
  rewrite Hprev, (same_head w m post Hsame Hhead). simpl.
  intros Hnone. pose proof (alt_at_None _ _ _ Hnone w Hin) as H.
  destruct (same_prefix_ci w m post Hsame) as (Hp & Ht & Hd).
  rewrite Hp, Ht, Hd, (same_last w m prev Hsame), Hlast, Hpost in H.
  done.
Qed.

(** A match of [/\b(w1|...)\b/i] is a whole-word occurrence of one of the
    words, and the leftmost one. *)
Lemma bounded_words_Some words s m :
  forallb Spec.wordOk words = true ->
  Re.bounded_words words s = Some m ->
  exists pre post,
    s = pre ++ m ++ post /\ Spec.WholeWord words pre m post
    /\ forall pre' m' post',
         s = pre' ++ m' ++ post' -> Spec.WholeWord words pre' m' post' ->
         (String.length pre <= String.length pre')%nat.
Proof.
  intros Hok (pre & rest & -> & Hat & Hleft)%search_after_Some.
  apply bounded_at_sound in Hat as (post & -> & Hw & Hprev & Hpost);
    [|done].
  exists pre, post. repeat split; try done.
  intros pre' m' post' Heq (Hw' & Hprev' & Hpost').
  destruct (Nat.le_gt_cases (String.length pre) (String.length pre'))
    as [|Hlt]; [done|].
  specialize (Hleft pre' (m' ++ post') Heq Hlt).
  by apply bounded_at_complete in Hleft.
Qed.

Lemma bounded_words_None words s :
  forallb Spec.wordOk words = true ->
  Re.bounded_words words s = None -> ~ Spec.HasWholeWord words s.
Proof.
  intros Hok Hnone (pre & m & post & Heq & Hw & Hprev & Hpost).
  pose proof (search_after_None _ _ _ Hnone pre (m ++ post) Heq) as H.
  by apply bounded_at_complete in H.
Qed.

Lemma test_bounded_words words s :
  forallb Spec.wordOk words = true ->
  Re.test (Re.bounded_words words) s = true <-> Spec.HasWholeWord words s.
Proof.
  intros Hok. unfold Re.test.
  destruct (Re.bounded_words words s) as [m|] eqn:E.
  - split; [intros _ | done].
    apply bounded_words_Some in E as (pre & post & Heq & Hw & _); [|done].
    by exists pre, m, post.
  - split; [done|]. intros H. by apply bounded_words_None in E.
Qed.

(** ** The time pattern and the alphabetic run *)

Lemma time_with_1 rest m :
  Re.time_with 1 rest = Some m ->
  exists h mm ss post,
    rest = m ++ post /\ m = h ++ ":" ++ mm ++ ":" ++ ss
    /\ Spec.Digits 1 h /\ Spec.Digits 2 mm /\ Spec.Digits 2 ss.
Proof.
  unfold Re.time_with.
  destruct rest as [|c1 [|c2 [|c3 [|c4 [|c5 [|c6 [|c7 rest]]]]]]];
    cbn -[is_digit Ascii.eqb]; rewrite ?andb_false_r; try done.
  destruct (_ && _) eqn:E; [|done]. intros [= <-].
  rewrite ?andb_true_r, !andb_true_iff in E.
  repeat match goal with H : _ /\ _ |- _ => destruct H end.
  repeat match goal with
         | H : Ascii.eqb _ _ = true |- _ => apply Ascii.eqb_eq in H; subst
         end.
  exists (String c1 ""), (String c3 (String c4 "")),
         (String c6 (String c7 "")), rest.
  unfold Spec.Digits. cbn -[is_digit].
  rewrite ?andb_true_r, ?andb_true_iff. tauto.
Qed.

Lemma time_with_2 rest m :
  Re.time_with 2 rest = Some m ->
  exists h mm ss post,
    rest = m ++ post /\ m = h ++ ":" ++ mm ++ ":" ++ ss
    /\ Spec.Digits 2 h /\ Spec.Digits 2 mm /\ Spec.Digits 2 ss.
Proof.
  unfold Re.time_with.
  destruct rest as [|c1 [|c2 [|c3 [|c4 [|c5 [|c6 [|c7 [|c8 rest]]]]]]]];
    cbn -[is_digit Ascii.eqb]; rewrite ?andb_false_r; try done.
  destruct (_ && _) eqn:E; [|done]. intros [= <-].
  rewrite ?andb_true_r, !andb_true_iff in E.
  repeat match goal with H : _ /\ _ |- _ => destruct H end.
  repeat match goal with
         | H : Ascii.eqb _ _ = true |- _ => apply Ascii.eqb_eq in H; subst
         end.
  exists (String c1 (String c2 "")), (String c4 (String c5 "")),
         (String c7 (String c8 "")), rest.
  unfold Spec.Digits. cbn -[is_digit].
  rewrite ?andb_true_r, ?andb_true_iff. tauto.
Qed.

Lemma time_at_sound rest m :
  Re.time_at rest = Some m ->
  exists post, rest = m ++ post /\ Spec.TimeToken m.
Proof.
  unfold Re.time_at. destruct (Re.time_with 2 rest) as [m'|] eqn:E.
  - intros [= <-].
    apply time_with_2 in E as (h & mm & ss & post & ? & ? & ? & ? & ?).
    exists post. split; [done|]. exists h, mm, ss. auto.
  - intros (h & mm & ss & post & ? & ? & ? & ? & ?)%time_with_1.
    exists post. split; [done|]. exists h, mm, ss. auto.
Qed.

Lemma digits_1 s :
  Spec.Digits 1 s -> exists a, s = String a "" /\ is_digit a = true.
Proof.
  intros [Hlen Hall]. destruct s as [|a [|? ?]]; try done.
  exists a. cbn -[is_digit] in Hall. by rewrite andb_true_r in Hall.
Qed.

Lemma digits_2 s :
  Spec.Digits 2 s ->
  exists a b, s = String a (String b "")
              /\ is_digit a = true /\ is_digit b = true.
Proof.
  intros [Hlen Hall]. destruct s as [|a [|b [|? ?]]]; try done.
  exists a, b. cbn -[is_digit] in Hall. rewrite andb_true_r in Hall.
  by apply andb_prop in Hall as [? ?].
Qed.

Lemma colon_not_digit : is_digit ":" = false.
Proof. reflexivity. Qed.

Lemma time_at_complete m post :
  Spec.TimeToken m -> Re.time_at (m ++ post) = Some m.
Proof.
  intros (h & mm & ss & -> & Hh & Hmm & Hss).
  apply digits_2 in Hmm as (m1 & m2 & -> & Hm1 & Hm2).
  apply digits_2 in Hss as (s1 & s2 & -> & Hs1 & Hs2).
  destruct Hh as [Hh|Hh].
  - apply digits_1 in Hh as (h1 & -> & Hh1).
    unfold Re.time_at, Re.time_with. cbn -[is_digit].
    rewrite Hh1, Hm1, Hm2, Hs1, Hs2, colon_not_digit. simpl.
    reflexivity.
  - apply digits_2 in Hh as (h1 & h2 & -> & Hh1 & Hh2).
    unfold Re.time_at, Re.time_with. cbn -[is_digit].
    rewrite Hh1, Hh2, Hm1, Hm2, Hs1, Hs2. simpl. reflexivity.
Qed.

Lemma test_time s : Re.test Re.time s = true <-> Spec.HasTime s.
Proof.
  unfold Re.time. rewrite test_search. split.
  - intros (pre & rest & m & -> & (post & -> & Ht)%time_at_sound).
    by exists pre, m, post.
  - intros (pre & m & post & -> & Ht).
    exists pre, (m ++ post), m. split; [done|]. by apply time_at_complete.
Qed.

Lemma test_alpha3 s : Re.test Re.alpha3 s = true <-> Spec.HasAlphaRun s.
Proof.
  unfold Re.alpha3. rewrite test_search. split.
  - intros (pre & rest & m & -> & Hat).
    destruct rest as [|a [|b [|c rest]]]; try done.
    cbn -[is_alpha] in Hat.
    destruct (is_alpha a && is_alpha b && is_alpha c) eqn:E; [|done].
    exists pre, (String a (String b (String c ""))), rest.
    repeat split; [simpl; lia|]. cbn -[is_alpha].
    by rewrite andb_true_r, andb_assoc.
  - intros (pre & r & post & -> & Hlen & Hall).
    destruct r as [|a [|b [|c r]]]; simpl in Hlen; try lia.
    cbn -[is_alpha] in Hall.
    apply andb_prop in Hall as [Ha [Hb [Hc _]%andb_prop]%andb_prop].
    eexists pre, _, _. split; [done|]. cbn -[is_alpha].
    by rewrite Ha, Hb, Hc.
Qed.

(** ** The relevance gate *)

Lemma all_app p a b : Spec.all p (a ++ b) = Spec.all p a && Spec.all p b.
Proof.
  induction a as [|c a IH]; simpl; [done|].
  by rewrite IH, andb_assoc.
Qed.

Lemma lower_all_not_upper s :
  Spec.all (fun c => negb (is_upper c)) (Str.toLowerCase s) = true.
Proof.
  unfold Str.toLowerCase. induction s as [|c s IH]; [done|].
  cbn -[is_upper Chars.toLowerCase].
  by rewrite lower_not_upper, IH.
Qed.

Lemma occurs_lower_not_upper t s :
  Spec.occurs t (Str.toLowerCase s) ->
  Spec.all (fun c => negb (is_upper c)) t = true.
Proof.
  intros (pre & post & Heq). pose proof (lower_all_not_upper s) as H.
  rewrite Heq, !all_app in H.
  by apply andb_prop in H as [_ [H _]%andb_prop].
Qed.

Lemma occurs_prefix a b s : Spec.occurs (a ++ b) s -> Spec.occurs a s.
Proof.
  intros (pre & post & ->). exists pre, (b ++ post).
  by rewrite append_assoc.
Qed.

Lemma hasKeyword_spec vocabulary s :
  existsb (fun term => Str.includes (Str.toLowerCase s) term) vocabulary
  = true
  <-> Spec.HasKeyword vocabulary s.
Proof.
  rewrite existsb_exists. unfold Spec.HasKeyword.
  split; intros (w & Hin & Hw); exists w; by rewrite includes_spec in *.
Qed.

(** The keywords the gate looks for and the vocabulary agree on every
    string without [logid]: the two camel-case terms never occur in a
    lower-cased string, and [workflowid] contains [workflow]. *)
Lemma hasAutomaTerms_spec s :
  ~ Spec.occurs "logid" (Str.toLowerCase s) ->
  Improved.hasAutomaTerms s = true <-> Spec.HasKeyword Spec.vocabulary s.
Proof.
  intros Hlogid. unfold Improved.hasAutomaTerms.
  rewrite hasKeyword_spec. split; intros (w & Hin & Hw).
  - assert (w = "logId" \/ w = "workflowId" \/ In w Spec.vocabulary)
      as [->|[->|Hv]] by (simpl in Hin; simpl; intuition).
    + by apply occurs_lower_not_upper in Hw.
    + by apply occurs_lower_not_upper in Hw.
    + by exists w.
  - assert (w = "logid" \/ w = "workflow" ++ "id"
            \/ In w Improved.automaTerms)
      as [->|[->|Hv]] by (simpl in Hin; simpl; intuition).
    + done.
    + exists "workflow". split; [simpl; tauto|].
      by apply occurs_prefix in Hw.
    + by exists w.
Qed.

Lemma hasJSONLike_spec s :
  Improved.hasJSONLike s = true <-> Spec.JsonLike s.
Proof.
  unfold Improved.hasJSONLike, Spec.JsonLike.
  rewrite !orb_true_iff, !includes_spec. tauto.
Qed.

Lemma alpha_run_long s :
  Spec.HasAlphaRun s ->
  Str.is_empty s || (String.length s <? 3)%nat = false.
Proof.
  intros (pre & r & post & -> & Hlen & _).
  assert (3 <= String.length (pre ++ r ++ post))%nat as H
      by (rewrite !length_append; lia).
  destruct (pre ++ r ++ post) as [|c s'] eqn:E; simpl in *; [lia|].
  apply Nat.ltb_ge. lia.
Qed.

Lemma isValidLogData_unfold s :
  Improved.isValidLogData s = true
  <-> Improved.hasAlphabetic s = true
      /\ (Improved.hasAutomaTerms s = true
          \/ Improved.hasTimePattern s = true
          \/ Improved.hasLogPattern s = true
          \/ Improved.hasJSONLike s = true).
Proof.
  unfold Improved.isValidLogData.
  destruct (Str.is_empty s || (String.length s <? 3)%nat) eqn:E.
  - split; [done|]. intros [Ha%test_alpha3%alpha_run_long _]. congruence.
  - rewrite andb_true_iff, !orb_true_iff. tauto.
Qed.

Lemma logLevels_ok : forallb Spec.wordOk Improved.logLevels = true.
Proof. reflexivity. Qed.

(** The terms [logId] and [workflowId] of [automaTerms] never occur in a
    lower-cased string: a text whose only mark is [logid] is rejected. *)
Lemma bare_logid_rejected :
  Improved.isValidLogData "logid abc" = false
  /\ forall s,
       Str.includes (Str.toLowerCase s) "logId" = false
       /\ Str.includes (Str.toLowerCase s) "workflowId" = false.
Proof.
  split; [reflexivity|]. intros s.
  split; apply includes_false; by intros H%occurs_lower_not_upper.
Qed.

(** C4, as stated, fails: [close the door] holds no keyword of the listed
    vocabulary, no time, no log-level word and none of the three
    characters, and the gate accepts it. *)
Lemma gate_accepts_unlisted_term :
  Improved.isValidLogData "close the door" = true
  /\ ~ Spec.Gate Spec.listedVocabulary "close the door".
Proof.
  split; [reflexivity|]. intros [_ [H|[H|[H|H]]]].
  - by apply hasKeyword_spec in H.
  - by apply test_time in H.
  - by apply test_bounded_words in H.
  - by apply hasJSONLike_spec in H.
Qed.

(** C4, amended: on every string that does not contain [logid] (in any
    letter case), [isValidLogData] accepts exactly when the string has an
    alphabetic run of length at least 3 and at least one of: a keyword of
    the listed vocabulary or one of the further terms [workflow],
    [new tab], [close], [reload], [typing_five] in its lower-cased form; a
    time [H:MM:SS] or [HH:MM:SS]; a log-level word as a whole word in any
    letter case; one of the characters brace, double quote, colon. *)
Theorem gate_accepts_iff (s : string) :
  ~ Spec.occurs "logid" (Str.toLowerCase s) ->
  Improved.isValidLogData s = true <-> Spec.Gate Spec.vocabulary s.
Proof.
  intros Hlogid. rewrite isValidLogData_unfold. unfold Spec.Gate.
  unfold Improved.hasAlphabetic, Improved.hasTimePattern,
    Improved.hasLogPattern.
  rewrite test_alpha3, test_time,
    (test_bounded_words Improved.logLevels s logLevels_ok),
    hasJSONLike_spec, (hasAutomaTerms_spec s Hlogid).
  tauto.
Qed.

Lemma gate_accepts_iff_witness :
  Improved.isValidLogData "close the door" = true
  <-> Spec.Gate Spec.vocabulary "close the door".
Proof.
  apply (gate_accepts_iff "close the door").
  apply includes_false. vm_compute. reflexivity.
Defined.

(** ** The action and status columns *)

Lemma derived_spec words default s :
  forallb Spec.wordOk words = true ->
  Spec.Derived words default s
    (Improved.or_default default (Re.bounded_words words s)).
Proof.
  intros Hok. unfold Spec.Derived, Improved.or_default.
  destruct (Re.bounded_words words s) as [m|] eqn:E.
  - right. by apply bounded_words_Some.
  - left. split; [by apply bounded_words_None | done].
Qed.

(** C5, as stated, fails: on the log text [Opened tab] the action column
    is [Opened], where the action word list of the recoverer yields
    [tab]; and on [Unsuccessful] the status column is [info], where the
    status pattern of the recoverer yields [success]. *)
Lemma enriched_action_not_recoverer_list :
  Improved.workflowRow Sample.timestamp "Typing Five" "Opened tab"
  = Improved.quoted Sample.timestamp ++ "," ++ Improved.quoted "Typing Five"
    ++ "," ++ Improved.quoted "Opened" ++ "," ++ Improved.quoted "info"
    ++ Improved.newline
  /\ Improved.or_default "action"
       (Re.words Improved.actionWords "Opened tab") = "tab"
  /\ Improved.csvAction "Opened tab" <> "tab"
  /\ Improved.csvStatus "Unsuccessful" = "info"
  /\ Improved.or_default "info"
       (Re.words Improved.statusWords "Unsuccessful") = "success".
Proof. repeat split; vm_compute; (reflexivity || discriminate). Qed.

(** C5, amended: in a row of an enriched per-workflow file the status
    column is the leftmost occurrence in the log text, as a whole word and
    in any letter case, of one of success, failed, error, completed,
    started, and [info] when there is none; the action column is the
    leftmost whole-word occurrence of one of clicked, typed, navigated,
    waited, scrolled, started, opened (the verbs of the humanized
    phrases), and [action] when there is none. *)
Theorem enriched_row_columns (timestamp workflowName log : string) :
  exists action status,
    Improved.workflowRow timestamp workflowName log
    = Improved.quoted timestamp ++ "," ++ Improved.quoted workflowName
      ++ "," ++ Improved.quoted action ++ "," ++ Improved.quoted status
      ++ Improved.newline
    /\ Spec.Derived Improved.csvActionWords "action" log action
    /\ Spec.Derived Improved.statusWords "info" log status.
Proof.
  exists (Improved.csvAction log), (Improved.csvStatus log).
  split; [reflexivity|].
  split; by apply derived_spec.
Qed.

(** ** Null bytes in the cleaner *)

Lemma squeeze_cons c s :
  Spec.squeezeNuls (String c s)
  = if is_nul c && Spec.startsWithNul s
    then Spec.squeezeNuls s
    else String c (Spec.squeezeNuls s).
Proof. reflexivity. Qed.

Lemma collapse_cons p f c s :
  Str.collapse_from p f (String c s)
  = if p c
    then if f then Str.collapse_from p true s
         else String " " (Str.collapse_from p true s)
    else String c (Str.collapse_from p false s).
Proof. reflexivity. Qed.

Lemma collapse_squeeze f s :
  Str.collapse_from is_nul f (Spec.squeezeNuls s)
  = Str.collapse_from is_nul f s.
Proof.
  revert f. induction s as [|c s IH]; intros f; [done|].
  rewrite squeeze_cons.
  destruct (is_nul c) eqn:Hc, (Spec.startsWithNul s) eqn:Hs; cbn [andb].
  - rewrite IH. destruct s as [|d s']; [done|].
    unfold Spec.startsWithNul in Hs.
    rewrite !collapse_cons, Hc, Hs. by destruct f.
  - by rewrite !collapse_cons, Hc, IH.
  - by rewrite !collapse_cons, Hc, IH.
  - by rewrite !collapse_cons, Hc, IH.
Qed.

Lemma squeeze_empty s : Str.is_empty (Spec.squeezeNuls s) = Str.is_empty s.
Proof.
  induction s as [|c s IH]; [done|]. rewrite squeeze_cons.
  destruct (is_nul c && Spec.startsWithNul s) eqn:E; [|done].
  destruct s as [|d s']; [by rewrite andb_false_r in E|].
  by rewrite IH.
Qed.

Lemma remove_cons p c s :
  Str.remove p (String c s)
  = if p c then Str.remove p s else String c (Str.remove p s).
Proof. reflexivity. Qed.

Lemma nulToSpace_nul c : is_nul c = true -> Spec.nulToSpace c = " "%char.
Proof. unfold Spec.nulToSpace. by intros ->. Qed.

Lemma nulToSpace_other c : is_nul c = false -> Spec.nulToSpace c = c.
Proof. unfold Spec.nulToSpace. by intros ->. Qed.

(** After the removal of the non-printable characters and the collapse of
    the white space, a run of null bytes has left what as many spaces
    would have left. *)
Lemma nul_run_as_spaces s : forall f g,
  (f = true -> g = true) ->
  Str.collapse_from is_space g
    (Str.remove is_non_printable (Str.collapse_from is_nul f s))
  = Str.collapse_from is_space g
      (Str.remove is_non_printable (Str.map Spec.nulToSpace s)).
Proof.
  induction s as [|c s IH]; intros f g Hfg; [done|].
  cbn [Str.map]. rewrite collapse_cons.
  destruct (is_nul c) eqn:Hc.
  - rewrite (nulToSpace_nul c Hc), !remove_cons.
    change (is_non_printable " ") with false. cbn match.
    rewrite collapse_cons. change (is_space " ") with true. cbn match.
    destruct f.
    + rewrite (Hfg eq_refl). by apply IH.
    + rewrite remove_cons. change (is_non_printable " ") with false.
      cbn match. rewrite collapse_cons. change (is_space " ") with true.
      cbn match. destruct g; by rewrite (IH true true).
  - rewrite (nulToSpace_other c Hc), !remove_cons.
    destruct (is_non_printable c); [by apply IH|].
    rewrite !collapse_cons.
    destruct (is_space c); [destruct g|]; by rewrite (IH false).
Qed.

Lemma map_empty f s : Str.is_empty (Str.map f s) = Str.is_empty s.
Proof. by destruct s. Qed.

(** A null byte is cleaned as a space is: two strings that agree once
    every null byte is read as a space are cleaned to the same result. *)
Lemma nul_cleans_as_space (a b : string) :
  Str.map Spec.nulToSpace a = Str.map Spec.nulToSpace b ->
  Improved.cleanExtractedString a = Improved.cleanExtractedString b.
Proof.
  intros Hab. unfold Improved.cleanExtractedString, Str.collapse.
  rewrite <- (map_empty Spec.nulToSpace a), <- (map_empty Spec.nulToSpace b).
  rewrite (nul_run_as_spaces a false false), (nul_run_as_spaces b false false)
    by done.
  by rewrite Hab.
Qed.

Lemma printable_not_nul b :
  Improved.printable b = true -> is_nul (ascii_of_byte b) = false.
Proof. destruct b; vm_compute; (reflexivity || discriminate). Qed.

(** The carver ends a run at a null byte: the text of a run of printable
    bytes holds none. *)
Lemma run_text_has_no_nul r :
  forallb Improved.printable r = true ->
  Spec.withoutNuls (Spec.text r) = Spec.text r.
Proof.
  unfold Spec.withoutNuls, Spec.text, string_of_list_byte.
  induction r as [|b r IH]; [done|].
  cbn [forallb List.map string_of_list_ascii].
  intros [Hb Hr]%andb_prop.
  by rewrite remove_cons, (printable_not_nul b Hb), IH.
Qed.

(** C7, as stated, fails: [abcd] and [ab], a null byte, [cd] differ only
    by an embedded null byte, and are cleaned to different strings. *)
Lemma embedded_nul_splits_word :
  Spec.withoutNuls ("ab" ++ Sample.nul ++ "cd") = Spec.withoutNuls "abcd"
  /\ Improved.cleanExtractedString ("ab" ++ Sample.nul ++ "cd")
     = Some "ab cd"
  /\ Improved.cleanExtractedString "abcd" = Some "abcd"
  /\ Improved.cleanExtractedString ("ab" ++ Sample.nul ++ "cd")
     <> Improved.cleanExtractedString "abcd".
Proof. repeat split. vm_compute. discriminate. Qed.

(** C7, amended: two strings that differ only in the lengths of their
    runs of null bytes, each run being present in both, are cleaned to the
    same result. *)
Theorem nul_runs_clean_alike (a b : string) :
  Spec.squeezeNuls a = Spec.squeezeNuls b ->
  Improved.cleanExtractedString a = Improved.cleanExtractedString b.
Proof.
  intros Hab. unfold Improved.cleanExtractedString, Str.collapse.
  rewrite <- (squeeze_empty a), <- (squeeze_empty b), Hab.
  rewrite <- (collapse_squeeze false a), <- (collapse_squeeze false b), Hab.
  reflexivity.
Qed.

Lemma nul_runs_clean_alike_witness :
  Improved.cleanExtractedString
    ("ab" ++ Sample.nul ++ Sample.nul ++ Sample.nul ++ "cd")
  = Improved.cleanExtractedString ("ab" ++ Sample.nul ++ "cd").
Proof. apply nul_runs_clean_alike. reflexivity. Defined.

(** ** The driver *)

(** C9: when no source directory, no IndexedDB directory or no extension
    directory is found, [run] returns normally (it resolves to
    [undefined]), leaves the state as it was, hence writes no file, and the
    process exits with code 0. *)
Theorem discovery_miss_is_soft
  (parse : string -> option Js.object) (stringify : Js.object -> string)
  (env : Io.Env) (st : Io.State) :
  Improved.findChromeProfiles env = []
  \/ Improved.findIndexedDBDirs env (Improved.findChromeProfiles env) = []
  \/ Improved.findAutomaExtensions env
       (Improved.findIndexedDBDirs env (Improved.findChromeProfiles env))
     = [] ->
  Improved.run parse stringify env st = (Js.Ok Improved.Undefined, st)
  /\ Io.written (snd (Improved.run parse stringify env st)) = Io.written st
  /\ Improved.exitCode (fst (Improved.run parse stringify env st)) = 0.
Proof.
  intros Hmiss.
  assert (Improved.run parse stringify env st
          = (Js.Ok Improved.Undefined, st)) as Hrun.
  { unfold Improved.run.
    destruct (Improved.findChromeProfiles env) as [|p ps]; [done|].
    destruct (Improved.findIndexedDBDirs env (p :: ps)) as [|d ds];
      [done|].
    destruct (Improved.findAutomaExtensions env (d :: ds)) as [|a az];
      [done|].
    by destruct Hmiss as [?|[?|?]]. }
  by rewrite Hrun.
Qed.

Lemma discovery_miss_is_soft_witness :
  Improved.run Sample.noParse Sample.noStringify Sample.env Sample.start
  = (Js.Ok Improved.Undefined, Sample.start)
  /\ Io.written
       (snd (Improved.run Sample.noParse Sample.noStringify Sample.env
               Sample.start))
     = Io.written Sample.start
  /\ Improved.exitCode
       (fst (Improved.run Sample.noParse Sample.noStringify Sample.env
               Sample.start))
     = 0.
Proof.
  apply (discovery_miss_is_soft Sample.noParse Sample.noStringify
           Sample.env Sample.start).
  left. reflexivity.
Defined.

(** ** The timestamp column *)

Lemma advance_0 st : Spec.advance 0 st = st.
Proof.
  destruct st as [t w]. unfold Spec.advance. simpl. by rewrite Nat.add_0_r.
Qed.

(** A row loop reads the clock once per row and nothing else. *)
Lemma appendRows_stamped {A} env (row : string -> A -> string)
  (tail : A -> string) items :
  (forall ts item, row ts item = Improved.quoted ts ++ "," ++ tail item) ->
  forall content st,
    Improved.appendRows env row items content st
    = (Js.Ok (content
              ++ Spec.stamped env (Io.tick st) (List.map tail items)),
       Spec.advance (List.length items) st).
Proof.
  intros Hrow. induction items as [|item items IH]; intros content st.
  - simpl. unfold Io.ret. by rewrite append_nil_r, advance_0.
  - cbn [Improved.appendRows]. unfold Io.bind, Io.now at 1.
    rewrite IH. cbn [Io.tick List.map Spec.stamped List.length].
    rewrite Hrow. f_equal.
    + f_equal. by rewrite !append_assoc.
    + unfold Spec.advance. simpl. f_equal. lia.
Qed.

Lemma workflowRow_tail ts workflowName log :
  Improved.workflowRow ts workflowName log
  = Improved.quoted ts ++ ","
    ++ (Improved.quoted workflowName ++ ","
        ++ Improved.quoted (Improved.csvAction log) ++ ","
        ++ Improved.quoted (Improved.csvStatus log) ++ Improved.newline).
Proof. reflexivity. Qed.

Lemma combinedRow_tail ts item :
  Improved.combinedRow ts item
  = Improved.quoted ts ++ ","
    ++ (Improved.quoted (Improved.rec_workflow item) ++ ","
        ++ Improved.logValue (Improved.rec_log item) ++ ","
        ++ Improved.quoted (Improved.csvAction (Improved.rec_log item))
        ++ "," ++ Improved.quoted (Improved.csvStatus (Improved.rec_log item))
        ++ Improved.newline).
Proof. reflexivity. Qed.








Lemma join_cons sep x l :
  Js.join sep (x :: l)
  = x ++ match l with [] => "" | _ :: _ => sep ++ Js.join sep l end.
Proof. destruct l; simpl; by rewrite ?append_nil_r. Qed.


(** C10 at the failing input: a fragment whose [workflowId] holds a double
    quote, a line feed and the text of a row is humanized to a workflow
    name that still holds them, and the name is written between double
    quotes as it is.  Read back, each of the two files holds the header,
    a record cut short behind the clock reading and [A], and a record
    whose timestamp column is [10:15:42], a text of the recovered data
    and no reading of the clock. *)
Theorem forged_timestamp_record :
  Improved.convertToHumanReadable [Sample.forgedEntry]
  = Js.Ok [Sample.forgedRecord]
  /\ List.map snd
       (Io.written
          (snd (Improved.saveToCSV Sample.env [Sample.forgedEntry]
                  Sample.start)))
     = [ Improved.workflowHeader
         ++ Improved.workflowRow (Io.toISOString Sample.env 1)
              (Improved.rec_workflow Sample.forgedRecord)
              (Improved.rec_log Sample.forgedRecord);
         Improved.combinedHeader
         ++ Improved.combinedRow (Io.toISOString Sample.env 2)
              Sample.forgedRecord ]
  /\ List.map (fun file => Spec.readRecords (snd file))
       (Io.written
          (snd (Improved.saveToCSV Sample.env [Sample.forgedEntry]
                  Sample.start)))
     = [ Some [ [ "timestamp"; "workflow_name"; "action"; "status" ];
                [ "2025-08-16T15:30:01.000Z"; "A" ];
                [ "10:15:42"; "B"; "action"; "info" ] ];
         Some [ [ "timestamp"; "workflow_name"; "log_entry"; "action";
                  "status" ];
                [ "2025-08-16T15:30:02.000Z"; "A" ];
                [ "10:15:42"; "B"; "Typing"; "action"; "info" ] ] ]
  /\ (forall n, Io.toISOString Sample.env n <> "10:15:42").
Proof.
  split; [vm_compute; reflexivity|].
  split; [vm_compute; reflexivity|].
  split; [vm_compute; reflexivity|].
  intros n. unfold Sample.env, Io.toISOString. discriminate.
Qed.

(** ** Reading rows back *)

Lemma parse_quoted x : forall field fields tail,
  Spec.parseRecord Spec.Quoted field fields
    (Improved.escapeQuotes x ++ String dquote tail)
  = Spec.parseRecord Spec.QuoteSeen (field ++ x) fields tail.
Proof.
  induction x as [|c x IH]; intros field fields tail.
  - simpl. by rewrite append_nil_r.
  - cbn [Improved.escapeQuotes]. destruct (Ascii.eqb c dquote) eqn:Hc.
    + apply Ascii.eqb_eq in Hc as ->. cbn -[Spec.append1].
      rewrite IH. unfold Spec.append1. by rewrite append_assoc.
    + cbn -[Spec.append1]. rewrite Hc, IH. unfold Spec.append1.
      by rewrite append_assoc.
Qed.

Lemma escape_noQuote x :
  Spec.noQuote x = true -> Improved.escapeQuotes x = x.
Proof.
  unfold Spec.noQuote. induction x as [|c x IH]; [done|].
  cbn -[Ascii.eqb]. intros [Hc Hx]%andb_prop.
  apply negb_true_iff in Hc. by rewrite Hc, IH.
Qed.

(** A field written between double quotes, with its double quotes
    doubled, is read back as it was. *)
Lemma parse_quoted_field x fields tail :
  Spec.parseRecord Spec.FieldStart "" fields
    (Improved.quoted (Improved.escapeQuotes x) ++ tail)
  = Spec.parseRecord Spec.QuoteSeen x fields tail.
Proof.
  unfold Improved.quoted. cbn -[Spec.append1].
  rewrite append_assoc. cbn -[Spec.append1].
  by rewrite parse_quoted.
Qed.

Lemma parse_after_quote_comma x fields tail :
  Spec.parseRecord Spec.QuoteSeen x fields (String "," tail)
  = Spec.parseRecord Spec.FieldStart "" (fields ++ [x]) tail.
Proof. reflexivity. Qed.

Lemma parse_after_quote_end x fields :
  Spec.parseRecord Spec.QuoteSeen x fields Improved.newline
  = Some (fields ++ [x])%list.
Proof. reflexivity. Qed.

Lemma parse_plain x : forall field fields tail,
  Spec.plain x = true ->
  Spec.parseRecord Spec.Unquoted field fields (x ++ String "," tail)
  = Spec.parseRecord Spec.FieldStart "" (fields ++ [field ++ x]) tail.
Proof.
  unfold Spec.plain. induction x as [|c x IH]; intros field fields tail.
  - intros _. simpl. by rewrite append_nil_r.
  - cbn -[Ascii.eqb Spec.append1]. intros [Hc Hx]%andb_prop.
    apply negb_true_iff in Hc.
    apply orb_false_elim in Hc as [[Hcomma Hlf]%orb_false_elim Hq].
    rewrite Hq, Hcomma, Hlf, IH by done.
    unfold Spec.append1. by rewrite append_assoc.
Qed.

Lemma parse_plain_field x fields tail :
  Spec.plain x = true ->
  Spec.parseRecord Spec.FieldStart "" fields (x ++ String "," tail)
  = Spec.parseRecord Spec.FieldStart "" (fields ++ [x]) tail.
Proof.
  destruct x as [|c x]; [done|]. unfold Spec.plain.
  cbn -[Ascii.eqb Spec.append1]. intros [Hc Hx]%andb_prop.
  apply negb_true_iff in Hc.
  apply orb_false_elim in Hc as [[Hcomma Hlf]%orb_false_elim Hq].
  rewrite Hq, Hcomma, Hlf. by apply parse_plain.
Qed.

Lemma includes_char_false s c :
  Str.includes s (String c "") = false
  <-> Spec.all (fun d => negb (Ascii.eqb d c)) s = true.
Proof.
  induction s as [|d s IH]; [done|].
  rewrite includes_cons. cbn -[Ascii.eqb Str.includes].
  rewrite orb_false_iff, andb_true_iff, IH, negb_true_iff.
  destruct (ascii_dec c d) as [->|Hcd].
  - rewrite Ascii.eqb_refl. by destruct s.
  - assert (Ascii.eqb d c = false) as -> by (apply Ascii.eqb_neq; congruence).
    tauto.
Qed.

Lemma needsQuotes_false log :
  Improved.needsQuotes log = false -> Spec.plain log = true.
Proof.
  unfold Improved.needsQuotes, Spec.plain.
  intros [[H1 H2]%orb_false_elim H3]%orb_false_elim.
  apply includes_char_false in H1, H2, H3.
  induction log as [|c log IH]; [done|].
  cbn -[Ascii.eqb] in *.
  apply andb_prop in H1 as [? ?], H2 as [? ?], H3 as [? ?].
  rewrite IH by done. rewrite !negb_orb.
  by repeat (apply andb_true_intro; split).
Qed.

Lemma plain_noQuote x : Spec.plain x = true -> Spec.noQuote x = true.
Proof.
  unfold Spec.plain, Spec.noQuote. induction x as [|c x IH]; [done|].
  cbn -[Ascii.eqb]. intros [Hc Hx]%andb_prop. rewrite IH by done.
  rewrite !negb_orb in Hc. by apply andb_prop in Hc as [_ ->].
Qed.

(** The log column is read back as the log text, whatever it holds. *)
Lemma parse_logValue log fields tail :
  Spec.parseRecord Spec.FieldStart "" fields
    (Improved.logValue log ++ String "," tail)
  = Spec.parseRecord Spec.FieldStart "" (fields ++ [log]) tail.
Proof.
  unfold Improved.logValue. destruct (Improved.needsQuotes log) eqn:E.
  - by rewrite parse_quoted_field.
  - apply needsQuotes_false in E.
    rewrite (escape_noQuote log (plain_noQuote log E)).
    by apply parse_plain_field.
Qed.

Lemma canon_quote c : Ascii.eqb (canon c) dquote = Ascii.eqb c dquote.
Proof. by_cases_on c. Qed.

Lemma same_noQuote w m :
  Spec.sameLetters w m = true ->
  Spec.noQuote w = true -> Spec.noQuote m = true.
Proof.
  unfold Spec.noQuote. revert m.
  induction w as [|a w IH]; intros [|b m]; try done.
  cbn -[Ascii.eqb eqb_ci]. intros [Hab Hw]%andb_prop [Ha Hq]%andb_prop.
  rewrite (IH m Hw Hq), andb_true_r.
  unfold eqb_ci in Hab. apply Ascii.eqb_eq in Hab.
  by rewrite <- canon_quote, <- Hab, canon_quote.
Qed.

Lemma derived_noQuote words default log :
  forallb Spec.wordOk words = true ->
  forallb Spec.noQuote words = true -> Spec.noQuote default = true ->
  Spec.noQuote (Improved.or_default default (Re.bounded_words words log))
  = true.
Proof.
  intros Hok Hq Hd. unfold Improved.or_default.
  destruct (Re.bounded_words words log) as [m|] eqn:E; [|done].
  apply bounded_words_Some in E
    as (pre & post & _ & ((w & Hin & Hsame) & _) & _); [|done].
  rewrite forallb_forall in Hq. by apply (same_noQuote w m), Hq.
Qed.

Lemma parse_quoted_plain x fields tail :
  Spec.noQuote x = true ->
  Spec.parseRecord Spec.FieldStart "" fields (Improved.quoted x ++ tail)
  = Spec.parseRecord Spec.QuoteSeen x fields tail.
Proof.
  intros Hx. rewrite <- (escape_noQuote x Hx) at 1.
  apply parse_quoted_field.
Qed.

(** A row of the combined file whose timestamp and workflow name hold no
    double quote is read back as its five fields. *)
Lemma combined_row_reads_back timestamp item :
  Spec.noQuote timestamp = true ->
  Spec.noQuote (Improved.rec_workflow item) = true ->
  Spec.parseRow (Improved.combinedRow timestamp item)
  = Some [ timestamp; Improved.rec_workflow item; Improved.rec_log item;
           Improved.csvAction (Improved.rec_log item);
           Improved.csvStatus (Improved.rec_log item) ].
Proof.
  intros Hts Hwf. unfold Spec.parseRow.
  change (Improved.combinedRow timestamp item)
    with (Improved.quoted timestamp
          ++ String ","
               (Improved.quoted (Improved.rec_workflow item)
                ++ String ","
                     (Improved.logValue (Improved.rec_log item)
                      ++ String ","
                           (Improved.quoted
                              (Improved.csvAction (Improved.rec_log item))
                            ++ String ","
                                 (Improved.quoted
                                    (Improved.csvStatus
                                       (Improved.rec_log item))
                                  ++ Improved.newline))))).
  rewrite (parse_quoted_plain _ _ _ Hts), parse_after_quote_comma.
  rewrite (parse_quoted_plain _ _ _ Hwf), parse_after_quote_comma.
  rewrite parse_logValue.
  rewrite parse_quoted_plain, parse_after_quote_comma
    by (by apply derived_noQuote).
  rewrite parse_quoted_plain, parse_after_quote_end
    by (by apply derived_noQuote).
  reflexivity.
Qed.

(** C2 at the failing input: a fragment whose [workflowId] holds a double
    quote is humanized to a workflow name with that quote; both files then
    get a row in which the name stands between double quotes with its own
    quote not doubled, and neither row can be read back, whereas the log
    text of the same row, which holds a comma, is quoted as the rule
    says. *)
Theorem quote_in_workflow_name_breaks_row :
  Improved.convertToHumanReadable [Sample.quoteEntry]
  = Js.Ok [Sample.quoteRecord]
  /\ Io.written
       (snd (Improved.saveToCSV Sample.env [Sample.quoteEntry] Sample.start))
     = [ ("/workspace/automa-exports/A_B_2025-08-16.csv",
          Improved.workflowHeader
          ++ Improved.workflowRow (Io.toISOString Sample.env 1)
               (Improved.rec_workflow Sample.quoteRecord)
               (Improved.rec_log Sample.quoteRecord));
         ("/workspace/automa-exports/all_workflows_2025-08-16.csv",
          Improved.combinedHeader
          ++ Improved.combinedRow (Io.toISOString Sample.env 2)
               Sample.quoteRecord) ]
  /\ Improved.combinedRow (Io.toISOString Sample.env 2) Sample.quoteRecord
     = Improved.quoted "2025-08-16T15:30:02.000Z" ++ ","
       ++ Improved.quoted ("A" ++ String dquote "B") ++ ","
       ++ Improved.quoted "Typing, twice" ++ ","
       ++ Improved.quoted "action" ++ "," ++ Improved.quoted "info"
       ++ Improved.newline
  /\ Spec.parseRow
       (Improved.workflowRow (Io.toISOString Sample.env 1)
          (Improved.rec_workflow Sample.quoteRecord)
          (Improved.rec_log Sample.quoteRecord))
     = None
  /\ Spec.parseRow
       (Improved.combinedRow (Io.toISOString Sample.env 2)
          Sample.quoteRecord)
     = None.
Proof. repeat split; vm_compute; reflexivity. Qed.

(** * Further properties of the extractor *)

(** ** Facts about character classes *)

Lemma alnum_not_space c : is_alnum c = true -> is_space c = false.
Proof. by_char c. Qed.

Lemma alnum_visible c : is_alnum c = true -> Spec.visible c = true.
Proof. by_char c. Qed.

Lemma visible_not_nul c : Spec.visible c = true -> is_nul c = false.
Proof. by_char c. Qed.

Lemma visible_printable c :
  Spec.visible c = true -> is_non_printable c = false.
Proof. by_char c. Qed.

Lemma visible_space c :
  Spec.visible c = true -> is_space c = Spec.isBlank c.
Proof. by_char c. Qed.

Lemma blank_is_space c : Spec.isBlank c = true -> is_space c = true.
Proof. by_char c. Qed.

Lemma kept_char_visible c :
  is_nul c = false -> is_non_printable c = false ->
  is_space c = false -> Spec.visible c = true.
Proof. by_char c. Qed.

(** ** Predicates on all characters *)

Lemma all_impl (p q : ascii -> bool) s :
  (forall c, p c = true -> q c = true) ->
  Spec.all p s = true -> Spec.all q s = true.
Proof.
  intros Hpq. induction s as [|c s IH]; [done|].
  cbn [Spec.all]. intros [Hc Hs]%andb_prop.
  by rewrite (Hpq c Hc), IH.
Qed.

Lemma all_drop_while p q s :
  Spec.all p s = true -> Spec.all p (Str.drop_while q s) = true.
Proof.
  induction s as [|c s IH]; [done|]. cbn [Str.drop_while].
  destruct (q c); [|done]. cbn [Spec.all]. intros [_ Hs]%andb_prop. auto.
Qed.

Lemma all_drop_while_end p q s :
  Spec.all p s = true -> Spec.all p (Str.drop_while_end q s) = true.
Proof.
  induction s as [|c s IH]; [done|]. cbn [Str.drop_while_end Spec.all].
  intros [Hc Hs]%andb_prop.
  destruct (Str.is_empty _ && q c); [done|].
  cbn [Spec.all]. by rewrite Hc, IH.
Qed.

Lemma all_remove p q s :
  Spec.all p s = true -> Spec.all p (Str.remove q s) = true.
Proof.
  induction s as [|c s IH]; [done|]. rewrite remove_cons.
  cbn [Spec.all]. intros [Hc Hs]%andb_prop.
  destruct (q c); [auto|]. cbn [Spec.all]. by rewrite Hc, IH.
Qed.

Lemma all_removed p s :
  Spec.all (fun c => negb (p c)) (Str.remove p s) = true.
Proof.
  induction s as [|c s IH]; [done|]. rewrite remove_cons.
  destruct (p c) eqn:Hc; [done|]. cbn [Spec.all]. by rewrite Hc, IH.
Qed.

Lemma all_collapse p q f s :
  q " "%char = true ->
  (forall c, p c = false -> q c = true) ->
  Spec.all q (Str.collapse_from p f s) = true.
Proof.
  intros Hb Hq. revert f. induction s as [|c s IH]; intros f; [done|].
  rewrite collapse_cons. destruct (p c) eqn:Hc.
  - destruct f; [apply IH|]. cbn [Spec.all]. by rewrite Hb, IH.
  - cbn [Spec.all]. by rewrite (Hq c Hc), IH.
Qed.

Lemma all_collapse_keeps p q f s :
  q " "%char = true -> Spec.all q s = true ->
  Spec.all q (Str.collapse_from p f s) = true.
Proof.
  intros Hb. revert f. induction s as [|c s IH]; intros f; [done|].
  cbn [Spec.all]. intros [Hc Hs]%andb_prop. rewrite collapse_cons.
  destruct (p c).
  - destruct f; [by apply IH|]. cbn [Spec.all]. by rewrite Hb, IH.
  - cbn [Spec.all]. by rewrite Hc, IH.
Qed.

Lemma all_and p q s :
  Spec.all p s = true -> Spec.all q s = true ->
  Spec.all (fun c => p c && q c) s = true.
Proof.
  induction s as [|c s IH]; [done|]. cbn [Spec.all].
  intros [Hp Hps]%andb_prop [Hq Hqs]%andb_prop.
  by rewrite Hp, Hq, IH.
Qed.

(** ** The shape of a cleaned string *)

(** The three replacements leave printable ASCII only. *)
Lemma normalised_visible s :
  Spec.all Spec.visible
    (Str.collapse is_space
       (Str.remove is_non_printable (Str.collapse is_nul s))) = true.
Proof.
  unfold Str.collapse.
  assert (Spec.all (fun c => negb (is_nul c))
            (Str.collapse_from is_nul false s) = true) as Hnul.
  { apply all_collapse; [done|]. by intros c ->. }
  pose proof (all_remove _ is_non_printable _ Hnul) as H1.
  pose proof (all_removed is_non_printable
                (Str.collapse_from is_nul false s)) as H2.
  pose proof (all_and _ _ _ H1 H2) as H3.
  pose proof (all_collapse_keeps is_space _ false _ eq_refl H3) as H4.
  assert (Spec.all (fun c => Spec.isBlank c || negb (is_space c))
            (Str.collapse_from is_space false
               (Str.remove is_non_printable
                  (Str.collapse_from is_nul false s))) = true) as H5.
  { apply all_collapse; [done|]. intros c Hc. by rewrite Hc, orb_true_r. }
  pose proof (all_and _ _ _ H4 H5) as H6.
  revert H6. apply all_impl. clear. intros c. cbn beta.
  destruct (Spec.isBlank c) eqn:Hb.
  - intros _. revert Hb. by_char c.
  - rewrite !andb_true_iff, !negb_true_iff. cbn [orb].
    intros [[? ?] ?%negb_true_iff]. by apply kept_char_visible.
Qed.

Lemma singleSpaced_cons c s :
  Spec.singleSpaced (String c s)
  = negb (Spec.isBlank c && Spec.startsWithBlank s) && Spec.singleSpaced s.
Proof. reflexivity. Qed.

(** Collapsing the white space leaves no two spaces in a row. *)
Lemma collapse_singleSpaced s : forall f,
  Spec.singleSpaced (Str.collapse_from is_space f s) = true
  /\ (f = true ->
      Spec.startsWithBlank (Str.collapse_from is_space f s) = false).
Proof.
  induction s as [|c s IH]; intros f; [done|].
  rewrite collapse_cons. destruct (is_space c) eqn:Hc.
  - destruct f.
    + apply IH.
    + destruct (IH true) as [H1 H2]. split; [|done].
      rewrite singleSpaced_cons, (H2 eq_refl), H1. by rewrite andb_false_r.
  - destruct (IH false) as [H1 _].
    assert (Spec.isBlank c = false) as Hb.
    { destruct (Spec.isBlank c) eqn:E; [|done].
      apply blank_is_space in E. congruence. }
    split.
    + by rewrite singleSpaced_cons, Hb, H1.
    + intros _. exact Hb.
Qed.

Lemma singleSpaced_drop_while q s :
  Spec.singleSpaced s = true ->
  Spec.singleSpaced (Str.drop_while q s) = true.
Proof.
  induction s as [|c s IH]; [done|]. cbn [Str.drop_while].
  destruct (q c); [|done]. rewrite singleSpaced_cons.
  intros [_ Hs]%andb_prop. auto.
Qed.

Lemma drop_while_end_cons q c s :
  Str.drop_while_end q (String c s)
  = if Str.is_empty (Str.drop_while_end q s) && q c then ""
    else String c (Str.drop_while_end q s).
Proof. reflexivity. Qed.

Lemma starts_drop_while_end q s :
  Spec.startsWithBlank (Str.drop_while_end q s) = true ->
  Spec.startsWithBlank s = true.
Proof.
  destruct s as [|c s]; [done|]. rewrite drop_while_end_cons.
  by destruct (Str.is_empty _ && q c).
Qed.

Lemma singleSpaced_drop_while_end q s :
  Spec.singleSpaced s = true ->
  Spec.singleSpaced (Str.drop_while_end q s) = true.
Proof.
  induction s as [|c s IH]; [done|].
  rewrite singleSpaced_cons, drop_while_end_cons.
  intros [Hc Hs]%andb_prop.
  destruct (Str.is_empty _ && q c); [done|].
  rewrite singleSpaced_cons, (IH Hs), andb_true_r.
  destruct (Spec.isBlank c); [|done]. cbn [andb negb] in *.
  destruct (Spec.startsWithBlank (Str.drop_while_end q s)) eqn:E; [|done].
  apply starts_drop_while_end in E. by rewrite E in Hc.
Qed.

(** What stripping a class at the two ends leaves: nothing, or a string
    whose first and last characters are outside the class. *)
Lemma head_drop_while q s :
  match Re.head (Str.drop_while q s) with
  | Some c => q c = false
  | None => True
  end.
Proof.
  induction s as [|c s IH]; [done|]. cbn [Str.drop_while].
  destruct (q c) eqn:Hc; [done|]. exact Hc.
Qed.

Lemma last_drop_while_end q s : forall d,
  Str.drop_while_end q s <> "" ->
  exists c, Re.last_or d (Str.drop_while_end q s) = Some c /\ q c = false.
Proof.
  induction s as [|c s IH]; intros d; [done|].
  rewrite drop_while_end_cons.
  destruct (Str.is_empty (Str.drop_while_end q s)) eqn:He.
  - destruct (Str.drop_while_end q s); [|done].
    destruct (q c) eqn:Hc; [done|]. intros _. by exists c.
  - cbn [andb]. intros _. cbn [Re.last_or]. apply IH.
    by destruct (Str.drop_while_end q s).
Qed.

Lemma head_drop_while_end q s :
  Str.drop_while_end q s <> "" ->
  Re.head (Str.drop_while_end q s) = Re.head s.
Proof.
  destruct s as [|c s]; [done|]. rewrite drop_while_end_cons.
  by destruct (Str.is_empty _ && q c).
Qed.

Lemma drop_while_id q s :
  match Re.head s with Some c => q c = false | None => True end ->
  Str.drop_while q s = s.
Proof. destruct s as [|c s]; [done|]. cbn. by intros ->. Qed.

Lemma drop_while_end_id q s : forall d,
  (exists c, Re.last_or d s = Some c /\ q c = false) \/ s = "" ->
  Str.drop_while_end q s = s.
Proof.
  induction s as [|c s IH]; intros d; [done|].
  intros [(c' & Hl & Hq)|?]; [|done]. rewrite drop_while_end_cons.
  cbn [Re.last_or] in Hl. destruct s as [|c2 s].
  - cbn in Hl. injection Hl as ->. cbn. by rewrite Hq.
  - rewrite (IH (Some c)); [done|]. left. by exists c'.
Qed.

Lemma nonempty_long s : (3 <= String.length s)%nat -> s <> "".
Proof. destruct s; simpl; [lia | done]. Qed.

Lemma trim_alnum_ends s :
  s <> "" -> Spec.alnumAt (Re.head s) = true ->
  Spec.alnumAt (Spec.last s) = true -> Str.trim s = s.
Proof.
  intros Hne Hh Hl. unfold Str.trim.
  rewrite (drop_while_id is_space s).
  - apply (drop_while_end_id is_space s None). left.
    unfold Spec.last in Hl. destruct (Re.last_or None s) as [c|]; [|done].
    exists c. split; [done|]. by apply alnum_not_space.
  - destruct (Re.head s) as [c|]; [|done]. by apply alnum_not_space.
Qed.

(** The string between the two junk strips and the last [trim]. *)
Lemma stripped_ends s :
  let j := Str.drop_while_end (fun c => negb (is_alnum c))
             (Str.drop_while (fun c => negb (is_alnum c)) s) in
  j <> "" ->
  Spec.alnumAt (Re.head j) = true /\ Spec.alnumAt (Spec.last j) = true.
Proof.
  intros j Hne. subst j. split.
  - rewrite head_drop_while_end by done.
    pose proof (head_drop_while (fun c => negb (is_alnum c)) s) as H.
    destruct (Re.head (Str.drop_while _ s)) as [c|] eqn:E.
    + cbn. by apply negb_false_iff.
    + destruct (Str.drop_while _ s); done.
  - destruct (last_drop_while_end (fun c => negb (is_alnum c)) _ None Hne)
      as (c & Hl & Hc).
    unfold Spec.last. rewrite Hl. cbn. by apply negb_false_iff.
Qed.

Lemma cleaned_shape s c :
  Improved.cleanExtractedString s = Some c -> Spec.Cleaned c.
Proof.
  unfold Improved.cleanExtractedString.
  destruct (Str.is_empty s); [done|].
  set (n := Str.trim (Str.collapse is_space
                        (Str.remove is_non_printable
                           (Str.collapse is_nul s)))).
  set (j := Str.drop_while_end (fun c => negb (is_alnum c))
              (Str.drop_while (fun c => negb (is_alnum c)) n)).
  destruct (2 <? String.length (Str.trim j))%nat eqn:Hlen; [|done].
  intros [= <-]. apply Nat.ltb_lt in Hlen.
  assert (j <> "") as Hne.
  { intros E. rewrite E in Hlen. simpl in Hlen. lia. }
  destruct (stripped_ends n Hne) as [Hh Hl]. fold j in Hh, Hl.
  rewrite (trim_alnum_ends j Hne Hh Hl) in *.
  assert (Spec.all Spec.visible n = true) as Hv.
  { subst n. unfold Str.trim.
    apply all_drop_while_end, all_drop_while, normalised_visible. }
  assert (Spec.singleSpaced n = true) as Hs.
  { subst n. unfold Str.trim, Str.collapse.
    apply singleSpaced_drop_while_end, singleSpaced_drop_while.
    apply collapse_singleSpaced. }
  split; [lia|]. split; [|split; [|done]].
  - subst j. by apply all_drop_while_end, all_drop_while.
  - subst j.
    by apply singleSpaced_drop_while_end, singleSpaced_drop_while.
Qed.

Lemma collapse_id p s : forall f,
  Spec.all (fun c => negb (p c)) s = true -> Str.collapse_from p f s = s.
Proof.
  induction s as [|c s IH]; intros f; [done|]. cbn [Spec.all].
  intros [Hc Hs]%andb_prop. apply negb_true_iff in Hc.
  by rewrite collapse_cons, Hc, IH.
Qed.

Lemma remove_id p s :
  Spec.all (fun c => negb (p c)) s = true -> Str.remove p s = s.
Proof.
  induction s as [|c s IH]; [done|]. cbn [Spec.all].
  intros [Hc Hs]%andb_prop. apply negb_true_iff in Hc.
  by rewrite remove_cons, Hc, IH.
Qed.

(** Collapsing the white space of a single-spaced printable string changes
    nothing. *)
Lemma collapse_space_id s :
  Spec.all Spec.visible s = true -> Spec.singleSpaced s = true ->
  Str.collapse_from is_space false s = s
  /\ (Spec.startsWithBlank s = false ->
      Str.collapse_from is_space true s = s).
Proof.
  induction s as [|c s IH]; [done|].
  cbn [Spec.all]. rewrite singleSpaced_cons.
  intros [Hc Hv]%andb_prop [Hb Hs]%andb_prop.
  destruct (IH Hv Hs) as [IH1 IH2]. rewrite !collapse_cons.
  rewrite (visible_space c Hc). cbn [Spec.startsWithBlank].
  destruct (Spec.isBlank c) eqn:Hblank.
  - cbn [andb negb] in Hb. apply negb_true_iff in Hb.
    assert (c = " "%char) as -> by (revert Hblank; by_char c).
    split; [|done]. by rewrite (IH2 Hb).
  - by rewrite IH1.
Qed.

Lemma cleaned_fixed c :
  Spec.Cleaned c -> Improved.cleanExtractedString c = Some c.
Proof.
  intros (Hlen & Hv & Hs & Hh & Hl).
  pose proof (nonempty_long c Hlen) as Hne.
  unfold Improved.cleanExtractedString, Str.collapse.
  destruct c as [|a c'] eqn:Ec; [done|]. rewrite <- Ec in *.
  rewrite (collapse_id is_nul c false)
    by (revert Hv; apply all_impl; intros x Hx;
        by rewrite (visible_not_nul x Hx)).
  rewrite (remove_id is_non_printable c)
    by (revert Hv; apply all_impl; intros x Hx;
        by rewrite (visible_printable x Hx)).
  rewrite (proj1 (collapse_space_id c Hv Hs)).
  rewrite (trim_alnum_ends c Hne Hh Hl).
  rewrite (drop_while_id _ c).
  2: { destruct (Re.head c) as [x|]; [|done]. cbn in Hh. by rewrite Hh. }
  rewrite (drop_while_end_id _ c None).
  2: { left. unfold Spec.last in Hl.
       destruct (Re.last_or None c) as [x|]; [|done].
       exists x. cbn in Hl. by rewrite Hl. }
  rewrite (trim_alnum_ends c Hne Hh Hl).
  apply Nat.ltb_lt in Hlen. rewrite Hlen. by rewrite Ec.
Qed.

Lemma length_collapse p s : forall f,
  (String.length (Str.collapse_from p f s) <= String.length s)%nat.
Proof.
  induction s as [|c s IH]; intros f; [done|]. rewrite collapse_cons.
  pose proof (IH true). pose proof (IH false).
  destruct (p c); [destruct f|]; cbn [String.length]; lia.
Qed.

Lemma length_remove p s :
  (String.length (Str.remove p s) <= String.length s)%nat.
Proof.
  induction s as [|c s IH]; [done|]. rewrite remove_cons.
  destruct (p c); cbn [String.length]; lia.
Qed.

Lemma length_drop_while p s :
  (String.length (Str.drop_while p s) <= String.length s)%nat.
Proof.
  induction s as [|c s IH]; [done|]. cbn [Str.drop_while].
  destruct (p c); cbn [String.length]; lia.
Qed.

Lemma length_drop_while_end p s :
  (String.length (Str.drop_while_end p s) <= String.length s)%nat.
Proof.
  induction s as [|c s IH]; [done|]. rewrite drop_while_end_cons.
  destruct (Str.is_empty _ && p c); cbn [String.length]; lia.
Qed.

Lemma length_trim s : (String.length (Str.trim s) <= String.length s)%nat.
Proof.
  unfold Str.trim.
  pose proof (length_drop_while_end is_space (Str.drop_while is_space s)).
  pose proof (length_drop_while is_space s). lia.
Qed.

Lemma cleaned_not_longer s c :
  Improved.cleanExtractedString s = Some c ->
  (String.length c <= String.length s)%nat.
Proof.
  unfold Improved.cleanExtractedString.
  destruct (Str.is_empty s); [done|].
  destruct (2 <? _)%nat; [|done]. intros [= <-]. unfold Str.collapse.
  eapply Nat.le_trans; [apply length_trim|].
  eapply Nat.le_trans; [apply length_drop_while_end|].
  eapply Nat.le_trans; [apply length_drop_while|].
  eapply Nat.le_trans; [apply length_trim|].
  eapply Nat.le_trans; [apply length_collapse|].
  eapply Nat.le_trans; [apply length_remove|].
  apply length_collapse.
Qed.

(** X1: whatever [cleanExtractedString] returns is at least three
    characters of printable ASCII (32..126), has no two spaces in a row,
    starts and ends with a letter or a digit, and is not longer than the
    string it was given. *)
Theorem cleaner_output_shape (s c : string) :
  Improved.cleanExtractedString s = Some c ->
  Spec.Cleaned c /\ (String.length c <= String.length s)%nat.
Proof.
  intros H. split; [by apply (cleaned_shape s) | by apply cleaned_not_longer].
Qed.

Lemma cleaner_output_shape_witness :
  Spec.Cleaned "click at 9:05:07"
  /\ (String.length "click at 9:05:07"
      <= String.length ("  click" ++ String "009" " at   9:05:07 ;"))%nat.
Proof.
  apply (cleaner_output_shape ("  click" ++ String "009" " at   9:05:07 ;")).
  vm_compute. reflexivity.
Defined.

(** X2: cleaning is idempotent: a string that [cleanExtractedString]
    returned is returned unchanged when cleaned again. *)
Theorem cleaner_idempotent (s c : string) :
  Improved.cleanExtractedString s = Some c ->
  Improved.cleanExtractedString c = Some c.
Proof. intros H. by apply cleaned_fixed, (cleaned_shape s). Qed.

Lemma cleaner_idempotent_witness :
  Improved.cleanExtractedString "click at 9:05:07" = Some "click at 9:05:07".
Proof.
  apply (cleaner_idempotent ("  click" ++ String "009" " at   9:05:07 ;")).
  vm_compute. reflexivity.
Defined.

(** ** What the carver emits *)

Lemma extract_by_runs buffer :
  Improved.extractCleanStrings buffer
  = omap Spec.kept
      (List.filter (Spec.atLeast 3)
         (List.map Spec.text (Spec.runs Improved.printable buffer))).
Proof.
  unfold Improved.extractCleanStrings.
  apply (improved_carve buffer _ (runs_sound _ buffer) []).
Qed.

Lemma runs_nonempty p buffer : Spec.runs p buffer <> [].
Proof.
  destruct buffer as [|b rest]; [done|]. simpl.
  destruct (p b); [|done]. by destruct (Spec.runs p rest).
Qed.

Lemma runs_app p a sep b :
  p sep = false ->
  Spec.runs p (a ++ sep :: b) = (Spec.runs p a ++ Spec.runs p b)%list.
Proof.
  intros Hsep. induction a as [|x a IH]; simpl.
  - by rewrite Hsep.
  - rewrite IH. destruct (p x); [|done].
    pose proof (runs_nonempty p a). by destruct (Spec.runs p a).
Qed.

Lemma run_not_longer p buffer r :
  In r (Spec.runs p buffer) -> (List.length r <= List.length buffer)%nat.
Proof.
  revert r. induction buffer as [|b rest IH]; intros r; simpl.
  - intros [<-|[]]. done.
  - destruct (p b).
    + pose proof (runs_nonempty p rest).
      destruct (Spec.runs p rest) as [|r0 rs]; [done|].
      intros [<-|Hin].
      * simpl. specialize (IH r0 (or_introl eq_refl)). lia.
      * specialize (IH r (or_intror Hin)). lia.
    + intros [<-|Hin]; [simpl; lia|]. specialize (IH r Hin). lia.
Qed.

Lemma filter_none {A} (f : A -> bool) l :
  (forall x, In x l -> f x = false) -> List.filter f l = [].
Proof.
  induction l as [|x l IH]; [done|]. intros H. simpl.
  rewrite (H x (or_introl eq_refl)). apply IH. intros y Hy. apply H. by right.
Qed.

(** X3: every string the improved carver emits is well formed: it is the
    cleaned text of a maximal printable run of at least 3 bytes of the
    buffer, it passes the relevance gate, and cleaning it again returns it
    unchanged. *)
Theorem carved_strings_are_clean (buffer : list Byte.byte) (x : string) :
  In x (Improved.extractCleanStrings buffer) ->
  (exists r,
     In r (Spec.runs Improved.printable buffer)
     /\ (3 <= List.length r)%nat
     /\ Improved.cleanExtractedString (Spec.text r) = Some x)
  /\ Improved.isValidLogData x = true
  /\ Improved.cleanExtractedString x = Some x.
Proof.
  rewrite extract_by_runs, <- list_elem_of_In, list_elem_of_omap.
  intros (t & Ht & Hkept).
  apply list_elem_of_In, filter_In in Ht as [Ht Hlong].
  apply in_map_iff in Ht as (r & <- & Hr).
  unfold Spec.kept in Hkept.
  destruct (Improved.cleanExtractedString (Spec.text r)) as [c|] eqn:Hc;
    [|done].
  destruct (Improved.isValidLogData c) eqn:Hvalid; [|done].
  injection Hkept as <-. split; [|split; [done|]].
  - exists r. repeat split; try done.
    unfold Spec.atLeast in Hlong. rewrite length_text in Hlong.
    by apply Nat.leb_le.
  - by apply cleaned_fixed, (cleaned_shape (Spec.text r)).
Qed.

Lemma carved_strings_are_clean_witness :
  (exists r,
     In r (Spec.runs Improved.printable Sample.buffer)
     /\ (3 <= List.length r)%nat
     /\ Improved.cleanExtractedString (Spec.text r)
        = Some "click at 9:05:07")
  /\ Improved.isValidLogData "click at 9:05:07" = true
  /\ Improved.cleanExtractedString "click at 9:05:07"
     = Some "click at 9:05:07".
Proof.
  apply (carved_strings_are_clean Sample.buffer "click at 9:05:07").
  vm_compute. tauto.
Defined.

(** X4: carving splits at a non-printable byte: the strings carved from a
    buffer are those carved from what stands before such a byte followed
    by those carved from what stands after it. *)
Theorem carving_splits_at_separator (a b : list Byte.byte)
  (sep : Byte.byte) :
  Improved.printable sep = false ->
  Improved.extractCleanStrings (a ++ sep :: b)
  = (Improved.extractCleanStrings a ++ Improved.extractCleanStrings b)%list.
Proof.
  intros Hsep. rewrite !extract_by_runs, (runs_app _ a sep b Hsep).
  rewrite List.map_app, List.filter_app. apply omap_app.
Qed.

Lemma carving_splits_at_separator_witness :
  Improved.extractCleanStrings
    (list_byte_of_string "click at 9:05:07" ++ Byte.x00
     :: list_byte_of_string "workflowId")
  = (Improved.extractCleanStrings (list_byte_of_string "click at 9:05:07")
     ++ Improved.extractCleanStrings (list_byte_of_string "workflowId"))%list.
Proof.
  apply (carving_splits_at_separator
           (list_byte_of_string "click at 9:05:07")
           (list_byte_of_string "workflowId") Byte.x00).
  reflexivity.
Defined.

(** X5: a buffer of fewer than 3 bytes yields no string at all. *)
Theorem short_buffer_carves_nothing (buffer : list Byte.byte) :
  (List.length buffer < 3)%nat ->
  Improved.extractCleanStrings buffer = [].
Proof.
  intros Hshort. rewrite extract_by_runs, filter_none; [done|].
  intros t (r & <- & Hr)%in_map_iff.
  apply run_not_longer in Hr. unfold Spec.atLeast.
  rewrite length_text. apply Nat.leb_gt. lia.
Qed.

Lemma short_buffer_carves_nothing_witness :
  Improved.extractCleanStrings (list_byte_of_string "ok") = [].
Proof.
  apply (short_buffer_carves_nothing (list_byte_of_string "ok")).
  simpl. lia.
Defined.

(** ** The recoverer *)

Lemma close_spec s body :
  Re.close s = Some body ->
  Spec.all Spec.notBrace body = true
  /\ exists rest, s = body ++ "}" ++ rest.
Proof.
  revert body. induction s as [|c s IH]; intros body; [done|].
  cbn [Re.close]. destruct (Ascii.eqb c "}") eqn:E1.
  - intros [= <-]. apply Ascii.eqb_eq in E1 as ->. split; [done|].
    by exists s.
  - destruct (Ascii.eqb c "{") eqn:E2; [done|].
    destruct (Re.close s) as [b|]; [|done]. intros [= <-].
    destruct (IH b eq_refl) as [Hall [rest ->]]. split.
    + cbn [Spec.all]. unfold Spec.notBrace at 1. by rewrite E1, E2, Hall.
    + by exists rest.
Qed.

Lemma occurs_cons c t s : Spec.occurs t s -> Spec.occurs t (String c s).
Proof. intros (pre & post & ->). by exists (String c pre), post. Qed.

Lemma braces_from_in m s : forall skip,
  In m (Re.braces_from skip s) ->
  Spec.occurs m s
  /\ exists body,
       m = "{" ++ body ++ "}" /\ Spec.all Spec.notBrace body = true.
Proof.
  induction s as [|c s IH]; intros skip; [done|].
  cbn [Re.braces_from]. destruct skip as [|k].
  - destruct (Ascii.eqb c "{") eqn:E.
    + apply Ascii.eqb_eq in E as ->.
      destruct (Re.close s) as [body|] eqn:Hc.
      * destruct (close_spec s body Hc) as [Hall [rest ->]].
        intros [<-|Hin].
        -- split; [|by exists body].
           exists "", rest. simpl. by rewrite !append_assoc.
        -- destruct (IH _ Hin) as [Ho Hb]. split; [|done].
           by apply occurs_cons.
      * intros Hin. destruct (IH _ Hin) as [Ho Hb]. split; [|done].
        by apply occurs_cons.
    + intros Hin. destruct (IH _ Hin) as [Ho Hb]. split; [|done].
      by apply occurs_cons.
  - intros Hin. destruct (IH _ Hin) as [Ho Hb]. split; [|done].
    by apply occurs_cons.
Qed.

(** X6: every fragment the brace scan finds is a piece of the string that
    opens with a brace, closes with a brace and holds no brace in
    between. *)
Theorem brace_fragments_are_flat (s m : string) :
  In m (Re.braces s) ->
  Spec.occurs m s
  /\ exists body,
       m = "{" ++ body ++ "}" /\ Spec.all Spec.notBrace body = true.
Proof. apply braces_from_in. Qed.

Lemma brace_fragments_are_flat_witness :
  Spec.occurs "{b}" "a{b}c{d{e}f}g}{h"
  /\ exists body,
       "{b}" = "{" ++ body ++ "}" /\ Spec.all Spec.notBrace body = true.
Proof.
  apply (brace_fragments_are_flat "a{b}c{d{e}f}g}{h" "{b}").
  vm_compute. tauto.
Defined.

(** A match of [/w1|w2|.../i] is a piece of the string that is one of the
    words in some letter case. *)
Lemma words_Some words s m :
  Re.words words s = Some m ->
  Spec.occurs m s /\ exists w, In w words /\ Spec.sameLetters w m = true.
Proof.
  intros (pre & rest & -> & Hat & _)%search_Some.
  apply alt_at_Some in Hat as (w & Hin & Hp & -> & _).
  split.
  - exists pre, (Str.drop (String.length w) rest). by rewrite take_drop.
  - exists w. split; [done|]. by apply prefix_ci_same.
Qed.

Lemma time_Some s m :
  Re.time s = Some m -> Spec.occurs m s /\ Spec.TimeToken m.
Proof.
  intros (pre & rest & -> & Hat & _)%search_Some.
  apply time_at_sound in Hat as (post & -> & Ht).
  split; [by exists pre, post | done].
Qed.

Lemma all_take_while p s : Spec.all p (Str.take_while p s) = true.
Proof.
  induction s as [|c s IH]; [done|]. cbn [Str.take_while].
  destruct (p c) eqn:Hc; [|done]. cbn [Spec.all]. by rewrite Hc, IH.
Qed.

Lemma take_while_prefix p s :
  exists post, s = Str.take_while p s ++ post.
Proof.
  induction s as [|c s [post IH]]; [by exists ""|].
  cbn [Str.take_while]. destruct (p c).
  - exists post. simpl. by rewrite <- IH.
  - by exists (String c s).
Qed.

Lemma word_then_tail_Some w rest m :
  Re.word_then_tail w rest = Some m ->
  (exists post, rest = m ++ post)
  /\ exists m1 tail,
       m = m1 ++ tail /\ Spec.sameLetters w m1 = true
       /\ Spec.all is_word tail = true.
Proof.
  unfold Re.word_then_tail. destruct (Str.prefix_ci w rest) eqn:Hp; [|done].
  intros [= <-]. split.
  - destruct (take_while_prefix is_word (Str.drop (String.length w) rest))
      as [post Hpost].
    exists post. rewrite append_assoc, <- Hpost. by rewrite take_drop.
  - eexists _, _. split; [reflexivity|]. split.
    + by apply prefix_ci_same.
    + apply all_take_while.
Qed.

Lemma workflow_Some s m :
  Re.workflow s = Some m ->
  Spec.occurs m s
  /\ exists w m1 tail,
       m = m1 ++ tail /\ In w ["typing"; "workflow"]
       /\ Spec.sameLetters w m1 = true /\ Spec.all is_word tail = true.
Proof.
  intros (pre & rest & -> & Hat & _)%search_Some.
  unfold Re.workflow_at in Hat.
  destruct (Re.word_then_tail "typing" rest) as [m'|] eqn:E.
  - injection Hat as ->.
    apply word_then_tail_Some in E as [[post ->] (m1 & tail & ? & ? & ?)].
    split; [by exists pre, post|].
    exists "typing", m1, tail. simpl. tauto.
  - apply word_then_tail_Some in Hat as [[post ->] (m1 & tail & ? & ? & ?)].
    split; [by exists pre, post|].
    exists "workflow", m1, tail. simpl. tauto.
Qed.

Lemma logFragment_in str e :
  In (Improved.LogEntry e) (Improved.logFragment str) ->
  Improved.raw e = str
  /\ Spec.WorkflowToken str (Improved.workflow e)
  /\ Spec.WordToken Improved.actionWords str (Improved.action e)
  /\ Spec.WordToken Improved.statusWords str (Improved.status e)
  /\ Spec.TimeTokenOf str (Improved.time e).
Proof.
  unfold Improved.logFragment.
  destruct (_ || _); [|done]. intros [[= <-]|[]]. cbn.
  split; [done|]. split; [|split; [|split]].
  - destruct (Re.workflow str) as [m|] eqn:E; [|by left].
    right. by apply workflow_Some.
  - destruct (Re.words Improved.actionWords str) as [m|] eqn:E; [|by left].
    right. by apply words_Some.
  - destruct (Re.words Improved.statusWords str) as [m|] eqn:E; [|by left].
    right. by apply words_Some.
  - destruct (Re.time str) as [m|] eqn:E; [|by left].
    right. by apply time_Some.
Qed.

(** X7: the recoverer invents nothing.  A JSON entry of its result is a
    brace fragment of one of the strings, which [JSON.parse] accepted and
    whose serialized form holds a workflow keyword; a log entry carries one
    of the strings as its raw text, and each of its tokens is either
    absent or a piece of that string of the right kind. *)
Theorem recovered_entries_are_grounded
  (parse : string -> option Js.object) (stringify : Js.object -> string)
  (strings : list string) (entry : Improved.StructuredEntry) :
  In entry (Improved.extractStructuredData parse stringify strings) ->
  match entry with
  | Improved.Json data raw =>
      exists str,
        In str strings /\ In raw (Re.braces str)
        /\ parse raw = Some data
        /\ Improved.containsWorkflowData stringify data = true
  | Improved.LogEntry e =>
      In (Improved.raw e) strings
      /\ Spec.WorkflowToken (Improved.raw e) (Improved.workflow e)
      /\ Spec.WordToken Improved.actionWords (Improved.raw e)
           (Improved.action e)
      /\ Spec.WordToken Improved.statusWords (Improved.raw e)
           (Improved.status e)
      /\ Spec.TimeTokenOf (Improved.raw e) (Improved.time e)
  end.
Proof.
  unfold Improved.extractStructuredData.
  intros (str & Hstr & [Hjson|Hlog]%in_app_or)%in_flat_map.
  - unfold Improved.jsonFragments in Hjson.
    destruct (_ && _); [|done].
    apply in_flat_map in Hjson as (m & Hm & Hin).
    destruct (parse m) as [parsed|] eqn:Hp; [|done].
    destruct (Improved.containsWorkflowData stringify parsed) eqn:Hc;
      [|done].
    destruct Hin as [<-|[]]. by exists str.
  - destruct entry as [data raw|e].
    + unfold Improved.logFragment in Hlog.
      destruct (_ || _); [|done]. by destruct Hlog as [?|[]].
    + destruct (logFragment_in str e Hlog) as (Hraw & H). rewrite Hraw.
      by split.
Qed.

Lemma recovered_entries_are_grounded_witness :
  In (Improved.raw
        {| Improved.workflow := "Workflow"; Improved.action := "";
           Improved.status := "started"; Improved.time := "10:15:42";
           Improved.raw := Sample.startedLine |})
     [Sample.startedLine]
  /\ Spec.WorkflowToken Sample.startedLine "Workflow"
  /\ Spec.WordToken Improved.actionWords Sample.startedLine ""
  /\ Spec.WordToken Improved.statusWords Sample.startedLine "started"
  /\ Spec.TimeTokenOf Sample.startedLine "10:15:42".
Proof.
  apply (recovered_entries_are_grounded Sample.noParse Sample.noStringify
           [Sample.startedLine] Sample.startedEntry).
  vm_compute. tauto.
Defined.

(** ** The humanizer *)

Lemma lower_canon c : Chars.toLowerCase (canon c) = Chars.toLowerCase c.
Proof. by_cases_on c. Qed.

Lemma same_lower w m :
  Spec.sameLetters w m = true -> Str.toLowerCase m = Str.toLowerCase w.
Proof.
  unfold Str.toLowerCase. revert m.
  induction w as [|a w IH]; intros [|b m]; try done.
  cbn [Spec.sameLetters Str.map]. intros [Hab Hw]%andb_prop.
  rewrite (IH m Hw). f_equal.
  unfold eqb_ci in Hab. apply Ascii.eqb_eq in Hab.
  by rewrite <- (lower_canon b), <- Hab, lower_canon.
Qed.

(** X8: every action token the recoverer captures has a phrase: it is one
    of the eight action words in some letter case, and [humanizeAction]
    maps it to the phrase the table gives for that word, never passing it
    through. *)
Theorem captured_action_is_humanized (str token : string) :
  Re.words Improved.actionWords str = Some token ->
  exists w phrase,
    In w Improved.actionWords /\ Spec.sameLetters w token = true
    /\ Improved.assoc w Improved.actionMap = Some phrase
    /\ Improved.humanizeAction token = phrase.
Proof.
  intros (_ & w & Hin & Hsame)%words_Some.
  unfold Improved.humanizeAction. rewrite (same_lower w token Hsame).
  exists w. pose proof Hin as Hcase. simpl in Hcase.
  repeat (destruct Hcase as [<-|Hcase];
          [eexists; split; [exact Hin|]; split; [exact Hsame|];
           split; vm_compute; reflexivity|]).
  done.
Qed.

Lemma captured_action_is_humanized_witness :
  exists w phrase,
    In w Improved.actionWords /\ Spec.sameLetters w "CLICK" = true
    /\ Improved.assoc w Improved.actionMap = Some phrase
    /\ Improved.humanizeAction "CLICK" = phrase.
Proof.
  apply (captured_action_is_humanized "then CLICK the tab" "CLICK").
  vm_compute. reflexivity.
Defined.

Lemma logReadable_nonempty e :
  Improved.raw e <> "" -> Improved.logReadable e <> "".
Proof.
  intros Hraw. unfold Improved.logReadable.
  destruct (Str.is_empty (Js.join " " _)) eqn:E; [done|].
  intros Heq. by rewrite Heq in E.
Qed.

Lemma humanize_log_entry e :
  Improved.raw e <> "" ->
  exists r, Improved.humanize (Improved.LogEntry e) = Js.Ok [r].
Proof.
  intros Hraw%logReadable_nonempty. unfold Improved.humanize.
  cbn [Improved.has_length].
  destruct (Improved.logReadable e) as [|c l] eqn:E; [done|].
  cbn [Str.is_empty negb Improved.cleanLogEntry Js.bind].
  unfold Improved.cleanWorkflowName.
  destruct (Str.is_empty _ || _); cbn [Js.bind]; by eexists.
Qed.

Lemma logFragment_raw str entry :
  In entry (Improved.logFragment str) ->
  exists e, entry = Improved.LogEntry e /\ Improved.raw e <> "".
Proof.
  unfold Improved.logFragment. destruct (_ || _) eqn:E; [|done].
  intros [<-|[]]. eexists. split; [reflexivity|]. cbn.
  intros ->. by vm_compute in E.
Qed.

Lemma convert_log_entries entries :
  Forall (fun entry =>
            exists e, entry = Improved.LogEntry e /\ Improved.raw e <> "")
    entries ->
  exists rs,
    Improved.convertToHumanReadable entries = Js.Ok rs
    /\ List.length rs = List.length entries.
Proof.
  induction 1 as [|entry entries (e & -> & Hraw) _ (rs & IH & Hlen)].
  - by exists [].
  - destruct (humanize_log_entry e Hraw) as [r Hr].
    exists (r :: rs). cbn [Improved.convertToHumanReadable].
    rewrite Hr, IH. cbn. by rewrite Hlen.
Qed.

(** X9: the humanizer neither raises on log fragments nor drops one: the
    log fragments recovered from any strings are turned into exactly one
    record each. *)
Theorem log_fragments_all_humanized (strings : list string) :
  exists rs,
    Improved.convertToHumanReadable (flat_map Improved.logFragment strings)
    = Js.Ok rs
    /\ List.length rs
       = List.length (flat_map Improved.logFragment strings).
Proof.
  apply convert_log_entries, Forall_forall.
  intros entry (str & _ & Hin)%list_elem_of_In%in_flat_map.
  by apply (logFragment_raw str).
Qed.

Lemma jsonWorkflow_truthy data :
  Js.truthy (Improved.jsonWorkflow data) = true.
Proof.
  unfold Improved.jsonWorkflow, Improved.overwrite.
  destruct (data !! "workflowId") as [v|].
  - destruct (Js.truthy v) eqn:Hv; [done|].
    destruct (data !! "name") as [n|]; [|done].
    by destruct (Js.truthy n) eqn:Hn.
  - destruct (data !! "name") as [n|]; [|done].
    by destruct (Js.truthy n) eqn:Hn.
Qed.

Lemma humanize_throws_TypeError entry e :
  Improved.humanize entry = Js.Throw e -> e = Js.TypeError.
Proof.
  unfold Improved.humanize.
  destruct entry as [data raw|f].
  - destruct (Improved.has_length _); [|done].
    unfold Improved.cleanWorkflowName, Improved.cleanLogEntry.
    destruct (Improved.jsonWorkflow data) as [| | |s|];
      destruct (Improved.jsonReadable data) as [| | |t|];
      cbn; repeat (match goal with
                   | |- context [if ?b then _ else _] => destruct b
                   end; cbn); congruence.
  - destruct (Improved.has_length _); [|done].
    unfold Improved.cleanWorkflowName, Improved.cleanLogEntry.
    cbn; repeat (match goal with
                 | |- context [if ?b then _ else _] => destruct b
                 end; cbn); congruence.
Qed.

Lemma convert_throws entries entry :
  In entry entries ->
  Improved.humanize entry = Js.Throw Js.TypeError ->
  Improved.convertToHumanReadable entries = Js.Throw Js.TypeError.
Proof.
  induction entries as [|x entries IH]; [done|].
  cbn [Improved.convertToHumanReadable]. intros [->|Hin] Hthrow.
  - by rewrite Hthrow.
  - destruct (Improved.humanize x) as [here|e] eqn:Hx; cbn [Js.bind].
    + by rewrite (IH Hin Hthrow).
    + by rewrite (humanize_throws_TypeError x e Hx).
Qed.

(** X10: a JSON fragment whose workflow name is not a string (its
    [workflowId], or else its [name], is a number, [true] or an array) and
    that has a log text makes the whole export fail: [saveToCSV] raises
    [TypeError] for the call of [replace] on that value, before any clock
    reading and before any file is written, whatever the other entries
    are. *)
Theorem non_string_name_aborts_export (env : Io.Env) (st : Io.State)
  (workflowData : list Improved.StructuredEntry)
  (data : Js.object) (raw : string) :
  In (Improved.Json data raw) workflowData ->
  (forall s, Improved.jsonWorkflow data <> Js.Text s) ->
  Improved.has_length (Improved.jsonReadable data) = true ->
  Io.ensureDir env Improved.outputDir = true ->
  Improved.saveToCSV env workflowData st = (Js.Throw Js.TypeError, st).
Proof.
  intros Hin Hname Hlen Hdir.
  assert (Improved.humanize (Improved.Json data raw)
          = Js.Throw Js.TypeError) as Hthrow.
  { unfold Improved.humanize. rewrite Hlen.
    pose proof (jsonWorkflow_truthy data) as Ht.
    unfold Improved.cleanWorkflowName.
    destruct (Improved.jsonWorkflow data) as [| | |s|];
      try (by rewrite Ht). by destruct (Hname s). }
  unfold Improved.saveToCSV.
  destruct workflowData as [|x rest]; [done|].
  unfold Io.bind at 1, Io.mkdir. rewrite Hdir.
  unfold Io.bind at 1, Io.lift at 1.
  by rewrite (convert_throws _ _ Hin Hthrow).
Qed.

Lemma non_string_name_aborts_export_witness :
  Improved.saveToCSV Sample.env
    [Sample.startedEntry; Improved.Json Sample.numericId ""] Sample.start
  = (Js.Throw Js.TypeError, Sample.start).
Proof.
  apply (non_string_name_aborts_export Sample.env Sample.start
           [Sample.startedEntry; Improved.Json Sample.numericId ""]
           Sample.numericId "").
  - right. left. reflexivity.
  - intros s. vm_compute. discriminate.
  - vm_compute. reflexivity.
  - reflexivity.
Defined.

(** ** Workflow names *)

Lemma upper_word c :
  is_word c = true -> Chars.toUpperCase c = String (Spec.upper1 c) "".
Proof. by_char c. Qed.

Lemma upper1_not_lower c :
  is_word c = true -> is_lower (Spec.upper1 c) = false.
Proof. by_char c. Qed.

Lemma upper1_word c : is_word c = true -> is_word (Spec.upper1 c) = true.
Proof. by_char c. Qed.

Lemma upper1_notUnderscore c :
  Spec.notUnderscore c = true -> Spec.notUnderscore (Spec.upper1 c) = true.
Proof. by_char c. Qed.

Lemma nonword_not_lower c : is_word c = false -> is_lower c = false.
Proof. by_char c. Qed.

Lemma space_not_word c : is_space c = true -> is_word c = false.
Proof. by_char c. Qed.

Lemma capitalize_cons f c s :
  Improved.capitalize_words f (String c s)
  = if is_word c
    then (if f then String c "" else Chars.toUpperCase c)
         ++ Improved.capitalize_words true s
    else String c (Improved.capitalize_words false s).
Proof. reflexivity. Qed.

Lemma capitalize_capsOk s : forall f,
  Spec.capsOk f (Improved.capitalize_words f s) = true.
Proof.
  induction s as [|c s IH]; intros f; [done|].
  rewrite capitalize_cons. destruct (is_word c) eqn:Hw.
  - destruct f.
    + cbn [String.append Spec.capsOk]. by rewrite Hw, IH.
    + rewrite (upper_word c Hw). cbn [String.append Spec.capsOk].
      by rewrite (upper1_not_lower c Hw), (upper1_word c Hw), IH.
  - cbn [Spec.capsOk]. by rewrite Hw, IH, (nonword_not_lower c Hw), orb_true_r.
Qed.

Lemma capitalize_notUnderscore s : forall f,
  Spec.all Spec.notUnderscore s = true ->
  Spec.all Spec.notUnderscore (Improved.capitalize_words f s) = true.
Proof.
  induction s as [|c s IH]; intros f; [done|]. cbn [Spec.all].
  intros [Hc Hs]%andb_prop. rewrite capitalize_cons.
  destruct (is_word c) eqn:Hw.
  - destruct f.
    + cbn [String.append Spec.all]. by rewrite Hc, IH.
    + rewrite (upper_word c Hw). cbn [String.append Spec.all].
      by rewrite (upper1_notUnderscore c Hc), IH.
  - cbn [Spec.all]. by rewrite Hc, IH.
Qed.

Lemma map_dash_notUnderscore s :
  Spec.all Spec.notUnderscore
    (Str.map (fun c => if Improved.is_dash c then " "%char else c) s) = true.
Proof.
  induction s as [|c s IH]; [done|]. cbn [Str.map Spec.all].
  rewrite IH, andb_true_r. unfold Improved.is_dash, Spec.notUnderscore.
  destruct (Ascii.eqb c "_") eqn:E; [done|]. cbn [orb].
  destruct (Ascii.eqb c "-"); [done|]. by rewrite E.
Qed.

Lemma capsOk_drop_space s :
  Spec.capsOk false s = true ->
  Spec.capsOk false (Str.drop_while is_space s) = true.
Proof.
  induction s as [|c s IH]; [done|]. cbn [Str.drop_while].
  destruct (is_space c) eqn:Hc; [|done]. cbn [Spec.capsOk].
  rewrite (space_not_word c Hc). intros [_ Hs]%andb_prop. auto.
Qed.

Lemma capsOk_drop_while_end q s : forall f,
  Spec.capsOk f s = true -> Spec.capsOk f (Str.drop_while_end q s) = true.
Proof.
  induction s as [|c s IH]; intros f; [done|].
  cbn [Spec.capsOk]. intros [Hc Hs]%andb_prop.
  rewrite drop_while_end_cons. destruct (Str.is_empty _ && q c); [done|].
  cbn [Spec.capsOk]. by rewrite Hc, IH.
Qed.

(** A name with no underscore whose first character is no lower-case
    letter is none of the names inherited from [Object.prototype]. *)
Lemma caps_not_inherited name :
  Spec.capsOk false name = true ->
  Spec.all Spec.notUnderscore name = true ->
  Spec.notInherited name = true.
Proof.
  intros Hcaps Hund. unfold Spec.notInherited.
  destruct (existsb _ _) eqn:E; [|done].
  apply existsb_exists in E as (n & Hin & ->%String.eqb_eq).
  simpl in Hin.
  repeat (destruct Hin as [<-|Hin]; [by vm_compute in Hcaps, Hund|]).
  done.
Qed.

Lemma cleanWorkflowName_key v w :
  Improved.cleanWorkflowName v = Js.Ok w ->
  Spec.notInherited (if Str.is_empty w then "Unknown Workflow" else w)
  = true.
Proof.
  assert (forall s,
            Spec.notInherited
              (if Str.is_empty
                    (Str.trim
                       (Improved.capitalize_words false
                          (Str.map
                             (fun c => if Improved.is_dash c then " "%char
                                       else c) s)))
               then "Unknown Workflow"
               else Str.trim
                      (Improved.capitalize_words false
                         (Str.map
                            (fun c => if Improved.is_dash c then " "%char
                                      else c) s)))
            = true) as Hclean.
  { intros s. destruct (Str.is_empty _); [done|].
    unfold Str.trim. apply caps_not_inherited.
    - apply capsOk_drop_while_end, capsOk_drop_space, capitalize_capsOk.
    - apply all_drop_while_end, all_drop_while, capitalize_notUnderscore,
        map_dash_notUnderscore. }
  unfold Improved.cleanWorkflowName.
  destruct v as [|b|n|s|l]; cbn [Js.truthy].
  - by intros [= <-].
  - destruct b; [done | by intros [= <-]].
  - destruct (Js.nonzero n); [done | by intros [= <-]].
  - destruct (Str.is_empty s || String.eqb s "Unknown");
      intros [= <-]; [done | apply Hclean].
  - done.
Qed.

Lemma humanize_keys entry rs :
  Improved.humanize entry = Js.Ok rs ->
  Forall (fun r => Spec.notInherited (Spec.groupKey r) = true) rs.
Proof.
  unfold Improved.humanize.
  destruct (match entry with
            | Improved.Json data _ => _
            | Improved.LogEntry e => _
            end) as [workflow readable].
  destruct (Improved.has_length readable); [|by intros [= <-]].
  destruct (Improved.cleanWorkflowName workflow) as [w|] eqn:Hw; [|done].
  destruct (Improved.cleanLogEntry readable) as [l|]; [|done].
  cbn [Js.bind]. intros [= <-]. constructor; [|done].
  unfold Spec.groupKey. cbn. by apply (cleanWorkflowName_key workflow).
Qed.

Lemma convert_keys entries rs :
  Improved.convertToHumanReadable entries = Js.Ok rs ->
  Forall (fun r => Spec.notInherited (Spec.groupKey r) = true) rs.
Proof.
  revert rs. induction entries as [|entry entries IH]; intros rs.
  - by intros [= <-].
  - cbn [Improved.convertToHumanReadable].
    destruct (Improved.humanize entry) as [here|] eqn:Hh; [|done].
    destruct (Improved.convertToHumanReadable entries) as [later|]; [|done].
    cbn [Js.bind]. intros [= <-]. apply Forall_app. split.
    + by apply (humanize_keys entry).
    + by apply IH.
Qed.

Lemma group_never_throws rs : forall workflows,
  Forall (fun r => Spec.notInherited (Spec.groupKey r) = true) rs ->
  exists grouped, Improved.groupByWorkflow rs workflows = Js.Ok grouped.
Proof.
  induction rs as [|r rs IH]; intros workflows Hall.
  - by eexists.
  - apply Forall_cons in Hall as [Hr Hrs].
    cbn [Improved.groupByWorkflow]. fold (Spec.groupKey r).
    unfold Spec.notInherited in Hr. apply negb_true_iff in Hr.
    rewrite Hr. by apply IH.
Qed.

(** X11: grouping never fails on what the humanizer produced.  A workflow
    name that went through [cleanWorkflowName] holds no underscore and
    starts no word with a lower-case letter, so it is none of the property
    names an object inherits ([constructor], [toString], [__proto__], ...),
    and the grouping loop always finds an array to push to. *)
Theorem grouping_never_fails
  (workflowData : list Improved.StructuredEntry)
  (readableData : list Improved.ReadableRecord) :
  Improved.convertToHumanReadable workflowData = Js.Ok readableData ->
  exists workflows,
    Improved.groupByWorkflow readableData [] = Js.Ok workflows.
Proof. intros H. by apply group_never_throws, (convert_keys workflowData). Qed.

Lemma grouping_never_fails_witness :
  exists workflows,
    Improved.groupByWorkflow [Sample.constructorRecord] []
    = Js.Ok workflows.
Proof.
  apply (grouping_never_fails [Sample.constructorEntry]
           [Sample.constructorRecord]).
  vm_compute. reflexivity.
Defined.

(** ** Groups *)

Lemma logsIn_pushLog name k l workflows :
  Spec.logsIn name (Improved.pushLog k l workflows)
  = (Spec.logsIn name workflows
     ++ if String.eqb k name then [l] else [])%list.
Proof.
  induction workflows as [|[k' logs] rest IH].
  - cbn. by destruct (String.eqb k name).
  - cbn [Improved.pushLog]. destruct (String.eqb k' k) eqn:Ek.
    + apply String.eqb_eq in Ek as ->. cbn [Spec.logsIn].
      destruct (String.eqb k name); [done | by rewrite app_nil_r].
    + cbn [Spec.logsIn]. destruct (String.eqb k' name) eqn:En; [|done].
      apply String.eqb_eq in En as ->.
      rewrite String.eqb_sym, Ek. by rewrite app_nil_r.
Qed.

Lemma keys_pushLog k l workflows :
  List.map fst (Improved.pushLog k l workflows)
  = if existsb (String.eqb k) (List.map fst workflows)
    then List.map fst workflows
    else (List.map fst workflows ++ [k])%list.
Proof.
  induction workflows as [|[k' logs] rest IH]; [done|].
  cbn [Improved.pushLog List.map fst existsb].
  rewrite (String.eqb_sym k k'). destruct (String.eqb k' k); [done|].
  cbn [List.map fst orb]. rewrite IH.
  by destruct (existsb _ _).
Qed.

Lemma nodup_pushLog k l workflows :
  List.NoDup (List.map fst workflows) ->
  List.NoDup (List.map fst (Improved.pushLog k l workflows)).
Proof.
  intros Hnd. rewrite keys_pushLog.
  destruct (existsb _ _) eqn:E; [done|].
  apply NoDup_ListNoDup, NoDup_app. apply NoDup_ListNoDup in Hnd.
  split; [done|]. split; [|apply NoDup_singleton].
  intros x Hx ->%list_elem_of_singleton.
  assert (existsb (String.eqb k) (List.map fst workflows) = true);
    [|congruence].
  apply existsb_exists. exists k. split; [by apply list_elem_of_In|].
  apply String.eqb_refl.
Qed.

Lemma nonempty_pushLog k l workflows :
  Forall (fun g => snd g <> []) workflows ->
  Forall (fun g => snd g <> []) (Improved.pushLog k l workflows).
Proof.
  induction 1 as [|[k' logs] rest Hg Hrest IH].
  - by constructor.
  - cbn [Improved.pushLog]. destruct (String.eqb k' k).
    + constructor; [|done]. cbn. by destruct logs.
    + by constructor.
Qed.

Lemma group_contents rs : forall workflows grouped,
  Improved.groupByWorkflow rs workflows = Js.Ok grouped ->
  (List.NoDup (List.map fst workflows) ->
   List.NoDup (List.map fst grouped))
  /\ (Forall (fun g => snd g <> []) workflows ->
      Forall (fun g => snd g <> []) grouped)
  /\ forall name,
       Spec.logsIn name grouped
       = (Spec.logsIn name workflows ++ Spec.logsOf name rs)%list.
Proof.
  induction rs as [|r rs IH]; intros workflows grouped.
  - intros [= <-]. repeat split; try done. intros name.
    by rewrite app_nil_r.
  - cbn [Improved.groupByWorkflow]. fold (Spec.groupKey r).
    destruct (existsb _ Improved.inherited); [done|].
    intros (Hnd & Hne & Hlogs)%IH. split; [|split].
    + intros H. by apply Hnd, nodup_pushLog.
    + intros H. by apply Hne, nonempty_pushLog.
    + intros name. rewrite Hlogs, logsIn_pushLog, <- app_assoc. f_equal.
      unfold Spec.logsOf. cbn [List.filter].
      by destruct (String.eqb (Spec.groupKey r) name).
Qed.

(** X12: the grouping loop files every record under its workflow name (or
    under [Unknown Workflow] when the name is empty) and loses nothing:
    the groups have distinct names, none is empty, and the logs of a group
    are the log texts of the records of that name, in the order in which
    the records came. *)
Theorem groups_hold_the_logs (readableData : list Improved.ReadableRecord)
  (workflows : list (string * list string)) :
  Improved.groupByWorkflow readableData [] = Js.Ok workflows ->
  List.NoDup (List.map fst workflows)
  /\ Forall (fun g => snd g <> []) workflows
  /\ forall name,
       Spec.logsIn name workflows = Spec.logsOf name readableData.
Proof.
  intros (Hnd & Hne & Hlogs)%group_contents.
  split; [apply Hnd; constructor|]. split; [by apply Hne|]. exact Hlogs.
Qed.

Lemma groups_hold_the_logs_witness :
  List.NoDup
    (List.map fst [("Workflow", ["At 10:15:42 - started"; "Clicked element"]);
                   ("Typing Five", ["Typed text"])])
  /\ Forall (fun g : string * list string => snd g <> [])
       [("Workflow", ["At 10:15:42 - started"; "Clicked element"]);
        ("Typing Five", ["Typed text"])]
  /\ forall name,
       Spec.logsIn name
         [("Workflow", ["At 10:15:42 - started"; "Clicked element"]);
          ("Typing Five", ["Typed text"])]
       = Spec.logsOf name Sample.threeRecords.
Proof.
  apply (groups_hold_the_logs Sample.threeRecords). vm_compute. reflexivity.
Defined.

(** ** The order of [Object.entries] *)

Lemma insertIndexed_perm i g sorted :
  List.map snd (Improved.insertIndexed i g sorted)
  ≡ₚ g :: List.map snd sorted.
Proof.
  induction sorted as [|[j h] rest IH]; [done|].
  cbn [Improved.insertIndexed]. destruct (i <? j); [done|].
  cbn [List.map snd]. rewrite IH. apply Permutation_swap.
Qed.

Lemma indexed_perm workflows :
  List.map snd (Improved.indexed workflows)
  ≡ₚ List.filter (fun g => Improved.isArrayIndex (fst g)) workflows.
Proof.
  induction workflows as [|g rest IH]; [done|].
  cbn [Improved.indexed List.filter]. unfold Improved.isArrayIndex at 1.
  destruct (Improved.arrayIndex (fst g)) as [i|]; [|done].
  by rewrite insertIndexed_perm, IH.
Qed.

Lemma filter_split {A} (f : A -> bool) l :
  (List.filter f l ++ List.filter (fun x => negb (f x)) l)%list ≡ₚ l.
Proof.
  induction l as [|x l IH]; [done|]. cbn [List.filter].
  destruct (f x); cbn [negb].
  - cbn. by rewrite IH.
  - rewrite <- Permutation_middle. by rewrite IH.
Qed.

Lemma insertIndexed_sorted i g sorted :
  StronglySorted N.le (List.map fst sorted) ->
  StronglySorted N.le
    (List.map fst (Improved.insertIndexed i g sorted)).
Proof.
  induction sorted as [|[j h] rest IH]; [by repeat constructor|].
  cbn [List.map fst]. intros [Hall Hs]%StronglySorted_cons.
  cbn [Improved.insertIndexed]. destruct (i <? j) eqn:E.
  - apply N.ltb_lt in E. cbn [List.map fst].
    apply StronglySorted_cons. split.
    + constructor; [lia|]. eapply Forall_impl; [exact Hall|].
      intros x. cbn. lia.
    + by apply StronglySorted_cons.
  - apply N.ltb_ge in E. cbn [List.map fst].
    apply StronglySorted_cons. split; [|by apply IH].
    apply Forall_forall. intros x Hx.
    assert (x ∈ i :: List.map fst rest) as Hx'.
    { revert Hx. clear. induction rest as [|[j' h'] rest IH].
      - cbn. by intros ->%list_elem_of_singleton; left.
      - cbn [Improved.insertIndexed]. destruct (i <? j'); [done|].
        cbn [List.map fst]. rewrite !elem_of_cons. intros [->|H].
        + right. by left.
        + apply IH in H. apply elem_of_cons in H as [->|H];
            [by left | by right; right]. }
    apply elem_of_cons in Hx' as [->|Hx']; [done|].
    rewrite Forall_forall in Hall. by apply Hall.
Qed.

Lemma indexed_sorted workflows :
  StronglySorted N.le (List.map fst (Improved.indexed workflows)).
Proof.
  induction workflows as [|g rest IH]; [constructor|].
  cbn [Improved.indexed].
  destruct (Improved.arrayIndex (fst g)); [|done].
  by apply insertIndexed_sorted.
Qed.

Lemma insertIndexed_values i g sorted :
  Forall (fun p => Improved.arrayIndex (fst (snd p)) = Some (fst p))
    sorted ->
  Improved.arrayIndex (fst g) = Some i ->
  Forall (fun p => Improved.arrayIndex (fst (snd p)) = Some (fst p))
    (Improved.insertIndexed i g sorted).
Proof.
  induction 1 as [|[j h] rest Hp Hrest IH]; intros Hg.
  - by constructor.
  - cbn [Improved.insertIndexed]. destruct (i <? j).
    + constructor; [done|]. by constructor.
    + constructor; [done|]. by apply IH.
Qed.

Lemma indexed_values workflows :
  Forall (fun p => Improved.arrayIndex (fst (snd p)) = Some (fst p))
    (Improved.indexed workflows).
Proof.
  induction workflows as [|g rest IH]; [constructor|].
  cbn [Improved.indexed].
  destruct (Improved.arrayIndex (fst g)) eqn:E; [|done].
  by apply insertIndexed_values.
Qed.

(** X13: enumerating the groups with [Object.entries] loses no group and
    repeats none: the result is a permutation of the groups, made of the
    groups whose name is an array index, by increasing index, followed by
    the other groups in insertion order. *)
Theorem entries_permute_groups (workflows : list (string * list string)) :
  Improved.entries workflows ≡ₚ workflows
  /\ exists numbered,
       Improved.entries workflows
       = (List.map snd numbered
          ++ List.filter (fun g => negb (Improved.isArrayIndex (fst g)))
               workflows)%list
       /\ StronglySorted N.le (List.map fst numbered)
       /\ Forall (fun p => Improved.arrayIndex (fst (snd p)) = Some (fst p))
            numbered.
Proof.
  split.
  - unfold Improved.entries. rewrite indexed_perm. apply filter_split.
  - exists (Improved.indexed workflows). split; [done|].
    split; [apply indexed_sorted | apply indexed_values].
Qed.

(** ** What [saveToCSV] returns *)

Lemma saveWorkflowFiles_result env date workflows :
  forall savedFiles st files st',
    Improved.saveWorkflowFiles env date workflows savedFiles st
    = (Js.Ok files, st') ->
    exists new,
      Io.written st' = (Io.written st ++ new)%list
      /\ List.map fst new = List.map (Spec.workflowPath env date) workflows
      /\ files = (savedFiles ++ List.map fst new)%list.
Proof.
  induction workflows as [|[workflowName logs] rest IH];
    intros savedFiles st files st'.
  - intros [= <- <-]. exists []. by rewrite !app_nil_r.
  - cbn [Improved.saveWorkflowFiles]. unfold Io.bind at 1.
    rewrite (appendRows_stamped env _ _ logs
               (fun ts log => workflowRow_tail ts workflowName log)).
    unfold Io.bind at 1, Io.write at 1.
    destruct (Io.writeFile env _) eqn:Hw; [|done].
    intros (new & Hwritten & Hpaths & ->)%IH.
    eexists (_ :: new). cbn [Io.written Spec.advance] in Hwritten.
    rewrite Hwritten, <- !app_assoc. split; [reflexivity|].
    cbn [List.map fst]. rewrite Hpaths. split; reflexivity.
Qed.

(** X14: what [saveToCSV] returns is what it did.  When it returns [null]
    it has read no clock and written no file.  When it returns a list,
    the list holds the paths of the files just written, in the order of
    writing: one per group, as [Object.entries] enumerates the groups,
    named after the cleaned group name and the date, and last the
    combined file; all names carry the date part of one and the same
    clock reading, the first of the call. *)
Theorem saveToCSV_returns_what_it_wrote (env : Io.Env)
  (workflowData : list Improved.StructuredEntry) (st st' : Io.State)
  (result : option (list string)) :
  Improved.saveToCSV env workflowData st = (Js.Ok result, st') ->
  match result with
  | None => st' = st
  | Some savedFiles =>
      exists readableData workflows new,
        Improved.convertToHumanReadable workflowData = Js.Ok readableData
        /\ Improved.groupByWorkflow readableData [] = Js.Ok workflows
        /\ Io.written st' = (Io.written st ++ new)%list
        /\ List.map fst new = savedFiles
        /\ savedFiles
           = (List.map
                (Spec.workflowPath env
                   (Improved.datePart (Io.toISOString env (Io.tick st))))
                (Improved.entries workflows)
              ++ [Spec.combinedPath env
                    (Improved.datePart
                       (Io.toISOString env (Io.tick st)))])%list
  end.
Proof.
  unfold Improved.saveToCSV.
  destruct workflowData as [|entry entries]; [by intros [= <- <-]|].
  unfold Io.bind at 1, Io.mkdir.
  destruct (Io.ensureDir env _); [|done].
  unfold Io.bind at 1, Io.lift at 1.
  destruct (Improved.convertToHumanReadable _) as [readableData|] eqn:Hc;
    [|done].
  destruct readableData as [|item items]; [by intros [= <- <-]|].
  unfold Io.bind at 1, Io.lift at 1.
  destruct (Improved.groupByWorkflow _ _) as [workflows|] eqn:Hg; [|done].
  unfold Io.bind at 1, Io.now at 1. unfold Io.bind at 1.
  destruct (Improved.saveWorkflowFiles _ _ _ _ _) as [[files|e] st2] eqn:Hs;
    [|done].
  apply saveWorkflowFiles_result in Hs as (new & Hw & Hpaths & ->).
  unfold Io.bind at 1.
  rewrite (appendRows_stamped env _ _ (item :: items) combinedRow_tail).
  unfold Io.bind, Io.write.
  destruct (Io.writeFile env _); [|done].
  unfold Io.ret. intros [= <- <-].
  exists (item :: items), workflows. eexists (new ++ [_])%list.
  split; [done|]. split; [done|].
  cbn [Io.written Spec.advance] in *. rewrite Hw.
  rewrite <- !app_assoc. split; [reflexivity|].
  rewrite List.map_app, Hpaths. cbn [List.map fst app].
  split; reflexivity.
Qed.

Lemma saveToCSV_returns_what_it_wrote_witness :
  exists readableData workflows new,
    Improved.convertToHumanReadable [Sample.startedEntry]
    = Js.Ok readableData
    /\ Improved.groupByWorkflow readableData [] = Js.Ok workflows
    /\ Io.written
         (snd (Improved.saveToCSV Sample.env [Sample.startedEntry]
                 Sample.start))
       = (Io.written Sample.start ++ new)%list
    /\ List.map fst new
       = [ "/workspace/automa-exports/Workflow_2025-08-16.csv";
           "/workspace/automa-exports/all_workflows_2025-08-16.csv" ]
    /\ [ "/workspace/automa-exports/Workflow_2025-08-16.csv";
         "/workspace/automa-exports/all_workflows_2025-08-16.csv" ]
       = (List.map
            (Spec.workflowPath Sample.env
               (Improved.datePart
                  (Io.toISOString Sample.env (Io.tick Sample.start))))
            (Improved.entries workflows)
          ++ [Spec.combinedPath Sample.env
                (Improved.datePart
                   (Io.toISOString Sample.env (Io.tick Sample.start)))])%list.
Proof.
  apply (saveToCSV_returns_what_it_wrote Sample.env [Sample.startedEntry]
           Sample.start
           (snd (Improved.saveToCSV Sample.env [Sample.startedEntry]
                   Sample.start))
           (Some [ "/workspace/automa-exports/Workflow_2025-08-16.csv";
                   "/workspace/automa-exports/all_workflows_2025-08-16.csv" ])).
  vm_compute. reflexivity.
Defined.

(** ** Rows and file names *)

(** X15: a row of either kind of file is read back as its fields whenever
    its timestamp and its workflow name hold no double quote: four fields
    for a per-workflow file, five for the combined file, the log text
    among them whatever characters it holds. *)
Theorem rows_read_back (timestamp workflowName log : string) :
  Spec.noQuote timestamp = true -> Spec.noQuote workflowName = true ->
  Spec.parseRow (Improved.workflowRow timestamp workflowName log)
  = Some [ timestamp; workflowName; Improved.csvAction log;
           Improved.csvStatus log ]
  /\ Spec.parseRow
       (Improved.combinedRow timestamp
          {| Improved.rec_workflow := workflowName;
             Improved.rec_log := log |})
     = Some [ timestamp; workflowName; log; Improved.csvAction log;
              Improved.csvStatus log ].
Proof.
  intros Hts Hwf. split; [|by apply combined_row_reads_back].
  unfold Spec.parseRow.
  change (Improved.workflowRow timestamp workflowName log)
    with (Improved.quoted timestamp
          ++ String ","
               (Improved.quoted workflowName
                ++ String ","
                     (Improved.quoted (Improved.csvAction log)
                      ++ String ","
                           (Improved.quoted (Improved.csvStatus log)
                            ++ Improved.newline)))).
  rewrite (parse_quoted_plain _ _ _ Hts), parse_after_quote_comma.
  rewrite (parse_quoted_plain _ _ _ Hwf), parse_after_quote_comma.
  rewrite parse_quoted_plain, parse_after_quote_comma
    by (by apply derived_noQuote).
  rewrite parse_quoted_plain, parse_after_quote_end
    by (by apply derived_noQuote).
  reflexivity.
Qed.

Lemma rows_read_back_witness :
  Spec.parseRow
    (Improved.workflowRow Sample.timestamp "Typing Five"
       ("Clicked " ++ String dquote "OK, go"))
  = Some [ Sample.timestamp; "Typing Five";
           Improved.csvAction ("Clicked " ++ String dquote "OK, go");
           Improved.csvStatus ("Clicked " ++ String dquote "OK, go") ]
  /\ Spec.parseRow
       (Improved.combinedRow Sample.timestamp
          {| Improved.rec_workflow := "Typing Five";
             Improved.rec_log := "Clicked " ++ String dquote "OK, go" |})
     = Some [ Sample.timestamp; "Typing Five";
              "Clicked " ++ String dquote "OK, go";
              Improved.csvAction ("Clicked " ++ String dquote "OK, go");
              Improved.csvStatus ("Clicked " ++ String dquote "OK, go") ].
Proof.
  apply (rows_read_back Sample.timestamp "Typing Five"
           ("Clicked " ++ String dquote "OK, go")); reflexivity.
Defined.

Lemma length_take n s : (String.length (Str.take n s) <= n)%nat.
Proof.
  revert s. induction n as [|n IH]; intros [|c s]; cbn; try lia.
  specialize (IH s). lia.
Qed.

Lemma all_take p n s :
  Spec.all p s = true -> Spec.all p (Str.take n s) = true.
Proof.
  revert s. induction n as [|n IH]; intros [|c s]; try done.
  cbn [Spec.all Str.take]. intros [Hc Hs]%andb_prop. by rewrite Hc, IH.
Qed.

(** X16: the name part of a per-workflow file is at most 30 characters
    long and holds only letters, digits, underscores, hyphens and white
    space, whatever the workflow name. *)
Theorem cleanName_is_safe (workflowName : string) :
  (String.length (Improved.cleanName workflowName) <= 30)%nat
  /\ Spec.all Spec.fileNameChar (Improved.cleanName workflowName) = true.
Proof.
  unfold Improved.cleanName. split; [apply length_take|].
  apply all_take. induction workflowName as [|c s IH]; [done|].
  cbn [Str.map Spec.all]. rewrite IH, andb_true_r.
  fold (Spec.fileNameChar c). by destruct (Spec.fileNameChar c) eqn:E.
Qed.

(** ** Discovery *)

Lemma find_first {A} (f : A -> bool) l :
  match List.find f l with
  | Some x =>
      exists before after,
        l = (before ++ x :: after)%list /\ f x = true
        /\ Forall (fun y => f y = false) before
  | None => Forall (fun y => f y = false) l
  end.
Proof.
  induction l as [|y l IH]; [by constructor|]. cbn [List.find].
  destruct (f y) eqn:Hy.
  - exists [], l. by repeat split.
  - destruct (List.find f l) as [x|].
    + destruct IH as (before & after & -> & Hx & Hb).
      exists (y :: before), after. repeat split; try done. by constructor.
    + by constructor.
Qed.

(** X17: [findChromeProfiles] returns at most one profile: the first of
    the four candidate paths that exists, the candidates before it not
    existing; and none when no candidate exists. *)
Theorem first_existing_profile (env : Io.Env) :
  (Improved.findChromeProfiles env = []
   /\ Forall (fun p => Io.pathExists env p = false)
        (Improved.possiblePaths env))
  \/ exists before profile after,
       Improved.possiblePaths env = (before ++ profile :: after)%list
       /\ Forall (fun p => Io.pathExists env p = false) before
       /\ Io.pathExists env profile = true
       /\ Improved.findChromeProfiles env = [profile].
Proof.
  unfold Improved.findChromeProfiles.
  pose proof (find_first (Io.pathExists env) (Improved.possiblePaths env))
    as H.
  destruct (List.find _ _) as [p|].
  - right. destruct H as (before & after & Heq & Hp & Hb).
    by exists before, p, after.
  - by left.
Qed.

Lemma length_drop n s :
  String.length (Str.drop n s) = (String.length s - n)%nat.
Proof.
  revert s. induction n as [|n IH]; intros [|c s]; cbn; try done.
Qed.

Lemma drop_app pre suf : Str.drop (String.length pre) (pre ++ suf) = suf.
Proof. induction pre as [|c pre IH]; [by destruct suf | exact IH]. Qed.

Lemma endsWith_spec item suffix :
  Improved.endsWith item suffix = true
  <-> exists pre, item = pre ++ suffix.
Proof.
  unfold Improved.endsWith. rewrite String.eqb_eq. split.
  - intros H.
    exists (Str.take (String.length item - String.length suffix) item).
    rewrite <- H at 2. by rewrite take_drop.
  - intros [pre ->]. rewrite length_append.
    replace (String.length pre + String.length suffix
             - String.length suffix)%nat
      with (String.length pre) by lia.
    apply drop_app.
Qed.

Lemma first_profile_exists env :
  Improved.findChromeProfiles env = []
  \/ exists profile,
       Improved.findChromeProfiles env = [profile]
       /\ Io.pathExists env profile = true.
Proof.
  unfold Improved.findChromeProfiles.
  destruct (List.find _ _) as [p|] eqn:E; [|by left].
  right. exists p. split; [done|]. by apply find_some in E as [_ ?].
Qed.

(** X18: every directory the discovery hands to the extraction is an
    entry of the [Default/IndexedDB] directory of the profile found, that
    directory existing and being readable, and the name of the entry
    starts with [chrome-extension_] and ends with [.indexeddb.leveldb]. *)
Theorem discovered_directories (env : Io.Env) (automaDir : string) :
  In automaDir
    (Improved.findAutomaExtensions env
       (Improved.findIndexedDBDirs env (Improved.findChromeProfiles env))) ->
  exists profile contents item,
    Improved.findChromeProfiles env = [profile]
    /\ Io.pathExists env profile = true
    /\ Io.pathExists env (Io.join env [profile; "Default"; "IndexedDB"])
       = true
    /\ Io.readdir env (Io.join env [profile; "Default"; "IndexedDB"])
       = Some contents
    /\ In item contents
    /\ (exists rest, item = "chrome-extension_" ++ rest)
    /\ (exists pre, item = pre ++ ".indexeddb.leveldb")
    /\ automaDir
       = Io.join env [Io.join env [profile; "Default"; "IndexedDB"]; item].
Proof.
  destruct (first_profile_exists env) as [Hnone|(profile & Hp & Hex)].
  - by rewrite Hnone.
  - rewrite Hp. unfold Improved.findAutomaExtensions.
    intros (idbDir & Hidb & Hin)%in_flat_map.
    unfold Improved.findIndexedDBDirs in Hidb.
    apply filter_In in Hidb as [Hidb Hexists].
    destruct Hidb as [<-|[]].
    destruct (Io.readdir env _) as [contents|] eqn:Hread; [|done].
    apply in_map_iff in Hin as (item & <- & Hitem).
    apply filter_In in Hitem as [Hitem Hext].
    unfold Improved.isExtensionDir in Hext.
    apply andb_prop in Hext as [Hpre Hsuf].
    exists profile, contents, item. repeat split; try done.
    + by apply prefix_spec.
    + by apply endsWith_spec.
Qed.

Lemma discovered_directories_witness :
  exists profile contents item,
    Improved.findChromeProfiles Sample.profileEnv = [profile]
    /\ Io.pathExists Sample.profileEnv profile = true
    /\ Io.pathExists Sample.profileEnv
         (Io.join Sample.profileEnv [profile; "Default"; "IndexedDB"])
       = true
    /\ Io.readdir Sample.profileEnv
         (Io.join Sample.profileEnv [profile; "Default"; "IndexedDB"])
       = Some contents
    /\ In item contents
    /\ (exists rest, item = "chrome-extension_" ++ rest)
    /\ (exists pre, item = pre ++ ".indexeddb.leveldb")
    /\ Sample.extensionDir
       = Io.join Sample.profileEnv
           [Io.join Sample.profileEnv [profile; "Default"; "IndexedDB"];
            item].
Proof.
  apply (discovered_directories Sample.profileEnv Sample.extensionDir).
  vm_compute. tauto.
Defined.

(** ** Reading the table files *)

Lemma extractFiles_grows parse stringify env automaDir files :
  forall acc,
    exists more,
      Improved.extractFiles parse stringify env automaDir files acc
      = (acc ++ more)%list
      /\ forall entry,
           In entry more ->
           exists file size buffer,
             In file files
             /\ Improved.isTableFile file = true
             /\ Io.stat env (Io.join env [automaDir; file])
                = Some (true, size)
             /\ Io.readFile env (Io.join env [automaDir; file])
                = Some buffer
             /\ In entry
                  (Improved.extractStructuredData parse stringify
                     (Improved.extractCleanStrings buffer)).
Proof.
  induction files as [|file rest IH]; intros acc.
  - exists []. by rewrite app_nil_r.
  - cbn [Improved.extractFiles].
    destruct (Io.stat env _) as [[isFile size]|] eqn:Hstat.
    2: { exists []. by rewrite app_nil_r. }
    destruct (IH (acc ++ (if isFile && Improved.isTableFile file
                          then match Io.readFile env
                                       (Io.join env [automaDir; file]) with
                               | Some buffer =>
                                   Improved.extractStructuredData parse
                                     stringify
                                     (Improved.extractCleanStrings buffer)
                               | None => []
                               end
                          else []))%list) as (more & Heq & Hprov).
    eexists (_ ++ more)%list. rewrite Heq, <- app_assoc.
    split; [reflexivity|].
    intros entry [Hhere|Hlater]%in_app_or.
    + destruct (isFile && Improved.isTableFile file) eqn:Hb; [|done].
      apply andb_prop in Hb as [-> Htable].
      destruct (Io.readFile env _) as [buffer|] eqn:Hread; [|done].
      exists file, size, buffer. repeat split; try done. by left.
    + destruct (Hprov entry Hlater) as (f & sz & buf & Hin & H).
      exists f, sz, buf. split; [by right | done].
Qed.

Lemma extractWorkflowData_grows parse stringify env automaDirs :
  forall acc,
    exists more,
      Improved.extractWorkflowData parse stringify env automaDirs acc
      = (acc ++ more)%list
      /\ Forall (Spec.FromTableFile parse stringify env automaDirs) more.
Proof.
  induction automaDirs as [|automaDir rest IH]; intros acc.
  - exists []. by rewrite app_nil_r.
  - cbn [Improved.extractWorkflowData].
    assert (exists here,
              (if Io.pathExists env automaDir
               then match Io.readdir env automaDir with
                    | Some files =>
                        Improved.extractFiles parse stringify env automaDir
                          files acc
                    | None => acc
                    end
               else acc) = (acc ++ here)%list
              /\ Forall (Spec.FromTableFile parse stringify env
                           (automaDir :: rest)) here)
      as (here & -> & Hhere).
    { destruct (Io.pathExists env automaDir) eqn:Hex.
      2: { exists []. by rewrite app_nil_r. }
      destruct (Io.readdir env automaDir) as [files|] eqn:Hread.
      2: { exists []. by rewrite app_nil_r. }
      destruct (extractFiles_grows parse stringify env automaDir files acc)
        as (more & Heq & Hprov).
      exists more. split; [done|]. apply Forall_forall.
      intros entry Hentry%list_elem_of_In.
      destruct (Hprov entry Hentry) as (f & sz & buf & ? & ? & ? & ? & ?).
      exists automaDir, files, f, sz, buf.
      repeat split; try done. by left. }
    destruct (IH (acc ++ here)%list) as (more & -> & Hmore).
    exists (here ++ more)%list. rewrite <- app_assoc. split; [done|].
    apply Forall_app. split; [done|].
    eapply Forall_impl; [exact Hmore|].
    intros entry (d & fs & f & sz & buf & Hd & H).
    exists d, fs, f, sz, buf. split; [by right | done].
Qed.

(** X19: reading the table files only adds to what was recovered before:
    a directory or a file that cannot be listed, examined or read discards
    nothing; and every entry added was recovered from the bytes of a
    regular file named [*.log], [*.ldb], [CURRENT] or [MANIFEST-000001] in
    one of the directories, no other file being read for entries. *)
Theorem entries_come_from_table_files
  (parse : string -> option Js.object) (stringify : Js.object -> string)
  (env : Io.Env) (automaDirs : list string)
  (allStructuredData : list Improved.StructuredEntry) :
  exists more,
    Improved.extractWorkflowData parse stringify env automaDirs
      allStructuredData
    = (allStructuredData ++ more)%list
    /\ Forall (Spec.FromTableFile parse stringify env automaDirs) more.
Proof. apply extractWorkflowData_grows. Qed.

(** * The simple extractor *)

Lemma simple_group_throws data : forall workflows item,
  In item data ->
  existsb
    (String.eqb (if Str.is_empty (Improved.rec_workflow item) then "Unknown"
                 else Improved.rec_workflow item))
    Improved.inherited = true ->
  Simple.groupByWorkflow data workflows = Js.Throw Js.TypeError.
Proof.
  induction data as [|x data IH]; intros workflows item; [done|].
  cbn [Simple.groupByWorkflow]. intros [->|Hin] Hname.
  - by rewrite Hname.
  - destruct (existsb
                (String.eqb
                   (if Str.is_empty (Improved.rec_workflow x) then "Unknown"
                    else Improved.rec_workflow x))
                Improved.inherited); [done|].
    by apply (IH _ item).
Qed.

(** X20: the simple extractor files records under the names as they were
    recovered, so a record whose workflow is named like a property every
    object inherits ([constructor], [toString], [valueOf], [__proto__],
    ...) makes its [saveToCSV] raise [TypeError] before any file is
    written. *)
Theorem inherited_name_aborts_simple_export (env : Io.Env) (st : Io.State)
  (workflowData : list Improved.ReadableRecord)
  (item : Improved.ReadableRecord) :
  In item workflowData ->
  In (Improved.rec_workflow item) Improved.inherited ->
  Io.ensureDir env Improved.outputDir = true ->
  Simple.saveToCSV env workflowData st = (Js.Throw Js.TypeError, st).
Proof.
  intros Hin Hname Hdir. unfold Simple.saveToCSV.
  destruct workflowData as [|x rest]; [done|].
  unfold Io.bind at 1, Io.mkdir. rewrite Hdir.
  unfold Io.bind at 1, Io.lift at 1.
  rewrite (simple_group_throws _ [] item Hin); [done|].
  destruct (Improved.rec_workflow item) as [|c w] eqn:E.
  - by vm_compute in Hname; repeat destruct Hname as [?|Hname].
  - cbn [Str.is_empty]. apply existsb_exists.
    exists (String c w). split; [done | apply String.eqb_refl].
Qed.

Lemma inherited_name_aborts_simple_export_witness :
  Simple.saveToCSV Sample.env
    (Simple.extractFromText Sample.toStringText "000003.log") Sample.start
  = (Js.Throw Js.TypeError, Sample.start).
Proof.
  apply (inherited_name_aborts_simple_export Sample.env Sample.start
           (Simple.extractFromText Sample.toStringText "000003.log")
           {| Improved.rec_workflow := "toString";
              Improved.rec_log := "Click the button" |}).
  - vm_compute. tauto.
  - vm_compute. tauto.
  - reflexivity.
Defined.

Lemma parse_plain_end x : forall field fields,
  Spec.plain x = true ->
  Spec.parseRecord Spec.Unquoted field fields (x ++ Improved.newline)
  = Some (fields ++ [(field ++ x)%string])%list.
Proof.
  unfold Spec.plain. induction x as [|c x IH]; intros field fields.
  - intros _. cbn. by rewrite append_nil_r.
  - cbn -[Ascii.eqb Spec.append1 Improved.newline].
    intros [Hc Hx]%andb_prop. apply negb_true_iff in Hc.
    apply orb_false_elim in Hc as [[Hcomma Hlf]%orb_false_elim Hq].
    rewrite Hq, Hcomma, Hlf, IH by done.
    unfold Spec.append1. by rewrite append_assoc.
Qed.

Lemma parse_plain_field_end x fields :
  Spec.plain x = true ->
  Spec.parseRecord Spec.FieldStart "" fields (x ++ Improved.newline)
  = Some (fields ++ [x])%list.
Proof.
  destruct x as [|c x]; [done|]. unfold Spec.plain.
  cbn -[Ascii.eqb Spec.append1 Improved.newline].
  intros [Hc Hx]%andb_prop. apply negb_true_iff in Hc.
  apply orb_false_elim in Hc as [[Hcomma Hlf]%orb_false_elim Hq].
  rewrite Hq, Hcomma, Hlf. by apply parse_plain_end.
Qed.

(** X21: a row of a file of the simple extractor is read back as its two
    fields, the workflow name and the log text, whenever the workflow
    name holds no double quote; the log text may hold commas, double
    quotes and line feeds. *)
Theorem simple_row_reads_back (workflowName log : string) :
  Spec.noQuote workflowName = true ->
  Spec.parseRow (Simple.csvRow workflowName log) = Some [workflowName; log].
Proof.
  intros Hwf. unfold Spec.parseRow.
  change (Simple.csvRow workflowName log)
    with (Improved.quoted workflowName
          ++ String "," (Improved.logValue log ++ Improved.newline)).
  rewrite (parse_quoted_plain _ _ _ Hwf), parse_after_quote_comma.
  unfold Improved.logValue. destruct (Improved.needsQuotes log) eqn:E.
  - by rewrite parse_quoted_field, parse_after_quote_end.
  - apply needsQuotes_false in E.
    rewrite (escape_noQuote log (plain_noQuote log E)).
    by apply parse_plain_field_end.
Qed.

Lemma simple_row_reads_back_witness :
  Spec.parseRow
    (Simple.csvRow "typing_five"
       ("Click " ++ String dquote ("OK" ++ String dquote ", then wait")))
  = Some [ "typing_five";
           "Click " ++ String dquote ("OK" ++ String dquote ", then wait") ].
Proof.
  apply (simple_row_reads_back "typing_five"
           ("Click " ++ String dquote ("OK" ++ String dquote ", then wait"))).
  reflexivity.
Defined.

(** ** Records from text and from carved strings *)

Lemma splitOn_nonempty sep s : Simple.splitOn sep s <> [].
Proof.
  destruct s as [|c s]; [done|]. cbn [Simple.splitOn].
  destruct (Ascii.eqb c sep); [done|]. by destruct (Simple.splitOn sep s).
Qed.

Lemma join_splitOn sep s :
  Js.join (String sep "") (Simple.splitOn sep s) = s.
Proof.
  induction s as [|c s IH]; [done|]. cbn [Simple.splitOn].
  pose proof (splitOn_nonempty sep s) as Hne.
  destruct (Ascii.eqb c sep) eqn:E.
  - apply Ascii.eqb_eq in E as ->. rewrite join_cons.
    destruct (Simple.splitOn sep s) as [|first more]; [done|].
    by rewrite IH.
  - destruct (Simple.splitOn sep s) as [|first more]; [done|].
    rewrite <- IH, !join_cons. reflexivity.
Qed.

Lemma linesLoop_logs lines : forall currentWorkflow,
  List.map Improved.rec_log (Simple.linesLoop lines currentWorkflow)
  = List.filter Simple.isLogLine
      (List.filter (fun line => negb (Str.is_empty line))
         (List.map Str.trim lines)).
Proof.
  induction lines as [|line rest IH]; intros currentWorkflow; [done|].
  cbn [Simple.linesLoop List.map List.filter].
  destruct (Str.is_empty (Str.trim line)); cbn [negb]; [apply IH|].
  cbn [List.filter]. rewrite List.map_app, IH.
  by destruct (Simple.isLogLine (Str.trim line)).
Qed.

Lemma linesLoop_workflows lines : forall currentWorkflow,
  Forall
    (fun r =>
       Improved.rec_workflow r = currentWorkflow
       \/ exists line,
            In line lines
            /\ Simple.secondPart (Str.trim line)
               = Some (Improved.rec_workflow r))
    (Simple.linesLoop lines currentWorkflow).
Proof.
  induction lines as [|line rest IH]; intros currentWorkflow;
    [constructor|].
  cbn [Simple.linesLoop].
  assert (forall w,
            (w = currentWorkflow
             \/ Simple.secondPart (Str.trim line) = Some w) ->
            Forall
              (fun r =>
                 Improved.rec_workflow r = currentWorkflow
                 \/ exists l,
                      In l (line :: rest)
                      /\ Simple.secondPart (Str.trim l)
                         = Some (Improved.rec_workflow r))
              (Simple.linesLoop rest w)) as Hrest.
  { intros w Hw. eapply Forall_impl; [apply (IH w)|].
    intros r [->|(l & Hl & Hsec)].
    - destruct Hw as [->|Hw]; [by left|]. right. exists line.
      split; [by left | done].
    - right. exists l. split; [by right | done]. }
  destruct (Str.is_empty (Str.trim line)); [by apply Hrest; left|].
  set (w := if _ && _ then _ else currentWorkflow).
  assert (w = currentWorkflow
          \/ Simple.secondPart (Str.trim line) = Some w) as Hw.
  { subst w. destruct (_ && _); [|by left].
    destruct (Simple.secondPart (Str.trim line)); [by right | by left]. }
  apply Forall_app. split; [|by apply Hrest].
  destruct (Simple.isLogLine (Str.trim line)); [|constructor].
  constructor; [|constructor]. cbn.
  destruct Hw as [->|Hw]; [by left|]. right. exists line.
  split; [by left | done].
Qed.

(** X22: the log entries [extractFromText] finds are the lines of the
    text (the pieces between line feeds), trimmed, that are not empty and
    hold [Trigger], [Click], [typing] or [New tab], in the order of the
    text; and each is filed under the file name without its extension or
    under what a line of the text holds between its first and second
    colon. *)
Theorem text_logs_are_marked_lines (content filename : string) :
  Js.join Improved.newline (Simple.splitOn lf content) = content
  /\ List.map Improved.rec_log (Simple.extractFromText content filename)
     = List.filter Simple.isLogLine
         (List.filter (fun line => negb (Str.is_empty line))
            (List.map Str.trim (Simple.splitOn lf content)))
  /\ Forall
       (fun r =>
          Improved.rec_workflow r = Simple.stripExtension filename
          \/ exists line,
               In line (Simple.splitOn lf content)
               /\ Simple.secondPart (Str.trim line)
                  = Some (Improved.rec_workflow r))
       (Simple.extractFromText content filename).
Proof.
  split; [apply join_splitOn|].
  split; [apply linesLoop_logs | apply linesLoop_workflows].
Qed.

Lemma stringsLoop_logs strings : forall currentWorkflow,
  List.map Improved.rec_log (Simple.stringsLoop strings currentWorkflow)
  = List.filter Simple.isLogLine strings.
Proof.
  induction strings as [|str rest IH]; intros currentWorkflow; [done|].
  cbn [Simple.stringsLoop List.filter]. rewrite List.map_app, IH.
  by destruct (Simple.isLogLine str).
Qed.

Lemma stringsLoop_workflows strings : forall currentWorkflow,
  Forall
    (fun r =>
       Improved.rec_workflow r = currentWorkflow
       \/ In (Improved.rec_workflow r) strings)
    (Simple.stringsLoop strings currentWorkflow).
Proof.
  induction strings as [|str rest IH]; intros currentWorkflow;
    [constructor|].
  cbn [Simple.stringsLoop].
  set (w := if _ && _ then str else currentWorkflow).
  assert (w = currentWorkflow \/ w = str) as Hw
      by (subst w; destruct (_ && _); auto).
  apply Forall_app. split.
  - destruct (Simple.isLogLine str); [|constructor].
    constructor; [|constructor]. cbn.
    destruct Hw as [->| ->]; [by left | by right; left].
  - eapply Forall_impl; [apply (IH w)|].
    intros r [->|Hin]; [|by right; right].
    destruct Hw as [->| ->]; [by left | by right; left].
Qed.

Lemma stripExtension_prefix filename :
  exists extension,
    filename = Simple.stripExtension filename ++ extension
    /\ (extension = ""
        \/ exists e,
             extension = "." ++ e /\ e <> ""
             /\ Simple.all_chars Simple.extensionChar e = true).
Proof.
  induction filename as [|c rest (ext & IH & Hext)].
  - exists "". by split; [|left].
  - cbn [Simple.stripExtension].
    destruct (Ascii.eqb c "." && negb (Str.is_empty rest)
              && Simple.all_chars Simple.extensionChar rest) eqn:E.
    + apply andb_prop in E as [[Hc Hne]%andb_prop Hall].
      apply Ascii.eqb_eq in Hc as ->. exists (String "." rest).
      split; [done|]. right. exists rest. repeat split; try done.
      by destruct rest.
    + exists ext. split; [|done]. cbn [String.append]. by rewrite <- IH.
Qed.

(** X23: in the binary path of the simple extractor the log entries are
    the carved strings that hold [Trigger], [Click], [typing] or
    [New tab], in order and verbatim; each is filed under the file name
    without its last extension (a dot followed by characters other than
    dots and slashes) or under one of the carved strings. *)
Theorem string_logs_are_marked_strings (strings : list string)
  (filename : string) :
  List.map Improved.rec_log (Simple.extractFromStrings strings filename)
  = List.filter Simple.isLogLine strings
  /\ Forall
       (fun r =>
          Improved.rec_workflow r = Simple.stripExtension filename
          \/ In (Improved.rec_workflow r) strings)
       (Simple.extractFromStrings strings filename)
  /\ exists extension,
       filename = Simple.stripExtension filename ++ extension
       /\ (extension = ""
           \/ exists e,
                extension = "." ++ e /\ e <> ""
                /\ Simple.all_chars Simple.extensionChar e = true).
Proof.
  split; [apply stringsLoop_logs|].
  split; [apply stringsLoop_workflows | apply stripExtension_prefix].
Qed.

(** ** Discovery in the simple extractor *)

(** X24: for one IndexedDB directory the simple discovery returns only
    entries of that directory whose name starts with [chrome-extension_],
    and it overlooks no extension altogether: when the directory can be
    read, the result is empty exactly when no entry has that prefix. *)
Theorem simple_discovery_finds_extensions (env : Io.Env) (idbDir : string) :
  (forall automaDir,
     In automaDir (Simple.findAutomaExtensions env [idbDir]) ->
     exists contents item,
       Io.readdir env idbDir = Some contents /\ In item contents
       /\ Simple.isExtension item = true
       /\ automaDir = Io.join env [idbDir; item])
  /\ (forall contents,
        Io.readdir env idbDir = Some contents ->
        Simple.findAutomaExtensions env [idbDir] = []
        <-> forall item, In item contents ->
                         Simple.isExtension item = false).
Proof.
  unfold Simple.findAutomaExtensions. cbn [fold_left].
  unfold Simple.extensionsOf.
  destruct (Io.readdir env idbDir) as [contents|]; [|done].
  cbn [app].
  destruct (List.map _ (List.filter (Simple.looksLikeAutoma contents) _))
    as [|d ds] eqn:Hfirst.
  - split.
    + intros automaDir (item & <- & [Hin Hext]%filter_In)%in_map_iff.
      by exists contents, item.
    + intros ? [= <-]. split.
      * intros Hnil item Hin.
        destruct (Simple.isExtension item) eqn:E; [|done].
        assert (In (Io.join env [idbDir; item])
                  (List.map (fun item => Io.join env [idbDir; item])
                     (List.filter Simple.isExtension contents))) as H.
        { apply in_map_iff. exists item. split; [done|].
          apply filter_In. by split. }
        by rewrite Hnil in H.
      * intros Hnone. by rewrite filter_none.
  - split.
    + intros automaDir Hin. rewrite <- Hfirst in Hin.
      apply in_map_iff in Hin as (item & <- & [Hin Hext]%filter_In).
      apply andb_prop in Hext as [Hext _]. by exists contents, item.
    + intros ? [= <-]. split; [done|]. intros Hnone.
      assert (In d (List.map (fun item => Io.join env [idbDir; item])
                      (List.filter (Simple.looksLikeAutoma contents)
                         contents))) as H by (rewrite Hfirst; by left).
      apply in_map_iff in H as (item & _ & [Hin Hext]%filter_In).
      apply andb_prop in Hext as [Hext _]. by rewrite (Hnone item Hin) in Hext.
Qed.

(** ** Records from parsed JSON *)

Lemma named_string_in_item items item r :
  In item items -> Spec.FromNamedString item r ->
  Spec.FromNamedString (Simple.JArray items) r.
Proof.
  intros Hin (Hlog & Hname & key & Hat & Hkey & Hsame).
  split; [done|]. split; [done|]. exists key.
  split; [|done]. by eapply Spec.string_in_item.
Qed.

Lemma named_string_in_value props k value r :
  In (k, value) props -> Spec.FromNamedString value r ->
  Spec.FromNamedString (Simple.JObject props) r.
Proof.
  intros Hin (Hlog & Hname & key & Hat & Hkey & Hsame).
  split; [done|]. split; [done|]. exists key.
  split; [|done]. by eapply Spec.string_in_value.
Qed.

Lemma pushed_sound props parentKey key value :
  In (key, value) props ->
  Forall (Spec.FromNamedString (Simple.JObject props))
    (Simple.pushed parentKey key value).
Proof.
  intros Hin. unfold Simple.pushed.
  destruct (Simple.mentionsName key) eqn:Hkey; [|constructor].
  destruct value as [| | |s| |]; try constructor.
  destruct s as [|c s]; [constructor|]. cbn [Str.is_empty negb].
  constructor; [|constructor].
  split; [done|]. split.
  - cbn. destruct (Str.includes key "name"); [done|].
    by destruct parentKey.
  - exists key. split; [by apply Spec.string_here|]. split; [done|].
    cbn. by intros ->.
Qed.

Lemma findWorkflows_sound obj : forall parentKey,
  Forall (Spec.FromNamedString obj) (Simple.findWorkflows obj parentKey).
Proof.
  induction obj as [| | | |items IH|props IH] using Simple.json_induction;
    intros parentKey; try constructor.
  - cbn [Simple.findWorkflows].
    assert (forall sub index,
              (forall x, In x sub -> In x items) ->
              Forall
                (fun item =>
                   forall parentKey,
                     Forall (Spec.FromNamedString item)
                       (Simple.findWorkflows item parentKey)) sub ->
              Forall (Spec.FromNamedString (Simple.JArray items))
                (Simple.eachItem Simple.findWorkflows parentKey sub index))
      as Hsub.
    { induction sub as [|item rest IHsub]; intros index Hincl Hall;
        [constructor|].
      cbn [Simple.eachItem]. apply Forall_app.
      apply Forall_cons in Hall as [Hitem Hrest]. split.
      - eapply Forall_impl; [apply Hitem|]. intros r.
        apply named_string_in_item, Hincl. by left.
      - apply IHsub; [|done]. intros x Hx. apply Hincl. by right. }
    by apply Hsub.
  - cbn [Simple.findWorkflows].
    assert (forall sub,
              (forall x, In x sub -> In x props) ->
              Forall
                (fun prop =>
                   forall parentKey,
                     Forall (Spec.FromNamedString (snd prop))
                       (Simple.findWorkflows (snd prop) parentKey)) sub ->
              Forall (Spec.FromNamedString (Simple.JObject props))
                (Simple.eachKey Simple.findWorkflows parentKey sub))
      as Hsub.
    { induction sub as [|[key value] rest IHsub]; intros Hincl Hall;
        [constructor|].
      cbn [Simple.eachKey fst snd].
      apply Forall_cons in Hall as [Hvalue Hrest].
      assert (In (key, value) props) as Hin by (apply Hincl; by left).
      apply Forall_app. split; [by apply pushed_sound|].
      apply Forall_app. split.
      - eapply Forall_impl; [apply Hvalue|]. intros r.
        by apply (named_string_in_value props key).
      - apply IHsub; [|done]. intros x Hx. apply Hincl. by right. }
    by apply Hsub.
Qed.

Lemma findWorkflows_complete data key s :
  Spec.StringAt data key s -> Simple.mentionsName key = true -> s <> "" ->
  forall parentKey,
    exists workflow,
      In {| Improved.rec_workflow := workflow; Improved.rec_log := s |}
        (Simple.findWorkflows data parentKey).
Proof.
  intros Hat Hkey Hs.
  induction Hat as [props key s Hin|props k value key s Hin Hat IH
                    |items item key s Hin Hat IH]; intros parentKey.
  - cbn [Simple.findWorkflows].
    induction props as [|[k v] rest IHprops]; [done|].
    cbn [Simple.eachKey fst snd].
    destruct Hin as [[= -> ->]|Hin].
    + unfold Simple.pushed. rewrite Hkey.
      destruct s as [|c s]; [done|]. cbn [Str.is_empty negb].
      eexists. apply in_or_app. left. by left.
    + destruct (IHprops Hin) as [workflow Hw]. exists workflow.
      apply in_or_app. right. apply in_or_app. by right.
  - cbn [Simple.findWorkflows].
    induction props as [|[k' v] rest IHprops]; [done|].
    cbn [Simple.eachKey fst snd].
    destruct Hin as [[= -> ->]|Hin].
    + destruct (IH Hkey Hs k) as [workflow Hw]. exists workflow.
      apply in_or_app. right. apply in_or_app. by left.
    + destruct (IHprops Hin) as [workflow Hw]. exists workflow.
      apply in_or_app. right. apply in_or_app. by right.
  - cbn [Simple.findWorkflows]. generalize 0%nat.
    induction items as [|x rest IHitems]; intros index; [done|].
    cbn [Simple.eachItem].
    destruct Hin as [->|Hin].
    + destruct (IH Hkey Hs (parentKey ++ "[" ++ Simple.showIndex index
                            ++ "]")) as [workflow Hw].
      exists workflow. apply in_or_app. by left.
    + destruct (IHitems Hin (S index)) as [workflow Hw]. exists workflow.
      apply in_or_app. by right.
Qed.

(** X25: the records [extractFromJSON] recovers are exactly the non-empty
    strings stored, at any depth of the parsed data, under a key that
    mentions [workflow], [log] or [name] (in any letter case): each
    record's log entry is such a string, its workflow name is never empty
    and is the string itself when the key holds [name]; and each such
    string is the log entry of some record.  A file that parses to a
    scalar gives no record. *)
Theorem json_records_are_named_strings (data : Simple.json) :
  Forall (Spec.FromNamedString data) (Simple.extractFromJSON data)
  /\ (forall key s,
        Spec.StringAt data key s -> Simple.mentionsName key = true ->
        s <> "" ->
        exists workflow,
          In {| Improved.rec_workflow := workflow; Improved.rec_log := s |}
            (Simple.extractFromJSON data))
  /\ ((forall items, data <> Simple.JArray items) ->
      (forall props, data <> Simple.JObject props) ->
      Simple.extractFromJSON data = []).
Proof.
  split; [apply findWorkflows_sound|]. split.
  - intros key s Hat Hkey Hs. by apply findWorkflows_complete with key.
  - intros Harr Hobj. destruct data as [| | | |items|props]; try done.
    + by destruct (Harr items).
    + by destruct (Hobj props).
Qed.

Lemma json_records_are_named_strings_witness :
  exists workflow,
    In {| Improved.rec_workflow := workflow;
          Improved.rec_log := "Click element" |}
      (Simple.extractFromJSON Sample.parsedFile).
Proof.
  apply (proj1 (proj2 (json_records_are_named_strings Sample.parsedFile))
           "logText"); [|reflexivity|done].
  eapply Spec.string_in_item; [by left|].
  eapply Spec.string_in_value; [right; by left|].
  eapply Spec.string_in_item; [by left|].
  apply Spec.string_here. by left.
Defined.

(** X26: an element of an array is searched under the name of the array
    followed by its index in brackets: a log stored under a key without
    [name] in the element at [index] of the array stored under [key] is
    filed under the workflow name [key[index]]. *)
Theorem array_items_named_by_index (parentKey key logKey entry : string)
  (before after : list Simple.json)
  (Hkey : Simple.mentionsName logKey = true)
  (Hname : Str.includes logKey "name" = false)
  (Hentry : entry <> "") :
  In {| Improved.rec_workflow :=
          key ++ "[" ++ Simple.showIndex (List.length before) ++ "]";
        Improved.rec_log := entry |}
    (Simple.findWorkflows
       (Simple.JObject
          [ (key,
             Simple.JArray
               (before
                ++ Simple.JObject [ (logKey, Simple.JString entry) ]
                   :: after)%list) ])
       parentKey).
Proof.
  cbn [Simple.findWorkflows Simple.eachKey fst snd].
  apply in_or_app. right. rewrite app_nil_r.
  change (List.length before) with (0 + List.length before)%nat at 1.
  generalize 0%nat.
  induction before as [|x rest IH]; intros index.
  - cbn [app Simple.eachItem List.length]. rewrite Nat.add_0_r.
    apply in_or_app. left.
    cbn [Simple.findWorkflows Simple.eachKey fst snd].
    unfold Simple.pushed. rewrite Hkey, Hname.
    destruct entry as [|c entry]; [done|]. cbn [Str.is_empty negb].
    destruct (key ++ "[" ++ Simple.showIndex index ++ "]") eqn:E.
    + by destruct key.
    + by left.
  - cbn [app Simple.eachItem List.length]. apply in_or_app. right.
    rewrite <- Nat.add_succ_comm. apply IH.
Qed.

Lemma array_items_named_by_index_witness :
  In {| Improved.rec_workflow := "history[0]";
        Improved.rec_log := "Click element" |}
    (Simple.findWorkflows
       (Simple.JObject
          [ ("history",
             Simple.JArray
               [ Simple.JObject
                   [ ("logText", Simple.JString "Click element") ] ]) ])
       "[0]").
Proof.
  apply (array_items_named_by_index "[0]" "history" "logText"
           "Click element" [] []); [reflexivity | reflexivity | done].
Defined.

(** ** The timestamp column, file by file *)







